(** * Snowfriend front-end: a shallow embedding of the chat client's
      pure string functions and small state machines.

    Sources embedded here: [static/js/chat.js], the scripts of
    [static/js/chatbot] that restate parts of it (chat-limits,
    chat-modals, chat-messages), and the password-reset / login scripts
    that define [validateEmail].

    JavaScript strings are sequences of UTF-16 code units; they are
    modelled as [list N].  JavaScript numbers that the code only uses as
    integers (counters, seconds) are given by their value in [Z]; where
    the code computes with them, the rounding of doubles from 2^53 on is
    written out (see Numbers below). *)

From Stdlib Require Import String Ascii.
From Stdlib Require Import List ZArith NArith Bool Lia.
From Stdlib Require DecimalString DecimalN.
Import ListNotations.

(* ===================================================================== *)
(** * Part I: definitions                                                 *)
(* ===================================================================== *)

(* --------------------------------------------------------------------- *)
(** ** JavaScript strings and the String.prototype methods the code uses  *)
(* --------------------------------------------------------------------- *)

Module Js.

Definition char16 := N.
Definition jsstring := list char16.

(** String literals of the source that are pure ASCII. *)
Fixpoint lit (s : string) : jsstring :=
  match s with
  | EmptyString => []
  | String a s' => N_of_ascii a :: lit s'
  end.

Definition ch (a : ascii) : char16 := N_of_ascii a.

(** Code units of the non-ASCII or quote-like characters in the source. *)
Definition c_newline : char16 := 10%N.
Definition c_dquote : char16 := 34%N.
Definition c_squote : char16 := 39%N.
Definition c_cross : char16 := 10060%N.   (* U+274C, the cross mark *)
Definition c_bullet : char16 := 8226%N.   (* U+2022 *)

Definition str_eqb (a b : jsstring) : bool :=
  if list_eq_dec N.eq_dec a b then true else false.

(** ECMAScript WhiteSpace and LineTerminator code points: what [trim]
    strips and what the regex class [\s] matches. *)
Definition isLineTerminator (c : char16) : bool :=
  ((c =? 10) || (c =? 13) || (c =? 8232) || (c =? 8233))%N.

Definition isWhiteSpace (c : char16) : bool :=
  ((c =? 9) || (c =? 10) || (c =? 11) || (c =? 12) || (c =? 13)
   || (c =? 32) || (c =? 160) || (c =? 5760)
   || ((8192 <=? c) && (c <=? 8202))
   || (c =? 8232) || (c =? 8233) || (c =? 8239) || (c =? 8287)
   || (c =? 12288) || (c =? 65279))%N.

Fixpoint trimStart (s : jsstring) : jsstring :=
  match s with
  | c :: s' => if isWhiteSpace c then trimStart s' else s
  | [] => []
  end.

Fixpoint trimEnd (s : jsstring) : jsstring :=
  match s with
  | [] => []
  | c :: s' =>
      match trimEnd s' with
      | [] => if isWhiteSpace c then [] else [c]
      | r => c :: r
      end
  end.

Definition trim (s : jsstring) : jsstring := trimEnd (trimStart s).

Fixpoint startsWith (s p : jsstring) : bool :=
  match p, s with
  | [], _ => true
  | a :: p', b :: s' => (a =? b)%N && startsWith s' p'
  | _ :: _, [] => false
  end.

Definition endsWith (s p : jsstring) : bool := startsWith (rev s) (rev p).

Fixpoint includes (s p : jsstring) : bool :=
  startsWith s p ||
  match s with
  | [] => false
  | _ :: s' => includes s' p
  end.

(** [s.split(sep)] for a one-code-unit separator: never the empty list. *)
Fixpoint split (sep : char16) (s : jsstring) : list jsstring :=
  match s with
  | [] => [[]]
  | c :: s' =>
      if (c =? sep)%N then [] :: split sep s'
      else match split sep s' with
           | l :: ls => (c :: l) :: ls
           | [] => [[c]]
           end
  end.

Fixpoint join (sep : jsstring) (ls : list jsstring) : jsstring :=
  match ls with
  | [] => []
  | [l] => l
  | l :: ls' => l ++ sep ++ join sep ls'
  end.

(** [s.slice(1, -1)]: drop the first and the last code unit. *)
Definition slice_1_m1 (s : jsstring) : jsstring := removelast (tl s).

(** [s.slice(n)] for n >= 0. *)
Definition slice_from (n : nat) (s : jsstring) : jsstring := skipn n s.

(** [String.prototype.padStart(targetLength, fillString)]. *)
Definition padStart (target : nat) (fill s : jsstring) : jsstring :=
  let len := length s in
  if (target <=? len)%nat then s
  else match fill with
       | [] => s
       | _ => firstn (target - len) (concat (repeat fill (target - len))) ++ s
       end.

(** [String(n)] for an integer-valued number. *)
Definition String_of_N (n : N) : jsstring :=
  lit (DecimalString.NilEmpty.string_of_uint (N.to_uint n)).

(** The decimal numeral of an integer. *)
Definition String_of_Z (z : Z) : jsstring :=
  match z with
  | Zneg p => ch "-" :: String_of_N (Npos p)
  | _ => String_of_N (Z.to_N z)
  end.

(** ** Numbers

    A number of the scripts is an IEEE 754 double.  The embedded
    functions work on counts (seconds, messages), so a number is given
    here by its integer value.  Below 2^53 in absolute value every
    integer is a double, and sums, differences, floors of quotients and
    the decimal numeral are exact; from 2^53 on a result is rounded to
    the nearest double, ties to the even significand, and printed with
    the fewest digits that read back as the same double.  Overflow to
    Infinity (from 2^1024 on) is not modelled. *)

Definition two53 : Z := (2 ^ 53)%Z.

(** The integer nearest to n/d, for n >= 0 and d > 0; a tie goes to the
    even one. *)
Definition nearest_even (n d : Z) : Z :=
  let q := (n / d)%Z in
  let r := (n mod d)%Z in
  if (2 * r <? d)%Z then q
  else if (d <? 2 * r)%Z then (q + 1)%Z
  else if Z.even q then q else (q + 1)%Z.

(** The double that holds the result of an operation whose exact result
    is the integer [z]: [z] itself below 2^53; from there on the nearest
    multiple of the spacing 2^(e-52) of the doubles between 2^e and
    2^(e+1), where 2^e <= |z| < 2^(e+1). *)
Definition to_double (z : Z) : Z :=
  let a := Z.abs z in
  if (a <? two53)%Z then z
  else
    let u := (2 ^ (Z.log2 a - 52))%Z in
    (Z.sgn z * (nearest_even a u * u))%Z.

(** [Math.floor(a / b)] for a >= 0 and 0 < b < 2^53: the quotient is
    rounded to 53 significant bits, then floored.  With 2^e the power
    of two at or below the quotient, the quotient is rounded to a
    multiple of 2^(e-52). *)
Definition floor_div (a b : Z) : Z :=
  if (a <? b)%Z then 0%Z
  else
    let e := Z.log2 (a / b) in
    if (e <=? 52)%Z then
      let p := (2 ^ (52 - e))%Z in
      (nearest_even (a * p) b / p)%Z
    else
      let u := (2 ^ (e - 52))%Z in
      (nearest_even a (b * u) * u)%Z.

(** Whether the integer [c] reads back as the double [a] >= 2^53: it lies
    within half a spacing of [a] (a quarter below a power of two), the
    ends included when the significand of [a] is even.  Bounds and [c]
    are doubled to stay in the integers. *)
Definition reads_back (a c : Z) : bool :=
  let u := (2 ^ (Z.log2 a - 52))%Z in
  let m := (a / u)%Z in
  let hi2 := (2 * a + u)%Z in
  let lo2 := if (m =? 2 ^ 52)%Z then (2 * a - u / 2)%Z else (2 * a - u)%Z in
  if Z.even m then ((lo2 <=? 2 * c) && (2 * c <=? hi2))%Z
  else ((lo2 <? 2 * c) && (2 * c <? hi2))%Z.

(** The multiple of 10^z nearest to [a] among those that read back as
    [a], if there is one. *)
Definition candidate (a : Z) (z : nat) : option Z :=
  let p := (10 ^ Z.of_nat z)%Z in
  let lo := (a / p * p)%Z in
  let hi := (lo + p)%Z in
  if (a mod p =? 0)%Z then Some a
  else
    match reads_back a lo, reads_back a hi with
    | true, true => Some (if (a - lo <=? hi - a)%Z then lo else hi)
    | true, false => Some lo
    | false, true => Some hi
    | false, false => None
    end.

(** The integer with the most trailing zeros, at most [z], that reads
    back as [a], and the number of those zeros. *)
Fixpoint shortest (a : Z) (z : nat) : Z * nat :=
  match z with
  | O => (a, O)
  | S z' =>
      match candidate a z with
      | Some c => (c, z)
      | None => shortest a z'
      end
  end.

(** Number::toString of a double a >= 0 with an integer value: its
    numeral below 2^53; otherwise the shortest digits that read back as
    it, followed by zeros up to 21 digits in all, and in exponent
    notation beyond. *)
Definition digits_of (a : Z) : jsstring :=
  if (a <? two53)%Z then String_of_Z a
  else
    let '(c, z) := shortest a (Z.to_nat (Z.log2 a)) in
    let all := String_of_Z c in
    let n := length all in
    if (n <=? 21)%nat then all
    else
      match firstn (n - z) all with
      | [] => all
      | [d] => d :: lit "e+" ++ String_of_Z (Z.of_nat n - 1)
      | d :: ds => d :: lit "." ++ ds ++ lit "e+" ++ String_of_Z (Z.of_nat n - 1)
      end.

(** [String(x)], a template literal or a [textContent] assignment, for a
    number with an integer value. *)
Definition Number_toString (x : Z) : jsstring :=
  if (x <? 0)%Z then lit "-" ++ digits_of (- x) else digits_of x.

(** ** Regular expressions

    Every regular expression in the embedded functions is a sequence of
    single-character classes, each with a quantifier, optionally
    anchored (a group with alternatives is a list of such sequences).
    [match_atoms] is the backtracking matcher of ECMAScript restricted to
    that shape: a greedy class first takes as many code units as it can
    and gives them back one at a time when the rest of the pattern fails.
    The result lists the substring taken by each atom (so a capture group
    around one atom is the corresponding entry) and the unmatched rest. *)

Inductive quant := One | Plus | Star | Lazy | Opt.

Record atom := Atom { cls : char16 -> bool; qnt : quant }.

Definition push (m : jsstring) (r : option (list jsstring * jsstring))
  : option (list jsstring * jsstring) :=
  match r with
  | Some (ms, rest) => Some (m :: ms, rest)
  | None => None
  end.

Definition grow (c : char16) (r : option (list jsstring * jsstring))
  : option (list jsstring * jsstring) :=
  match r with
  | Some (m :: ms, rest) => Some ((c :: m) :: ms, rest)
  | _ => None
  end.

Fixpoint star (p : char16 -> bool)
    (k : jsstring -> option (list jsstring * jsstring)) (s : jsstring)
  : option (list jsstring * jsstring) :=
  match s with
  | c :: s' =>
      if p c then
        match star p k s' with
        | Some r => grow c (Some r)
        | None => push [] (k s)
        end
      else push [] (k s)
  | [] => push [] (k [])
  end.

(** The lazy counterpart: the rest of the pattern is tried first, and the
    class takes one more code unit each time it fails. *)
Fixpoint lazy (p : char16 -> bool)
    (k : jsstring -> option (list jsstring * jsstring)) (s : jsstring)
  : option (list jsstring * jsstring) :=
  match k s with
  | Some r => push [] (Some r)
  | None =>
      match s with
      | c :: s' => if p c then grow c (lazy p k s') else None
      | [] => None
      end
  end.

Fixpoint match_atoms (r : list atom) (at_end : bool) (s : jsstring)
  : option (list jsstring * jsstring) :=
  match r with
  | [] =>
      if at_end then match s with [] => Some ([], []) | _ => None end
      else Some ([], s)
  | a :: r' =>
      let k := match_atoms r' at_end in
      match qnt a with
      | One =>
          match s with
          | c :: s' => if cls a c then push [c] (k s') else None
          | [] => None
          end
      | Plus =>
          match s with
          | c :: s' => if cls a c then grow c (star (cls a) k s') else None
          | [] => None
          end
      | Star => star (cls a) k s
      | Lazy => lazy (cls a) k s
      | Opt =>
          match s with
          | c :: s' =>
              if cls a c then
                match k s' with
                | Some x => push [c] (Some x)
                | None => push [] (k s)
                end
              else push [] (k s)
          | [] => push [] (k [])
          end
      end
  end.

(** Leftmost match of an unanchored pattern: the text before the match,
    the per-atom substrings, the rest. *)
Fixpoint search (r : list atom) (at_end : bool) (s : jsstring)
  : option (jsstring * list jsstring * jsstring) :=
  match match_atoms r at_end s with
  | Some (ms, rest) => Some ([], ms, rest)
  | None =>
      match s with
      | [] => None
      | c :: s' =>
          match search r at_end s' with
          | Some (pre, ms, rest) => Some (c :: pre, ms, rest)
          | None => None
          end
      end
  end.

Record regex := Regex { at_start : bool; atoms : list atom; at_finish : bool }.

(** [re.test(s)] for a regex without the g flag. *)
Definition test (re : regex) (s : jsstring) : bool :=
  if at_start re then
    match match_atoms (atoms re) (at_finish re) s with
    | Some _ => true | None => false
    end
  else
    match search (atoms re) (at_finish re) s with
    | Some _ => true | None => false
    end.

(** A pattern with alternatives (a group with a bar, or an optional
    group written out): the first alternative that matches wins. *)
Fixpoint match_first (rs : list (list atom)) (s : jsstring)
  : option (list jsstring * jsstring) :=
  match rs with
  | [] => None
  | r :: rs' =>
      match match_atoms r false s with
      | Some x => Some x
      | None => match_first rs' s
      end
  end.

(** [s.replace(/re/g, f)] for an unanchored pattern with matcher [m], [f]
    receiving the per-atom substrings of each match.  [skip] counts the
    code units of the current match still to be stepped over; after an
    empty match the scan copies one code unit and goes on, as lastIndex
    does. *)
Fixpoint replace_go (m : jsstring -> option (list jsstring * jsstring))
    (f : list jsstring -> jsstring) (skip : nat) (s : jsstring) : jsstring :=
  match skip with
  | S n =>
      match s with
      | _ :: s' => replace_go m f n s'
      | [] => []
      end
  | O =>
      match m s with
      | Some (ms, _) =>
          f ms ++
          match s with
          | c :: s' =>
              match length (concat ms) with
              | O => c :: replace_go m f 0 s'
              | S n => replace_go m f n s'
              end
          | [] => []
          end
      | None =>
          match s with
          | c :: s' => c :: replace_go m f 0 s'
          | [] => []
          end
      end
  end.

Definition replace_all (r : list atom) (f : list jsstring -> jsstring)
    (s : jsstring) : jsstring :=
  replace_go (match_atoms r false) f 0 s.

Definition replace_all_alt (rs : list (list atom))
    (f : list jsstring -> jsstring) (s : jsstring) : jsstring :=
  replace_go (match_first rs) f 0 s.

(** [s.split(/re/)]: the SplitMatcher loop of ECMAScript.  [cur] holds,
    reversed, the code units of the piece being collected. *)
Fixpoint split_go (r : list atom) (skip : nat) (cur : jsstring)
    (s : jsstring) : list jsstring :=
  match s with
  | [] => [rev cur]
  | c :: s' =>
      match skip with
      | S n => split_go r n cur s'
      | O =>
          match match_atoms r false s with
          | Some (ms, _) =>
              match length (concat ms), cur with
              | O, [] => split_go r 0 [c] s'
              | O, _ => rev cur :: split_go r 0 [c] s'
              | S n, _ => rev cur :: split_go r n [] s'
              end
          | None => split_go r 0 (c :: cur) s'
          end
      end
  end.

Definition split_re (r : list atom) (s : jsstring) : list jsstring :=
  match s with
  | [] => match match_atoms r false [] with
          | Some _ => []
          | None => [[]]
          end
  | _ => split_go r 0 [] s
  end.

(** Index-free [indexOf]: the text before and after the first occurrence
    of a string pattern. *)
Fixpoint find_str (pat s : jsstring) : option (jsstring * jsstring) :=
  if startsWith s pat then Some ([], skipn (length pat) s)
  else match s with
       | [] => None
       | c :: s' =>
           match find_str pat s' with
           | Some (pre, post) => Some (c :: pre, post)
           | None => None
           end
       end.

(** GetSubstitution for a string pattern (no capture groups): in the
    replacement text, dollar-dollar is a dollar, dollar-ampersand the
    match, dollar-backquote the text before it, dollar-quote the text
    after it; every other dollar stays. *)
Fixpoint getSubstitution (matched before after repl : jsstring) : jsstring :=
  match repl with
  | [] => []
  | c :: repl' =>
      if (c =? 36)%N then
        match repl' with
        | d :: repl'' =>
            if (d =? 36)%N then 36%N :: getSubstitution matched before after repl''
            else if (d =? 38)%N then matched ++ getSubstitution matched before after repl''
            else if (d =? 96)%N then before ++ getSubstitution matched before after repl''
            else if (d =? 39)%N then after ++ getSubstitution matched before after repl''
            else c :: getSubstitution matched before after repl'
        | [] => [c]
        end
      else c :: getSubstitution matched before after repl'
  end.

(** [s.replace(pat, repl)] with a string pattern: first occurrence only. *)
Definition replace_str (pat repl s : jsstring) : jsstring :=
  match find_str pat s with
  | Some (pre, post) => pre ++ getSubstitution pat pre post repl ++ post
  | None => s
  end.

(** Character classes. *)
Definition only (c : char16) : char16 -> bool := fun x => (x =? c)%N.
Definition except (c : char16) : char16 -> bool := fun x => negb (x =? c)%N.
Definition dot : char16 -> bool := fun x => negb (isLineTerminator x).
Definition digit : char16 -> bool := fun x => ((48 <=? x) && (x <=? 57))%N.

(** Canonicalize of the i flag without the u flag, on what can equal an
    ASCII pattern character: ASCII letters fold to upper case, and a code
    unit above 127 never folds into ASCII. *)
Definition asciiUpper (c : char16) : char16 :=
  if ((97 <=? c) && (c <=? 122))%N then (c - 32)%N else c.
Definition is_ci (c : char16) : char16 -> bool :=
  fun x => (asciiUpper x =? asciiUpper c)%N.

Definition literal (s : jsstring) : list atom :=
  map (fun c => Atom (only c) One) s.
Definition literal_ci (s : jsstring) : list atom :=
  map (fun c => Atom (is_ci c) One) s.

(** [String.prototype.toLowerCase] on the ASCII range; code units above
    127 are left as they are (the Unicode case tables are not embedded,
    and nothing below evaluates it outside ASCII). *)
Definition toLowerCase (s : jsstring) : jsstring :=
  map (fun c => if ((65 <=? c) && (c <=? 90))%N then (c + 32)%N else c) s.

End Js.

(** The chat page exists twice in the repository: as the single script
    chat.js and as the scripts of the chatbot directory (chat-modals,
    chat-messages, chat-limits).  Where the two differ in what is
    modelled, a definition takes the script as a parameter. *)
Inductive script := ChatJs | ChatbotScripts.

(* --------------------------------------------------------------------- *)
(** ** The modal stack                                                    *)
(* --------------------------------------------------------------------- *)

Module ModalStack.
Import Js.

Inductive level := LLog | LWarn | LError | LTrace.

(** The console messages of [modalStack], by what they say. *)
Inductive message :=
| MsgOpened (count : Z)
| MsgOverflowHidden
| MsgClosing (countBefore : Z)
| MsgWentNegative
| MsgStackTrace
| MsgTrace
| MsgOverflowRestored
| MsgStillHidden (count : Z)
| MsgForceReset.

Record page := Page {
  count : Z;
  debug : bool;
  html_overflow : jsstring;   (* document.documentElement.style.overflow *)
  body_overflow : jsstring;   (* document.body.style.overflow *)
  console : list (level * message)
}.

Definition hidden : jsstring := lit "hidden".

Definition log (l : level) (m : message) (p : page) : page :=
  Page (count p) (debug p) (html_overflow p) (body_overflow p)
       (console p ++ [(l, m)]).

Definition debug_log (m : message) (p : page) : page :=
  if debug p then log LLog m p else p.

Definition set_count (n : Z) (p : page) : page :=
  Page n (debug p) (html_overflow p) (body_overflow p) (console p).

Definition set_overflow (v : jsstring) (p : page) : page :=
  Page (count p) (debug p) v v (console p).

Definition open (p : page) : page :=
  let p := set_count (count p + 1) p in
  let p := debug_log (MsgOpened (count p)) p in
  if (count p =? 1)%Z then
    debug_log MsgOverflowHidden (set_overflow hidden p)
  else p.

(** chat.js writes a second error line before the trace; chat-modals
    does not. *)
Definition report (v : script) (p : page) : page :=
  match v with
  | ChatJs => log LError MsgStackTrace (log LError MsgWentNegative p)
  | ChatbotScripts => log LError MsgWentNegative p
  end.

Definition close (v : script) (p : page) : page :=
  let p := debug_log (MsgClosing (count p)) p in
  let p := set_count (count p - 1) p in
  let p :=
    if (count p <? 0)%Z then set_count 0 (log LTrace MsgTrace (report v p))
    else p in
  if (count p =? 0)%Z then
    debug_log MsgOverflowRestored (set_overflow [] p)
  else debug_log (MsgStillHidden (count p)) p.

Definition forceReset (p : page) : page :=
  set_overflow [] (set_count 0 (log LWarn MsgForceReset p)).

(** The object literal as the script creates it, on a page whose inline
    overflow style is unset. *)
Definition init : page := Page 0 false [] [] [].

Inductive call := Open | Close.

Definition step (v : script) (p : page) (c : call) : page :=
  match c with Open => open p | Close => close v p end.

Definition run (v : script) (cs : list call) (p : page) : page :=
  fold_left (step v) cs p.

Definition scroll_locked (p : page) : bool :=
  str_eqb (html_overflow p) hidden && str_eqb (body_overflow p) hidden.

(** What the console receives when [close] finds the counter negative. *)
Definition negative_report (v : script) : list (level * message) :=
  match v with
  | ChatJs => [(LError, MsgWentNegative); (LError, MsgStackTrace); (LTrace, MsgTrace)]
  | ChatbotScripts => [(LError, MsgWentNegative); (LTrace, MsgTrace)]
  end.

(** The page state that [open] and [close] maintain from [init]: the
    debug flag stays off, the counter is not negative, and both overflow
    styles are 'hidden' when the counter is positive and unset when it is
    zero. *)
Definition consistent (p : page) : Prop :=
  debug p = false /\ (0 <= count p)%Z /\
  html_overflow p = body_overflow p /\
  html_overflow p = (if (0 <? count p)%Z then hidden else []).

End ModalStack.

(* --------------------------------------------------------------------- *)
(** ** Message limit: updateMessageLimitUI, getResetTimeString, formatTime *)
(* --------------------------------------------------------------------- *)

Module Limit.
Import Js.

Record messageLimitState := LimitState {
  total : Z;
  remaining : Z;
  canSend : bool;
  timeRemaining : Z;
  timerInterval : option nat;
  checkInterval : option nat
}.

Record element := Element {
  textContent : jsstring;
  classList : list jsstring;
  disabled : bool;
  placeholder : jsstring
}.

(** What [document.getElementById] finds for the four ids. *)
Record dom := Dom {
  messagesLeft : option element;
  sendButton : option element;
  messageInput : option element;
  messageCounter : option element
}.

(** A call either returns or throws a TypeError on a null element, with
    the mutations made so far. *)
Inductive completion := Returned (d : dom) | Threw (d : dom).

Definition dom_of (c : completion) : dom :=
  match c with Returned d => d | Threw d => d end.

Definition class_remove (names : list jsstring) (cl : list jsstring) :=
  filter (fun c => negb (existsb (str_eqb c) names)) cl.

Definition class_add (name : jsstring) (cl : list jsstring) :=
  if existsb (str_eqb name) cl then cl else cl ++ [name].

(** [formatTime]: the argument is a count of seconds, a number with an
    integer value.  The remainder [%] is exact on doubles; the quotient
    is rounded before [Math.floor], and [String] prints the shortest
    digits of the result. *)
Definition formatTime (seconds : Z) : jsstring :=
  if (seconds <=? 0)%Z then lit "00:00:00"
  else
    let hours := floor_div seconds 3600 in
    let minutes := floor_div (seconds mod 3600) 60 in
    let secs := (seconds mod 60)%Z in
    padStart 2 (lit "0") (Number_toString hours) ++ lit ":" ++
    padStart 2 (lit "0") (Number_toString minutes) ++ lit ":" ++
    padStart 2 (lit "0") (Number_toString secs).

Section WithClock.

(** [localTime s]: the local (hours, minutes) of the Date that lies [s]
    seconds after now. *)
Variable localTime : Z -> Z * Z.

Definition getResetTimeString (secondsRemaining : Z) : jsstring :=
  if (secondsRemaining <=? 0)%Z then lit "now"
  else
    let '(hours0, minutes) := localTime secondsRemaining in
    let ampm := if (12 <=? hours0)%Z then lit "PM" else lit "AM" in
    let hours := (hours0 mod 12)%Z in
    let hours := if (hours =? 0)%Z then 12%Z else hours in
    let minutesStr :=
      if (minutes <? 10)%Z then lit "0" ++ String_of_Z minutes
      else String_of_Z minutes in
    String_of_Z hours ++ lit ":" ++ minutesStr ++ lit " " ++ ampm.

Definition counter_classes : list jsstring :=
  [lit "counter-zero"; lit "counter-low"; lit "counter-half"].

(** The placeholders differ between the scripts: chat.js ends the first
    with an ellipsis, chat-limits with the three code units an ellipsis
    turns into when its bytes are read as Latin-1. *)
Definition placeholder_ready (v : script) : jsstring :=
  lit "Type what's on your mind" ++
  match v with
  | ChatJs => [8230%N]
  | ChatbotScripts => [226%N; 8364%N; 166%N]
  end.

Definition placeholder_blocked (v : script) (st : messageLimitState) : jsstring :=
  match v with
  | ChatJs =>
      lit "No messages left. You can chat Snowfriend again at " ++
      getResetTimeString (timeRemaining st) ++ lit " to get another " ++
      Number_toString (total st) ++ lit " messages"
  | ChatbotScripts =>
      lit "You can chat Snowfriend again at " ++
      getResetTimeString (timeRemaining st)
  end.

Definition updateCounter (st : messageLimitState) (d : dom) : completion :=
  match messagesLeft d with
  | Some ml =>
      let ml := Element (Number_toString (remaining st)) (classList ml)
                        (disabled ml) (placeholder ml) in
      let d := Dom (Some ml) (sendButton d) (messageInput d) (messageCounter d) in
      match messageCounter d with
      | None => Threw d
      | Some mc =>
          let cl := class_remove counter_classes (classList mc) in
          let cl :=
            if (remaining st =? 0)%Z then class_add (lit "counter-zero") cl
            else if (remaining st <=? 3)%Z then class_add (lit "counter-low") cl
            else if (2 * remaining st <=? total st)%Z
                 then class_add (lit "counter-half") cl
            else cl in
          let mc := Element (textContent mc) cl (disabled mc) (placeholder mc) in
          Returned (Dom (messagesLeft d) (sendButton d) (messageInput d) (Some mc))
      end
  | None => Returned d
  end.

Definition updateMessageLimitUI (v : script) (st : messageLimitState)
    (d : dom) : completion :=
  match updateCounter st d with
  | Threw d => Threw d
  | Returned d =>
      if negb (canSend st) then
        match sendButton d with
        | None => Threw d
        | Some sb =>
            let sb := Element (textContent sb) (classList sb) true (placeholder sb) in
            let d := Dom (messagesLeft d) (Some sb) (messageInput d) (messageCounter d) in
            match messageInput d with
            | None => Threw d
            | Some mi =>
                let mi := Element (textContent mi) (classList mi) true
                                  (placeholder_blocked v st) in
                Returned (Dom (messagesLeft d) (sendButton d) (Some mi) (messageCounter d))
            end
        end
      else
        match messageInput d with
        | None => Threw d
        | Some mi =>
            let mi := Element (textContent mi) (classList mi) false
                              (placeholder_ready v) in
            Returned (Dom (messagesLeft d) (sendButton d) (Some mi) (messageCounter d))
        end
  end.

End WithClock.

Definition is_disabled (e : option element) : bool :=
  match e with Some x => disabled x | None => false end.

End Limit.

(* --------------------------------------------------------------------- *)
(** ** validateEmail                                                      *)
(* --------------------------------------------------------------------- *)

Module Email.
Import Js.

(** The class of the pattern: not white space and not the at sign. *)
Definition local_char (c : char16) : bool :=
  negb (isWhiteSpace c) && negb (c =? 64)%N.

(** The pattern: start, one or more [local_char], an at sign, one or more
    [local_char], a dot, one or more [local_char], end. *)
Definition re : regex :=
  Regex true
    [Atom local_char Plus; Atom (only 64%N) One; Atom local_char Plus;
     Atom (only 46%N) One; Atom local_char Plus]
    true.

Definition validateEmail (email : jsstring) : bool :=
  test re (toLowerCase email).

End Email.

(* --------------------------------------------------------------------- *)
(** ** Text cleaning: cleanMessageText and its helpers (chat.js)           *)
(* --------------------------------------------------------------------- *)

Module Clean.
Import Js.

Definition c_star : char16 := 42%N.
Definition c_lparen : char16 := 40%N.
Definition c_rparen : char16 := 41%N.
Definition c_space : char16 := 32%N.

(** The pattern of [replaceAsterisksInText]: an asterisk, a captured run
    of one or more non-asterisks, an asterisk. *)
Definition asterisk_pattern : list atom :=
  [Atom (only c_star) One; Atom (except c_star) Plus; Atom (only c_star) One].

Definition white_run : list atom := [Atom isWhiteSpace Plus].

Definition wordCount (content : jsstring) : nat :=
  length (split_re white_run (trim content)).

Definition quote_span (ms : list jsstring) : jsstring :=
  match ms with
  | [_; content; _] =>
      if (wordCount content <=? 2)%nat
      then [c_squote] ++ content ++ [c_squote]
      else [c_dquote] ++ content ++ [c_dquote]
  | _ => concat ms
  end.

Definition replaceAsterisksInText (text : jsstring) : jsstring :=
  replace_all asterisk_pattern quote_span text.

Definition not_rparen : atom := Atom (except c_rparen) Star.

(** The disclaimer pattern, with the i flag: asterisk, open parenthesis,
    then the two phrases, each surrounded by runs without a closing
    parenthesis, then the closing parenthesis and an asterisk. *)
Definition disclaimerPattern : list atom :=
  [Atom (only c_star) One; Atom (only c_lparen) One; not_rparen]
  ++ literal_ci (lit "I'm here to listen") ++ [not_rparen]
  ++ literal_ci (lit "professional") ++ [not_rparen]
  ++ [Atom (only c_rparen) One; Atom (only c_star) One].

Definition placeholder : jsstring := lit "<<<DISCLAIMER_PLACEHOLDER>>>".

Definition replaceAsterisksWithQuotes (text : jsstring) : jsstring :=
  match text with
  | [] => text
  | _ =>
      if negb (includes text [c_star]) then text
      else
        match search disclaimerPattern false text with
        | Some (_, ms, _) =>
            let disclaimer := concat ms in
            let textWithoutDisclaimer := replace_str disclaimer placeholder text in
            let processed := replaceAsterisksInText textWithoutDisclaimer in
            replace_str placeholder disclaimer processed
        | None => replaceAsterisksInText text
        end
  end.

Definition bullet_item : regex :=
  Regex true
    [Atom (fun c => (c =? 45)%N || (c =? c_bullet)%N || (c =? c_star)%N) One;
     Atom isWhiteSpace One]
    false.

Definition numbered_item : regex :=
  Regex true [Atom digit Plus; Atom (only 46%N) One; Atom isWhiteSpace One] false.

Definition isListItem (lineStripped : jsstring) : bool :=
  test bullet_item lineStripped || test numbered_item lineStripped.

Definition nonblank (s : jsstring) : bool :=
  match trim s with [] => false | _ => true end.

Definition last_nonblank (ls : list jsstring) : bool :=
  match ls with
  | [] => false
  | _ => nonblank (last ls [])
  end.

(** One iteration of the loop of [fixBulletListSpacing]; the state is
    the index, [fixedLines] and [inList]. *)
Definition bullet_step (st : nat * list jsstring * bool) (line : jsstring)
  : nat * list jsstring * bool :=
  let '(i, fixedLines, inList) := st in
  let lineStripped := trim line in
  let item := isListItem lineStripped in
  let '(fixedLines, inList) :=
    if item && negb inList then
      ((if (0 <? i)%nat && last_nonblank fixedLines
        then fixedLines ++ [[]] else fixedLines), true)
    else (fixedLines, inList) in
  let '(fixedLines, inList) :=
    if negb item && inList && nonblank line then
      ((if last_nonblank fixedLines then fixedLines ++ [[]] else fixedLines),
       false)
    else (fixedLines, inList) in
  (S i, fixedLines ++ [line], inList).

Definition fixBulletListSpacing (text : jsstring) : jsstring :=
  match text with
  | [] => text
  | _ =>
      let lines := split c_newline text in
      let '(_, fixedLines, _) := fold_left bullet_step lines (O, [], false) in
      join [c_newline] fixedLines
  end.

(** One iteration of the line loop of [cleanMessageText]; the state is
    [cleanedLines] and [consecutiveEmpty]. *)
Definition line_step (st : list jsstring * nat) (line : jsstring)
  : list jsstring * nat :=
  let '(cleanedLines, consecutiveEmpty) := st in
  let lineStripped := trim line in
  match lineStripped with
  | _ :: _ =>
      let lineCleaned := replace_all white_run (fun _ => [c_space]) lineStripped in
      (cleanedLines ++ [lineCleaned], O)
  | [] =>
      let consecutiveEmpty := S consecutiveEmpty in
      if (consecutiveEmpty <=? 1)%nat
      then (cleanedLines ++ [[]], consecutiveEmpty)
      else (cleanedLines, consecutiveEmpty)
  end.

Definition cleanLines (text : jsstring) : jsstring :=
  join [c_newline] (fst (fold_left line_step (split c_newline text) ([], O))).

Definition asterisks_leak : list atom :=
  [Atom (only c_cross) One; Atom dot Star] ++ literal (lit "ASTERISKS")
  ++ [Atom dot Star; Atom (only c_cross) One].

Definition cross_line : list atom :=
  [Atom (only c_cross) One; Atom (except c_newline) Star;
   Atom (only c_newline) Opt].

Definition space_before (c : char16) : list atom :=
  [Atom (only c_space) Plus; Atom (only c) One].

Definition is_disclaimer (text : jsstring) : bool :=
  includes text (lit "I'm here to listen") && includes text (lit "professional").

Definition stripParens (text : jsstring) : jsstring :=
  if startsWith text [c_lparen] && endsWith text [c_rparen] then
    if negb (is_disclaimer text) then trim (slice_1_m1 text) else text
  else text.

Definition fixPunctuation (text : jsstring) : jsstring :=
  let text := replace_all (space_before 46%N) (fun _ => [46%N]) text in
  let text := replace_all (space_before 63%N) (fun _ => [63%N]) text in
  let text := replace_all (space_before 33%N) (fun _ => [33%N]) text in
  replace_all (space_before 44%N) (fun _ => [44%N]) text.

Definition cleanMessageText (text : jsstring) : jsstring :=
  match text with
  | [] => []
  | _ =>
      let text := trim (replace_all asterisks_leak (fun _ => []) text) in
      let text := trim (replace_all cross_line (fun _ => []) text) in
      let text := replaceAsterisksWithQuotes text in
      let text := stripParens text in
      let text := cleanLines text in
      let text := fixBulletListSpacing text in
      let text := fixPunctuation text in
      trim text
  end.

End Clean.

(* --------------------------------------------------------------------- *)
(** ** The variant of cleanMessageText in the chat-messages script         *)
(* --------------------------------------------------------------------- *)

Module CleanMessages.
Import Js Clean.

(** The script has its own copies of [replaceAsterisksWithQuotes],
    [replaceAsterisksInText] and [fixBulletListSpacing], the same as those
    of chat.js; its [cleanMessageText] first removes model markup. *)

Definition s_open : list atom := literal (lit "<s>").
Definition s_close : list atom := literal (lit "</s>").

(** The optional group of the pattern, written out: with it, then
    without it. *)
Definition im_end : list (list atom) :=
  [literal (lit "<|im_end_id|>"); literal (lit "<|im_end|>")].

Definition im_start : list atom := literal (lit "<|im_start|>").

Definition session : list (list atom) :=
  [literal (lit "Session end."); literal (lit "Session begin.")].

(** With the i flag: the bracketed remark up to the first closing
    bracket on the line. *)
Definition should_have_said : list atom :=
  literal_ci (lit "[YOU SHOULD") ++ [Atom (is_ci c_squote) Opt]
  ++ literal_ci (lit "VE SAID:") ++ [Atom dot Lazy; Atom (is_ci 93%N) One].

Definition better_response : list atom :=
  literal_ci (lit "[A BETTER RESPONSE WOULD BE:")
  ++ [Atom dot Lazy; Atom (is_ci 93%N) One].

Definition drop (_ : list jsstring) : jsstring := [].

Definition removeMarkup (text : jsstring) : jsstring :=
  let text := replace_all_alt im_end drop text in
  let text := replace_all im_start drop text in
  let text := replace_all_alt session drop text in
  let text := replace_all should_have_said drop text in
  replace_all better_response drop text.

(** The function also warns on the console when the markers of the
    fallback message were lost; the returned text does not depend on
    it. *)
Definition cleanMessageText (text : jsstring) : jsstring :=
  match text with
  | [] => []
  | _ =>
      let text := replace_all s_open drop text in
      let text := replace_all s_close drop text in
      let text := trim (replace_all asterisks_leak drop text) in
      let text := trim (replace_all cross_line drop text) in
      let text := removeMarkup text in
      let text := replaceAsterisksWithQuotes text in
      let text := stripParens text in
      let text := cleanLines text in
      let text := fixBulletListSpacing text in
      let text := fixPunctuation text in
      trim text
  end.

End CleanMessages.

(* --------------------------------------------------------------------- *)
(** ** The streaming reader: tryStreaming (chat.js)                       *)
(* --------------------------------------------------------------------- *)

Module Streaming.
Import Js.

(** The fields [tryStreaming] reads from a parsed line.  A field that is
    absent is [None] / [false]; the empty string is falsy like absence. *)
Record StreamData := Data {
  chunk : option jsstring;
  done : bool;
  error : option jsstring
}.

(** What [JSON.parse] does with the text after the prefix: throws a
    SyntaxError, yields null (reading a field of it throws a TypeError),
    or yields a value whose fields can be read. *)
Inductive parsed := SyntaxError | ParsedNull | Parsed (d : StreamData).

(** The body of the response: the decoded text of each [reader.read()],
    and whether the stream then ends or the read rejects. *)
Record stream := Stream { reads : list jsstring; read_fails : bool }.

Inductive response :=
| FetchRejected
| Response (ok : bool) (body : option stream).

Inductive console_entry := StreamingError.

Record state := State {
  fullResponse : jsstring;
  messageElement : option jsstring;   (* textContent of the content div *)
  typingIndicator : bool;             (* still in the document *)
  isTyping : bool;
  sendButtonUpdates : nat;
  console : list console_entry
}.

Inductive flow := Continue (st : state) | Return (st : state) | Throw (st : state).

Definition truthy (o : option jsstring) : option jsstring :=
  match o with
  | Some (c :: s) => Some (c :: s)
  | _ => None
  end.

Definition data_prefix : jsstring := lit "data: ".

Section WithParser.

Variable JSON_parse : jsstring -> parsed.

Definition on_chunk (d : StreamData) (st : state) : state :=
  match truthy (chunk d) with
  | Some c =>
      let full := fullResponse st ++ c in
      (* createStreamingMessage on the first chunk, then
         updateStreamingMessage(messageElement, fullResponse) *)
      State full (Some full) (typingIndicator st) (isTyping st)
            (sendButtonUpdates st) (console st)
  | None => st
  end.

Definition on_done (st : state) : state :=
  let el :=
    match messageElement st with
    | Some _ => Some (Clean.cleanMessageText (fullResponse st))
    | None => None
    end in
  State (fullResponse st) el (typingIndicator st) false
        (S (sendButtonUpdates st)) (console st).

Definition on_line (st : state) (line : jsstring) : flow :=
  if startsWith line data_prefix then
    match JSON_parse (slice_from 6 line) with
    | SyntaxError => Continue st
    | ParsedNull => Throw st
    | Parsed d =>
        let st := on_chunk d st in
        if done d then Return (on_done st)
        else match truthy (error d) with
             | Some _ => Throw st
             | None => Continue st
             end
    end
  else Continue st.

Fixpoint on_lines (st : state) (lines : list jsstring) : flow :=
  match lines with
  | [] => Continue st
  | line :: rest =>
      match on_line st line with
      | Continue st' => on_lines st' rest
      | f => f
      end
  end.

Fixpoint read_loop (st : state) (rs : list jsstring) (fails : bool) : flow :=
  match rs with
  | [] => if fails then Throw st else Continue st
  | value :: rs' =>
      match on_lines st (split c_newline value) with
      | Continue st' => read_loop st' rs' fails
      | f => f
      end
  end.

Definition finish (st : state) : state :=
  State (fullResponse st) (messageElement st) (typingIndicator st) false
        (S (sendButtonUpdates st)) (console st).

Definition caught (st : state) : state :=
  State (fullResponse st) (messageElement st) (typingIndicator st)
        (isTyping st) (sendButtonUpdates st) (console st ++ [StreamingError]).

(** [tryStreaming]: the returned boolean and the state it leaves.  The
    state on entry has an empty [fullResponse] and no message element;
    both are locals of the call. *)
Definition tryStreaming (r : response) (st : state) : bool * state :=
  let st := State [] None (typingIndicator st) (isTyping st)
                  (sendButtonUpdates st) (console st) in
  match r with
  | FetchRejected => (false, caught st)
  | Response ok body =>
      match ok, body with
      | true, Some b =>
          let st := State [] None false (isTyping st)
                          (sendButtonUpdates st) (console st) in
          match read_loop st (reads b) (read_fails b) with
          | Continue st' => (true, finish st')
          | Return st' => (true, st')
          | Throw st' => (false, caught st')
          end
      | _, _ => (false, st)
      end
  end.

End WithParser.

(** The state in which [sendMessage] calls [tryStreaming]. *)
Definition entry : state := State [] None true true 1 [].

End Streaming.

(* --------------------------------------------------------------------- *)
(** ** The streaming reader of the chat-messages script                    *)
(* --------------------------------------------------------------------- *)

Module StreamingMessages.
Import Js Streaming.

(** What the content div holds: text, or markup set through innerHTML. *)
Inductive content := Text (s : jsstring) | Html (s : jsstring).

Record state := State {
  fullResponse : jsstring;
  isFallbackMessage : bool;
  messageElement : option content;
  typingIndicator : bool;
  isTyping : bool;
  sendButtonUpdates : nat;
  console : list console_entry
}.

Inductive flow := Continue (st : state) | Return (st : state) | Throw (st : state).

(** A response whose content type is JSON carries a whole reply (media
    results or a message to type out) and is not read as a stream. *)
Inductive response :=
| FetchRejected
| Response (ok : bool) (json : bool) (body : option stream).

Definition email_marker : list atom :=
  literal (lit "[[EMAIL:") ++ [Atom (except 93%N) Plus] ++ literal (lit "]]").

Definition feedback_marker : list atom :=
  literal (lit "[[FEEDBACK:") ++ [Atom (except 93%N) Plus] ++ literal (lit "]]").

(** The captured group of the two patterns: what stands between the
    colon and the closing brackets. *)
Definition email_label (ms : list jsstring) : jsstring := nth 8 ms [].
Definition feedback_label (ms : list jsstring) : jsstring := nth 11 ms [].

Definition convertMarkersToPlainText (text : jsstring) : jsstring :=
  replace_all feedback_marker feedback_label
    (replace_all email_marker email_label text).

Definition has_marker (text : jsstring) : bool :=
  includes text (lit "[[EMAIL:") || includes text (lit "[[FEEDBACK:").

Definition has_link_marker (text : jsstring) : bool :=
  includes text (lit "[[EMAIL]]") || includes text (lit "[[FEEDBACK]]").

Section WithPage.

Variable JSON_parse : jsstring -> parsed.

(** The opening tags of the two links, fixed strings of the source. *)
Variable emailAnchor feedbackAnchor : jsstring.

(** What the script does with a JSON reply. *)
Variable jsonReply : state -> bool * state.

Definition convertMarkersToLinks (text : jsstring) : jsstring :=
  replace_all feedback_marker
    (fun ms => feedbackAnchor ++ feedback_label ms ++ lit "</a>")
    (replace_all email_marker
       (fun ms => emailAnchor ++ email_label ms ++ lit "</a>") text).

Definition set_element (c : content) (st : state) : state :=
  State (fullResponse st) (isFallbackMessage st) (Some c) (typingIndicator st)
        (isTyping st) (sendButtonUpdates st) (console st).

Definition updateStreamingMessage (text : jsstring) (st : state) : state :=
  let cleanedContent := CleanMessages.cleanMessageText text in
  if has_marker text
  then set_element (Html (convertMarkersToLinks cleanedContent)) st
  else set_element (Text cleanedContent) st.

(** The element once the promise of [animateTextCharacterByCharacter]
    has resolved: the text typed out to its end, then the links. *)
Definition animateTextCharacterByCharacter (text : jsstring) (st : state)
  : state :=
  let hasMarkers := has_marker text in
  let displayText := if hasMarkers then convertMarkersToPlainText text else text in
  let st := match displayText with
            | [] => st
            | _ => set_element (Text displayText) st
            end in
  if hasMarkers then set_element (Html (convertMarkersToLinks text)) st else st.

Definition on_chunk (d : StreamData) (st : state) : state :=
  match truthy (chunk d) with
  | Some c =>
      let full := fullResponse st ++ c in
      let fallback := isFallbackMessage st || has_marker full in
      let st := State full fallback (messageElement st) (typingIndicator st)
                      (isTyping st) (sendButtonUpdates st) (console st) in
      if fallback then st else updateStreamingMessage full st
  | None => st
  end.

Definition on_done (st : state) : state :=
  let st :=
    match messageElement st with
    | Some _ =>
        let cleanedResponse := CleanMessages.cleanMessageText (fullResponse st) in
        if isFallbackMessage st
        then animateTextCharacterByCharacter cleanedResponse st
        else if has_link_marker cleanedResponse
        then set_element (Html (convertMarkersToLinks cleanedResponse)) st
        else set_element (Text cleanedResponse) st
    | None => st
    end in
  State (fullResponse st) (isFallbackMessage st) (messageElement st)
        (typingIndicator st) false (S (sendButtonUpdates st)) (console st).

Definition on_line (st : state) (line : jsstring) : flow :=
  if startsWith line data_prefix then
    match JSON_parse (slice_from 6 line) with
    | SyntaxError => Continue st
    | ParsedNull => Throw st
    | Parsed d =>
        let st := on_chunk d st in
        if done d then Return (on_done st)
        else match truthy (error d) with
             | Some _ => Throw st
             | None => Continue st
             end
    end
  else Continue st.

Fixpoint on_lines (st : state) (lines : list jsstring) : flow :=
  match lines with
  | [] => Continue st
  | line :: rest =>
      match on_line st line with
      | Continue st' => on_lines st' rest
      | f => f
      end
  end.

Fixpoint read_loop (st : state) (rs : list jsstring) (fails : bool) : flow :=
  match rs with
  | [] => if fails then Throw st else Continue st
  | value :: rs' =>
      match on_lines st (split c_newline value) with
      | Continue st' => read_loop st' rs' fails
      | f => f
      end
  end.

Definition finish (st : state) : state :=
  State (fullResponse st) (isFallbackMessage st) (messageElement st)
        (typingIndicator st) false (S (sendButtonUpdates st)) (console st).

Definition caught (st : state) : state :=
  State (fullResponse st) (isFallbackMessage st) (messageElement st)
        (typingIndicator st) (isTyping st) (sendButtonUpdates st)
        (console st ++ [StreamingError]).

(** [tryStreaming] of the chat-messages script.  The message element is
    created, empty, before the first read. *)
Definition tryStreaming (r : response) (st : state) : bool * state :=
  let st := State [] false None (typingIndicator st) (isTyping st)
                  (sendButtonUpdates st) (console st) in
  match r with
  | FetchRejected => (false, caught st)
  | Response false _ _ => (false, st)
  | Response true true _ => jsonReply st
  | Response true false None => (false, st)
  | Response true false (Some b) =>
      let st := State [] false (Some (Text [])) false (isTyping st)
                      (sendButtonUpdates st) (console st) in
      match read_loop st (reads b) (read_fails b) with
      | Continue st' => (true, finish st')
      | Return st' => (true, st')
      | Throw st' => (false, caught st')
      end
  end.

End WithPage.

Definition entry : state := State [] false None true true 1 [].

(** The state after the chunks [cs], while no marker has been seen. *)
Definition advance (st : state) (cs : list jsstring) : state :=
  State (fullResponse st ++ concat cs) false
        (Some (Text (CleanMessages.cleanMessageText (fullResponse st ++ concat cs))))
        false true 1 [].

Definition reading (st : state) : Prop :=
  isFallbackMessage st = false
  /\ messageElement st
     = Some (Text (CleanMessages.cleanMessageText (fullResponse st)))
  /\ typingIndicator st = false /\ isTyping st = true
  /\ sendButtonUpdates st = 1%nat /\ console st = [].

End StreamingMessages.

(* --------------------------------------------------------------------- *)
(** ** getCookie and getCSRFToken                                          *)
(* --------------------------------------------------------------------- *)

Module Cookie.
Import Js.

(** What a call returns: a string, null ([Value None]), or the URIError
    that [decodeURIComponent] throws on a malformed escape. *)
Inductive result := Value (v : option jsstring) | URIError.

(** The call returned rather than threw. *)
Definition returned (r : result) : bool :=
  match r with Value _ => true | URIError => false end.

Section WithDecoder.

(** [decodeURIComponent]; [None] when it throws. *)
Variable decodeURIComponent : jsstring -> option jsstring.

(** The loop over [cookies], from index [i] on; it breaks at the first
    cookie that starts with the name and an equals sign. *)
Fixpoint scan (name : jsstring) (cookies : list jsstring) : result :=
  match cookies with
  | [] => Value None
  | c :: rest =>
      let cookie := trim c in
      if str_eqb (firstn (length name + 1) cookie) (name ++ lit "=")
      then match decodeURIComponent (skipn (length name + 1) cookie) with
           | Some v => Value (Some v)
           | None => URIError
           end
      else scan name rest
  end.

Definition getCookie (document_cookie name : jsstring) : result :=
  match document_cookie with
  | [] => Value None
  | _ => scan name (split 59%N document_cookie)
  end.

(** [field]: the value of the element named csrfmiddlewaretoken, when
    the page has one; an empty value is falsy and the cookie is read. *)
Definition getCSRFToken (field : option jsstring) (document_cookie : jsstring)
  : result :=
  match field with
  | Some (c :: v) => Value (Some (c :: v))
  | _ => getCookie document_cookie (lit "csrftoken")
  end.

End WithDecoder.

End Cookie.

(* --------------------------------------------------------------------- *)
(** ** The fetch-based operations and what they show the user             *)
(* --------------------------------------------------------------------- *)

Module Ops.
Import Js.

Inductive endpoint :=
| EpLimit             (* GET  /chat/api/limit/ *)
| EpPasswordReset     (* POST /accounts/password-reset/ *)
| EpExport            (* POST /chat/api/export/ *)
| EpSendStreaming     (* POST /chat/api/send/streaming/ *)
| EpSend.             (* POST /chat/api/send/ *)

Inductive sender := User | Bot.

(** What an operation does that can be observed, in order. *)
Inductive effect :=
| Request (e : endpoint)
| Toast (message kind : jsstring)            (* showNotification *)
| FieldError (message : jsstring)            (* showError on the form field *)
| ChatMessage (text : jsstring) (s : sender) (* appendMessage[WithTyping] *)
| StreamedMessage (text : jsstring)          (* the streaming message element *)
| ConsoleError (label : jsstring)
| ConsoleWarn (label : jsstring)
| ConsoleLog (label : jsstring)
| LimitStateSet (total remaining : Z) (canSend : bool) (timeRemaining : Z)
| LimitUIUpdated
| CountdownStarted
| CountdownStopped
| ModalClosed
| Downloaded.

(** [await response.json()] (or [blob()]) rejects or resolves. *)
Inductive payload (A : Type) := Unreadable | Read (a : A).
Arguments Unreadable {A}.
Arguments Read {A} a.

(** [await fetch(...)] rejects, or resolves to a response with its
    [ok] flag and its body. *)
Inductive outcome (A : Type) := Rejected | Answered (ok : bool) (body : payload A).
Arguments Rejected {A}.
Arguments Answered {A} ok body.


Definition or_default (o : option jsstring) (d : jsstring) : jsstring :=
  match o with
  | Some (c :: s) => c :: s
  | _ => d
  end.

(** *** fetchMessageLimit *)

Record limit_data := LimitData {
  l_success : bool;
  total_messages : Z;
  messages_remaining : Z;
  can_send : bool;
  time_remaining_seconds : Z;
  notifications : list (jsstring * jsstring)   (* message, type *)
}.

Definition getNotificationType (type : jsstring) : jsstring :=
  if str_eqb type (lit "half") then lit "info"
  else if str_eqb type (lit "three") then lit "error"
  else if str_eqb type (lit "zero") then lit "error"
  else lit "info".

(** [csrftoken] is what reading the CSRF token gives, from the hidden
    form field or else from the cookie ([Cookie.getCSRFToken]).  The
    read is the first thing inside the try block: when it throws, no
    request is sent and the catch block runs. *)
Definition fetchMessageLimit (csrftoken : Cookie.result)
    (o : outcome limit_data) : list effect :=
  match csrftoken with
  | Cookie.URIError => [ConsoleError (lit "Error fetching message limit:")]
  | Cookie.Value _ =>
      Request EpLimit ::
      match o with
      | Rejected => [ConsoleError (lit "Error fetching message limit:")]
      | Answered false _ => [ConsoleError (lit "Error fetching message limit:")]
      | Answered true Unreadable => [ConsoleError (lit "Error fetching message limit:")]
      | Answered true (Read data) =>
          if l_success data then
            [LimitStateSet (total_messages data) (messages_remaining data)
                           (can_send data) (time_remaining_seconds data);
             LimitUIUpdated]
            ++ map (fun n => Toast (fst n) (getNotificationType (snd n)))
                   (notifications data)
            ++ [if negb (can_send data) && (0 <? time_remaining_seconds data)%Z
                then CountdownStarted else CountdownStopped]
          else []
      end
  end.

(** *** The submit handler of the password reset form *)

Record reset_data := ResetData {
  r_success : bool;
  r_message : option jsstring
}.

Definition passwordResetSubmit (input : jsstring) (csrfField : bool)
    (o : outcome reset_data) : list effect :=
  let email := trim input in
  match email with
  | [] => [FieldError (lit "Please enter your email address")]
  | _ =>
      if negb (Email.validateEmail email)
      then [FieldError (lit "Please enter a valid email address")]
      else
        let failed :=
          [ConsoleError (lit "Password reset error:");
           FieldError (lit "Unable to send reset link. Please try again later.")] in
        if negb csrfField then failed
        else
          Request EpPasswordReset ::
          match o with
          | Rejected => failed
          | Answered _ Unreadable => failed
          | Answered _ (Read data) =>
              if r_success data then
                [ModalClosed;
                 Toast (lit "Password reset link has been sent to your email. Please check your inbox.")
                       (lit "success")]
              else
                [FieldError (or_default (r_message data)
                               (lit "An error occurred. Please try again."))]
          end
  end.

(** *** exportConversation *)

(** The CSRF token is read inside the try block, before the request.
    On an ok response the body is read as a blob; otherwise as JSON, whose
    [error] field is all that is read. *)
Definition exportConversation (messages : nat) (csrftoken : Cookie.result)
    (o : outcome (option jsstring)) : list effect :=
  match messages with
  | O => [Toast (lit "No messages to export") (lit "error")]
  | _ =>
      match csrftoken with
      | Cookie.URIError =>
          [ConsoleError (lit "Error exporting:");
           Toast (lit "Network error while exporting") (lit "error")]
      | Cookie.Value _ =>
          Request EpExport ::
          match o with
          | Rejected =>
              [ConsoleError (lit "Error exporting:");
               Toast (lit "Network error while exporting") (lit "error")]
          | Answered true Unreadable =>
              [ConsoleError (lit "Error exporting:");
               Toast (lit "Network error while exporting") (lit "error")]
          | Answered true (Read _) =>
              [Downloaded;
               Toast (lit "Conversation exported successfully!") (lit "success");
               ModalClosed]
          | Answered false body =>
              let error := match body with Read e => e | Unreadable => None end in
              [Toast (or_default error (lit "Error exporting conversation")) (lit "error");
               ConsoleError (lit "Export failed:")]
          end
      end
  end.

(** *** sendMessage, with tryStreaming and regularRequest *)

Record send_data := SendData {
  s_success : bool;
  s_notification : option (jsstring * jsstring);
  s_response : jsstring
}.

Record chat := Chat {
  isTyping : bool;
  isInitialTyping : bool;
  canSend : bool
}.

(** [appendMessage] and [appendMessageWithTyping] clean the text first
    and append nothing when nothing is left. *)
Definition appendMessage (text : jsstring) (s : sender) : list effect :=
  match Clean.cleanMessageText text with
  | [] => [ConsoleWarn (lit "Empty message after cleaning, skipping append")]
  | t => [ChatMessage t s]
  end.

Definition trouble_connecting : jsstring :=
  lit "Sorry, I'm having trouble connecting. Please try again.".

Section WithParser.

Variable JSON_parse : jsstring -> Streaming.parsed.

(** What [regularRequest] does, and whether it throws. *)
Definition regularRequest (o : outcome send_data) : list effect * bool :=
  match o with
  | Rejected => ([Request EpSend], true)
  | Answered _ Unreadable => ([Request EpSend], true)
  | Answered _ (Read data) =>
      (Request EpSend ::
       if s_success data then
         match s_notification data with
         | Some (m, k) => [Toast m k]
         | None => []
         end ++ appendMessage (s_response data) Bot
       else appendMessage (lit "Sorry, I encountered an error. Please try again.") Bot,
       false)
  end.

Definition streamed (st : Streaming.state) : list effect :=
  match Streaming.messageElement st with
  | Some t => [StreamedMessage t]
  | None => []
  end.

(** [csrftoken] is the read of the CSRF token at the start of the try
    block; [limitToken] is the read that [fetchMessageLimit] makes when
    it is called at the end. *)
Definition sendMessage (input : jsstring) (c : chat) (blockedNotice : jsstring)
    (csrftoken : Cookie.result)
    (rs : Streaming.response) (rr : outcome send_data)
    (limitToken : Cookie.result) (rl : outcome limit_data) : list effect :=
  let text := trim input in
  match text with
  | [] => []
  | _ =>
      if isTyping c || isInitialTyping c then []
      else if negb (canSend c) then [Toast blockedNotice (lit "error")]
      else
        appendMessage text User ++
        match csrftoken with
        | Cookie.URIError =>
            ConsoleError (lit "Error sending message:")
            :: appendMessage trouble_connecting Bot
        | Cookie.Value _ =>
            let '(streamingSupported, st) :=
              Streaming.tryStreaming JSON_parse rs Streaming.entry in
            [Request EpSendStreaming]
            ++ streamed st
            ++ map (fun _ => ConsoleError (lit "Streaming error:"))
                   (Streaming.console st)
            ++
            if streamingSupported then fetchMessageLimit limitToken rl
            else
              let '(effects, threw) := regularRequest rr in
              ConsoleLog (lit "Streaming not supported, using regular request")
              :: effects ++
              if threw then
                ConsoleError (lit "Error sending message:")
                :: appendMessage trouble_connecting Bot
              else fetchMessageLimit limitToken rl
        end
  end.

End WithParser.

Definition requests_to (ep : endpoint) (es : list effect) : nat :=
  length (filter (fun e => match e, ep with
                           | Request EpLimit, EpLimit
                           | Request EpPasswordReset, EpPasswordReset
                           | Request EpExport, EpExport
                           | Request EpSendStreaming, EpSendStreaming
                           | Request EpSend, EpSend => true
                           | _, _ => false
                           end) es).

(** A toast notification or an inline field error. *)
Definition shown_to_user (e : effect) : bool :=
  match e with
  | Toast _ _ | FieldError _ => true
  | _ => false
  end.

End Ops.

(* --------------------------------------------------------------------- *)
(** ** The deletion-confirmation modal and its guard (chat.js)            *)
(* --------------------------------------------------------------------- *)

Module Confirm.
Import Js.

(** Whether a modal's classList contains 'show' and 'closing'. *)
Record classes := Classes { show : bool; closing : bool }.

Inductive modal := Fullscreen | Confirmation | Export | Clear.

Inductive button_text := YesDeleteEverything | UndoCount (n : Z) | DeletingText.

(** The callbacks handed to setTimeout. *)
Inductive task :=
| FinishClose (m : modal)        (* remove 'show' and 'closing' *)
| CloseClearModal
| SetupExpandTooltip
| ClearConversationAndMemory.

Record ui := UI {
  stack : ModalStack.page;
  fullscreenPreview : classes;
  confirmationModal : classes;
  exportModal : classes;
  clearModal : classes;
  isCountdownActive : bool;
  countdownTimer : bool;            (* an interval is running *)
  countdown : Z;                    (* the local of startDeletionCountdown *)
  cancelCountdownHandler : bool;    (* non-null and listening on the button *)
  mainHandlerAttached : bool;       (* mainClickHandler listening on the button *)
  buttonText : button_text;
  buttonCountdownClass : bool;
  buttonDisabled : bool;
  cancelHidden : bool;              (* cancelConfirmation.style.display = 'none' *)
  timeouts : list (nat * task);     (* delay in ms, callback *)
  toasts : list jsstring
}.

(** What a handler did to its event. *)
Record event := Event { defaultPrevented : bool; propagationStopped : bool }.

Definition untouched : event := Event false false.
Definition swallowed : event := Event true true.

Definition with_stack (f : ModalStack.page -> ModalStack.page) (u : ui) : ui :=
  UI (f (stack u)) (fullscreenPreview u) (confirmationModal u) (exportModal u)
     (clearModal u) (isCountdownActive u) (countdownTimer u) (countdown u)
     (cancelCountdownHandler u) (mainHandlerAttached u) (buttonText u)
     (buttonCountdownClass u) (buttonDisabled u) (cancelHidden u)
     (timeouts u) (toasts u).

Definition get_classes (m : modal) (u : ui) : classes :=
  match m with
  | Fullscreen => fullscreenPreview u
  | Confirmation => confirmationModal u
  | Export => exportModal u
  | Clear => clearModal u
  end.

Definition set_classes (m : modal) (c : classes) (u : ui) : ui :=
  UI (stack u)
     (match m with Fullscreen => c | _ => fullscreenPreview u end)
     (match m with Confirmation => c | _ => confirmationModal u end)
     (match m with Export => c | _ => exportModal u end)
     (match m with Clear => c | _ => clearModal u end)
     (isCountdownActive u) (countdownTimer u) (countdown u)
     (cancelCountdownHandler u) (mainHandlerAttached u) (buttonText u)
     (buttonCountdownClass u) (buttonDisabled u) (cancelHidden u)
     (timeouts u) (toasts u).

Definition setTimeout (t : task) (delay : nat) (u : ui) : ui :=
  UI (stack u) (fullscreenPreview u) (confirmationModal u) (exportModal u)
     (clearModal u) (isCountdownActive u) (countdownTimer u) (countdown u)
     (cancelCountdownHandler u) (mainHandlerAttached u) (buttonText u)
     (buttonCountdownClass u) (buttonDisabled u) (cancelHidden u)
     (timeouts u ++ [(delay, t)]) (toasts u).

Definition showNotification (m : jsstring) (u : ui) : ui :=
  UI (stack u) (fullscreenPreview u) (confirmationModal u) (exportModal u)
     (clearModal u) (isCountdownActive u) (countdownTimer u) (countdown u)
     (cancelCountdownHandler u) (mainHandlerAttached u) (buttonText u)
     (buttonCountdownClass u) (buttonDisabled u) (cancelHidden u)
     (timeouts u) (toasts u ++ [m]).

(** The confirmation button and the countdown variables, all at once. *)
Definition set_button (active timer : bool) (n : Z) (cancelH mainH : bool)
    (text : button_text) (cls dis hid : bool) (u : ui) : ui :=
  UI (stack u) (fullscreenPreview u) (confirmationModal u) (exportModal u)
     (clearModal u) active timer n cancelH mainH text cls dis hid
     (timeouts u) (toasts u).

Definition add_class_show (c : classes) : classes := Classes true (closing c).
Definition add_class_closing (c : classes) : classes := Classes (show c) true.

Definition openModal (m : modal) (u : ui) : ui :=
  let u := with_stack ModalStack.open u in
  set_classes m (add_class_show (get_classes m u)) u.

(** [closeModal] and [closeFullscreenPreview] differ in the delay only. *)
Definition closeModal (m : modal) (u : ui) : ui :=
  let u := set_classes m (add_class_closing (get_classes m u)) u in
  let u := with_stack (ModalStack.close ChatJs) u in
  setTimeout (FinishClose m) (match m with Fullscreen => 400 | _ => 300 end) u.

Definition openFullscreenPreview (u : ui) : ui := openModal Fullscreen u.
Definition closeFullscreenPreview (u : ui) : ui := closeModal Fullscreen u.
Definition closeExportModal (u : ui) : ui := closeModal Export u.
Definition closeClearModal (u : ui) : ui := closeModal Clear u.

Definition resetConfirmationButton (u : ui) : ui :=
  set_button (isCountdownActive u) false (countdown u) false true
             YesDeleteEverything false false false u.

Definition closeConfirmationModal (u : ui) : ui :=
  let u := set_button (isCountdownActive u) false (countdown u) false
                      (mainHandlerAttached u) (buttonText u)
                      (buttonCountdownClass u) (buttonDisabled u)
                      (cancelHidden u) u in
  let u := set_classes Confirmation
             (add_class_closing (confirmationModal u)) u in
  let u := with_stack (ModalStack.close ChatJs) u in
  setTimeout (FinishClose Confirmation) 300 u.

Definition startDeletionCountdown (u : ui) : ui :=
  set_button true true 5 true false (UndoCount 5) true false true u.

(** The handler that [startDeletionCountdown] installs on the button. *)
Definition cancelCountdown (u : ui) : ui :=
  showNotification (lit "Deletion cancelled")
    (set_button false false (countdown u) false true
                YesDeleteEverything false false false u).

(** One firing of the interval of [startDeletionCountdown]. *)
Definition countdownTick (u : ui) : ui :=
  let n := (countdown u - 1)%Z in
  if (0 <? n)%Z then
    set_button (isCountdownActive u) (countdownTimer u) n
               (cancelCountdownHandler u) (mainHandlerAttached u)
               (UndoCount n) (buttonCountdownClass u) (buttonDisabled u)
               (cancelHidden u) u
  else
    let u := set_button false false n false (mainHandlerAttached u)
                        DeletingText (buttonCountdownClass u) true
                        (cancelHidden u) u in
    setTimeout ClearConversationAndMemory 300 (closeConfirmationModal u).

(** The callbacks of setTimeout that touch this state. *)
Definition run_task (t : task) (u : ui) : ui :=
  match t with
  | FinishClose Confirmation =>
      resetConfirmationButton (set_classes Confirmation (Classes false false) u)
  | FinishClose m => set_classes m (Classes false false) u
  | CloseClearModal => closeClearModal u
  | SetupExpandTooltip => u
  | ClearConversationAndMemory => u
  end.

(** *** The three guarded handlers *)

Definition cancelConfirmation_click (u : ui) : ui * event :=
  if isCountdownActive u then (u, swallowed)
  else (closeConfirmationModal (resetConfirmationButton u), untouched).

(** [onOverlay]: the click's target is the modal element itself. *)
Definition confirmationModal_click (onOverlay : bool) (u : ui) : ui * event :=
  if onOverlay then
    if isCountdownActive u then (u, swallowed)
    else (closeConfirmationModal u, untouched)
  else (u, untouched).

Definition open_not_closing (c : classes) : bool := show c && negb (closing c).

Definition keydown (key : jsstring) (u : ui) : ui * event :=
  if str_eqb key (lit "Escape") then
    if open_not_closing (fullscreenPreview u) then
      (closeFullscreenPreview u, swallowed)
    else if open_not_closing (confirmationModal u) then
      if isCountdownActive u then (u, swallowed)
      else (closeConfirmationModal (resetConfirmationButton u), swallowed)
    else if open_not_closing (exportModal u) then
      (closeExportModal u, swallowed)
    else if open_not_closing (clearModal u) then
      (closeClearModal u, swallowed)
    else (u, untouched)
  else (u, untouched).

(** *** The other click handlers that open modals and start the countdown *)

Definition exportButton_click (u : ui) : ui :=
  setTimeout SetupExpandTooltip 100 (openModal Export u).

Definition expandPreviewButton_click (u : ui) : ui := openFullscreenPreview u.

Definition clearButton_click (u : ui) : ui := openModal Clear u.

Definition confirmClearAll_click (u : ui) : ui :=
  setTimeout CloseClearModal 50
    (openModal Confirmation (resetConfirmationButton u)).

(** A click on the confirmation button runs the listener that is attached:
    [mainClickHandler] starts the countdown, the cancel handler undoes it. *)
Definition confirmDeletion_click (u : ui) : ui :=
  if mainHandlerAttached u then startDeletionCountdown u
  else if cancelCountdownHandler u then cancelCountdown u
  else u.

Definition init : ui :=
  UI ModalStack.init (Classes false false) (Classes false false)
     (Classes false false) (Classes false false)
     false false 0 false true YesDeleteEverything false false false [] [].

(** User and timer events, for reachability. *)
Inductive input :=
| ClickExport | ClickExpand | ClickClear | ClickClearAll | ClickConfirmDeletion
| ClickCancel | ClickConfirmationModal (onOverlay : bool)
| Key (key : jsstring) | Tick.

Definition handle (u : ui) (i : input) : ui :=
  match i with
  | ClickExport => exportButton_click u
  | ClickExpand => expandPreviewButton_click u
  | ClickClear => clearButton_click u
  | ClickClearAll => confirmClearAll_click u
  | ClickConfirmDeletion => confirmDeletion_click u
  | ClickCancel => fst (cancelConfirmation_click u)
  | ClickConfirmationModal b => fst (confirmationModal_click b u)
  | Key k => fst (keydown k u)
  | Tick => if countdownTimer u then countdownTick u else u
  end.

Definition after (inputs : list input) : ui := fold_left handle inputs init.

End Confirm.

(* --------------------------------------------------------------------- *)
(** ** Reference notions and concrete scenarios used by the properties     *)
(* --------------------------------------------------------------------- *)

Module Reference.
Import Js.

(** Reading a decimal numeral back: [None] unless every code unit is a
    digit. *)
Fixpoint unlit (s : jsstring) : string :=
  match s with
  | [] => EmptyString
  | c :: s' => String (ascii_of_N c) (unlit s')
  end.

Definition parseDec (s : jsstring) : option N :=
  if forallb digit s then
    option_map N.of_uint (DecimalString.NilEmpty.uint_of_string (unlit s))
  else None.

(** A number rendered with at least two digits: a leading zero below
    ten, the plain decimal numeral from ten on. *)
Definition two_digits (n : Z) : jsstring :=
  if (n <? 10)%Z then [48%N; (48 + Z.to_N n)%N] else String_of_Z n.

End Reference.

Module Scenario.
Import Js.

(** A clock on which every reset falls at 6:00. *)
Definition clock_6am (_ : Z) : Z * Z := (6%Z, 0%Z).

Definition plain : Limit.element := Limit.Element [] [] false [].

(** The chat page with its four elements, none disabled. *)
Definition chat_page : Limit.dom :=
  Limit.Dom (Some plain) (Some plain) (Some plain) (Some plain).

(** No message left, yet the server says sending is allowed. *)
Definition none_left_can_send : Limit.messageLimitState :=
  Limit.LimitState 15 0 true 0 None None.

(** No message left and sending blocked for an hour. *)
Definition none_left_blocked : Limit.messageLimitState :=
  Limit.LimitState 15 0 false 3600 None None.





End Scenario.

Module OpsScenario.
Import Js.









End OpsScenario.

Module StreamingReference.
Import Js Streaming.

(** How the exchange ends: a line with a truthy [done], a line that makes
    the reader throw (null, or a truthy [error]), or the end of input. *)
Inductive ending := SawDone | SawFailure | Exhausted.

Definition chunk_of (d : StreamData) : list jsstring :=
  match truthy (chunk d) with
  | Some c => [c]
  | None => []
  end.

Section WithParser.

Variable JSON_parse : jsstring -> parsed.

(** The chunk fields received, in arrival order, up to and including
    the line that ends the exchange, and how it ends. *)
Fixpoint collect (lines : list jsstring) : list jsstring * ending :=
  match lines with
  | [] => ([], Exhausted)
  | line :: rest =>
      if startsWith line data_prefix then
        match JSON_parse (slice_from 6 line) with
        | SyntaxError => collect rest
        | ParsedNull => ([], SawFailure)
        | Parsed d =>
            if done d then (chunk_of d, SawDone)
            else match truthy (error d) with
                 | Some _ => (chunk_of d, SawFailure)
                 | None =>
                     let '(cs, e) := collect rest in (chunk_of d ++ cs, e)
                 end
        end
      else collect rest
  end.

End WithParser.

(** The lines of the text received, whatever way the reads cut it. *)
Definition wire_lines (reads : list jsstring) : list jsstring :=
  split c_newline (concat reads).

(** No line is cut by a read boundary: every read but the last is
    empty or ends with a line feed. *)
Definition ends_line (r : jsstring) : bool :=
  match r with
  | [] => true
  | _ => (last r 0 =? c_newline)%N
  end.

Fixpoint aligned (reads : list jsstring) : bool :=
  match reads with
  | [] => true
  | r :: rest =>
      match rest with
      | [] => true
      | _ => ends_line r && aligned rest
      end
  end.

(** The lines the reader goes through: it splits each read on its own
    and carries nothing over to the next read. *)
Definition lines_of (reads : list jsstring) : list jsstring :=
  flat_map (split c_newline) reads.

(** The text of the message element once [full] has been received:
    there is no element before the first chunk. *)
Definition shown (full : jsstring) : option jsstring :=
  match full with
  | [] => None
  | _ => Some full
  end.

Definition cleaned (full : jsstring) : option jsstring :=
  match full with
  | [] => None
  | _ => Some (Clean.cleanMessageText full)
  end.

(** The result of [tryStreaming] on an ok response with a body, from
    what [collect] finds in its lines. *)
Definition expected (chunks : list jsstring) (e : ending) (fails : bool)
  : bool * state :=
  let full := concat chunks in
  match e with
  | SawDone => (true, State full (cleaned full) false false 2 [])
  | SawFailure => (false, State full (shown full) false true 1 [StreamingError])
  | Exhausted =>
      if fails then (false, State full (shown full) false true 1 [StreamingError])
      else (true, State full (shown full) false false 2 [])
  end.

(** While the reader runs, the element shows exactly what has been
    accumulated, the typing indicator is gone and nothing is logged. *)
Definition reading (st : state) : Prop :=
  messageElement st = shown (fullResponse st)
  /\ typingIndicator st = false /\ isTyping st = true
  /\ sendButtonUpdates st = 1%nat /\ console st = [].

(** The state after the chunks [cs] have been taken in. *)
Definition advance (st : state) (cs : list jsstring) : state :=
  State (fullResponse st ++ concat cs) (shown (fullResponse st ++ concat cs))
        false true 1 [].

(** How the line loop leaves, from what [collect] finds. *)
Definition flow_of (st : state) (cs : list jsstring) (e : ending) : flow :=
  match e with
  | SawDone => Return (on_done (advance st cs))
  | SawFailure => Throw (advance st cs)
  | Exhausted => Continue (advance st cs)
  end.

(** The same for the reader of the chat-messages script. *)
Definition messages_flow (emailAnchor feedbackAnchor : jsstring)
    (st : StreamingMessages.state) (cs : list jsstring) (e : ending)
  : StreamingMessages.flow :=
  match e with
  | SawDone =>
      StreamingMessages.Return
        (StreamingMessages.on_done emailAnchor feedbackAnchor
           (StreamingMessages.advance st cs))
  | SawFailure => StreamingMessages.Throw (StreamingMessages.advance st cs)
  | Exhausted => StreamingMessages.Continue (StreamingMessages.advance st cs)
  end.

(** Two payloads and a parser that reads them as [JSON.parse] does: an
    object with the chunk "a  b" (two spaces), and an object with done
    set. *)
Definition payload_chunk : jsstring :=
  lit "{" ++ [c_dquote] ++ lit "chunk" ++ [c_dquote] ++ lit ": "
  ++ [c_dquote] ++ lit "a  b" ++ [c_dquote] ++ lit "}".

Definition payload_done : jsstring :=
  lit "{" ++ [c_dquote] ++ lit "done" ++ [c_dquote] ++ lit ": true}".

Definition parse_two (payload : jsstring) : parsed :=
  if str_eqb payload payload_chunk
  then Parsed (Data (Some (lit "a  b")) false None)
  else if str_eqb payload payload_done
  then Parsed (Data None true None)
  else SyntaxError.

(** One read carrying both lines. *)
Definition two_lines : stream :=
  Stream [data_prefix ++ payload_chunk ++ [c_newline]
          ++ data_prefix ++ payload_done ++ [c_newline]] false.


(** The same text in two reads, the first of which ends inside the line
    of the chunk. *)
Definition cut_lines : stream :=
  Stream [data_prefix ++ firstn 5 payload_chunk;
          skipn 5 payload_chunk ++ [c_newline]
          ++ data_prefix ++ payload_done ++ [c_newline]] false.

End StreamingReference.

Module CleanReference.
Import Js Clean.

(** The white-space-separated words of a string: its maximal runs of
    code units that are not white space.  [cur] holds, reversed, the
    word being read. *)
Fixpoint words_go (cur : jsstring) (s : jsstring) : list jsstring :=
  match s with
  | [] => match cur with [] => [] | _ => [rev cur] end
  | c :: s' =>
      if isWhiteSpace c then
        match cur with
        | [] => words_go [] s'
        | _ => rev cur :: words_go [] s'
        end
      else words_go (c :: cur) s'
  end.

Definition words (s : jsstring) : list jsstring := words_go [] s.

(** What the callback of [replaceAsterisksInText] returns for a span
    with the given content. *)
Definition quoted (content : jsstring) : jsstring :=
  quote_span [[c_star]; content; [c_star]].

Definition no_asterisk (s : jsstring) : bool := forallb (except c_star) s.

(** The leading white space of a string. *)
Fixpoint leading (s : jsstring) : jsstring :=
  match s with
  | c :: s' => if isWhiteSpace c then c :: leading s' else []
  | [] => []
  end.

End CleanReference.

Module CleanScenario.
Import Js.

Definition shared_asterisk : jsstring := lit "*a*b*".
Definition empty_span : jsstring := lit "**".
Definition nested_markup : jsstring := lit "<<s>s>hello".
Definition untidy_line : jsstring := lit "  so   it goes  ,  friend .  ".

Definition doubled_asterisks : jsstring := lit "**a**".
Definition spaced_number : jsstring := lit "a" ++ [c_newline] ++ lit "1 . x".

End CleanScenario.

Module CleanNormal.
Import Js Clean.

(** A single line of plain text: no line feed, no asterisk, no cross
    mark. *)
Definition plain_unit (c : char16) : bool :=
  negb (c =? c_newline)%N && negb (c =? c_star)%N && negb (c =? c_cross)%N.

Definition plain_line (t : jsstring) : bool := forallb plain_unit t.

(** No code unit that opens one of the markup patterns of the
    chat-messages variant: no '<', no '[' and no capital S. *)
Definition markup_free (t : jsstring) : bool :=
  forallb (fun c => negb (c =? 60)%N && negb (c =? 91)%N && negb (c =? 83)%N) t.

(** The first code unit that is not white space is not an opening
    parenthesis. *)
Definition no_leading_paren (t : jsstring) : bool :=
  negb (startsWith (trimStart t) [c_lparen]).

(** The two replacements of the line loop and of the punctuation step. *)
Definition collapse (s : jsstring) : jsstring :=
  replace_all white_run (fun _ => [c_space]) s.

Definition unspace (p : char16) (s : jsstring) : jsstring :=
  replace_all (space_before p) (fun _ => [p]) s.

(** What [cleanMessageText] comes to on a plain line. *)
Definition normalize (t : jsstring) : jsstring :=
  trim (fixPunctuation (collapse (trim t))).

(** Every white-space code unit is a single space followed by a code
    unit that is not white space (or by the end). *)
Fixpoint tidy (s : jsstring) : bool :=
  match s with
  | [] => true
  | c :: s' =>
      (if isWhiteSpace c then
         (c =? c_space)%N &&
         match s' with
         | d :: _ => negb (isWhiteSpace d)
         | [] => true
         end
       else true)
      && tidy s'
  end.

(** No space stands right before the code unit [q]. *)
Fixpoint no_space_before (q : char16) (s : jsstring) : bool :=
  match s with
  | [] => true
  | c :: s' =>
      negb ((c =? c_space)%N && startsWith s' [q]) && no_space_before q s'
  end.

End CleanNormal.

(* --------------------------------------------------------------------- *)
(** ** The submit handlers of the login, registration and password forms  *)
(* --------------------------------------------------------------------- *)

Module Forms.
Import Js.

Inductive field :=
| FFullname | FEmail | FPassword | FConfirmPassword | FNewPassword.

(** What a submit handler does, in order.  [ShowError] is the call of
    [showError] for a field; [Submit] is [form.submit()]. *)
Inductive effect :=
| ClearAllErrors
| ShowError (f : field) (message : jsstring)
| SaveScrollPosition
| Submit
| RemoveLoading.

(** [showError(...); isValid = false;] on the pair of [isValid] and the
    effects so far. *)
Definition reject (f : field) (message : jsstring) (st : bool * list effect)
  : bool * list effect :=
  (false, snd st ++ [ShowError f message]).

(** The end of each handler: submit when [isValid], otherwise take the
    loading state off the button if there is one. *)
Definition conclude (saveScroll submitButton : bool) (st : bool * list effect)
  : list effect :=
  if fst st then
    snd st ++ (if saveScroll then [SaveScrollPosition] else []) ++ [Submit]
  else snd st ++ (if submitButton then [RemoveLoading] else []).

Definition loginSubmit (email password : jsstring) (submitButton : bool)
  : list effect :=
  let email := trim email in
  let st := (true, [ClearAllErrors]) in
  let st :=
    match email with
    | [] => reject FEmail (lit "Please enter your email or username") st
    | _ => st
    end in
  let st :=
    match password with
    | [] => reject FPassword (lit "Please enter your password") st
    | _ => st
    end in
  conclude true submitButton st.

Definition registerSubmit (fullname email password confirmPassword : jsstring)
    (submitButton : bool) : list effect :=
  let fullname := trim fullname in
  let email := trim email in
  let st := (true, [ClearAllErrors]) in
  let st :=
    match fullname with
    | [] => reject FFullname (lit "Please enter your full name") st
    | _ => st
    end in
  let st :=
    match email with
    | [] => reject FEmail (lit "Please enter your email") st
    | _ =>
        if negb (Email.validateEmail email)
        then reject FEmail (lit "Please enter a valid email address") st
        else st
    end in
  let st :=
    match password with
    | [] => reject FPassword (lit "Please enter a password") st
    | _ =>
        if (length password <? 8)%nat
        then reject FPassword (lit "Password must be at least 8 characters") st
        else st
    end in
  let st :=
    match confirmPassword with
    | [] => reject FConfirmPassword (lit "Please confirm your password") st
    | _ =>
        if negb (str_eqb password confirmPassword)
        then reject FConfirmPassword (lit "Passwords do not match") st
        else st
    end in
  conclude true submitButton st.

(** The form that sets a new password after a reset. *)
Definition passwordUpdateSubmit (newPassword confirmPassword : jsstring)
    (updatePasswordButton : bool) : list effect :=
  let st := (true, [ClearAllErrors]) in
  let st :=
    match newPassword with
    | [] => reject FNewPassword (lit "Please enter a new password") st
    | _ =>
        if (length newPassword <? 8)%nat
        then reject FNewPassword (lit "Password must be at least 8 characters") st
        else st
    end in
  let st :=
    match confirmPassword with
    | [] => reject FConfirmPassword (lit "Please confirm your password") st
    | _ =>
        if negb (str_eqb newPassword confirmPassword)
        then reject FConfirmPassword (lit "Passwords do not match") st
        else st
    end in
  conclude false updatePasswordButton st.

Definition submits (es : list effect) : bool :=
  existsb (fun e => match e with Submit => true | _ => false end) es.

Definition errors (es : list effect) : list (field * jsstring) :=
  flat_map (fun e => match e with ShowError f m => [(f, m)] | _ => [] end) es.

Definition field_eqb (a b : field) : bool :=
  match a, b with
  | FFullname, FFullname | FEmail, FEmail | FPassword, FPassword
  | FConfirmPassword, FConfirmPassword | FNewPassword, FNewPassword => true
  | _, _ => false
  end.

(** The messages shown on one field. *)
Definition errors_on (f : field) (es : list effect) : list jsstring :=
  map snd (filter (fun e => field_eqb (fst e) f) (errors es)).

End Forms.

(* --------------------------------------------------------------------- *)
(** ** The file name of an exported conversation (exportConversation)      *)
(* --------------------------------------------------------------------- *)

Module ExportFile.
Import Js.

(** The class a-z0-9 under the i flag: a code unit is in it when its
    canonical form is that of a letter or of a digit. *)
Definition alnum_ci (c : char16) : bool :=
  let u := asciiUpper c in
  ((65 <=? u) && (u <=? 90))%N || digit u.

Definition not_alnum : list atom := [Atom (fun c => negb (alnum_ci c)) One].

Definition defaultTitle : jsstring := lit "Snowfriend Conversation".

(** [chatTitleInput.value.trim() || 'Snowfriend Conversation']. *)
Definition title (chatTitleInput : jsstring) : jsstring :=
  match trim chatTitleInput with
  | [] => defaultTitle
  | t => t
  end.

(** The [download] attribute of the link that saves the file. *)
Definition downloadName (chatTitleInput : jsstring) : jsstring :=
  toLowerCase (replace_all not_alnum (fun _ => lit "_") (title chatTitleInput))
  ++ lit ".txt".

(** A lower-case ASCII letter, a digit or an underscore. *)
Definition safe_unit (c : char16) : bool :=
  ((97 <=? c) && (c <=? 122))%N || digit c || (c =? 95)%N.

End ExportFile.

(* --------------------------------------------------------------------- *)
(** ** Counting the calls of the modal stack                               *)
(* --------------------------------------------------------------------- *)

Module ModalStackReference.
Import ModalStack.

Definition is_open (c : call) : bool :=
  match c with Open => true | Close => false end.

Definition opens (cs : list call) : Z := Z.of_nat (length (filter is_open cs)).

Definition closes (cs : list call) : Z :=
  Z.of_nat (length (filter (fun c => negb (is_open c)) cs)).

(** No close comes without an open before it that is still unmatched,
    [depth] modals being open at the start. *)
Fixpoint matched_from (depth : nat) (cs : list call) : bool :=
  match cs with
  | [] => true
  | Open :: cs' => matched_from (S depth) cs'
  | Close :: cs' =>
      match depth with
      | O => false
      | S d => matched_from d cs'
      end
  end.

(** The number of times the counter was found negative, read off the
    console. *)
Definition reports (l : list (level * message)) : Z :=
  Z.of_nat (length (filter (fun e => match snd e with
                                     | MsgWentNegative => true
                                     | _ => false
                                     end) l)).

End ModalStackReference.

(* --------------------------------------------------------------------- *)
(** ** Reference notions for getCookie                                     *)
(* --------------------------------------------------------------------- *)

Module CookieReference.
Import Js.

(** A cookie jar as the browser serialises it into [document.cookie]:
    name=value pairs joined by a semicolon and a space. *)
Definition pair_text (kv : jsstring * jsstring) : jsstring :=
  fst kv ++ lit "=" ++ snd kv.

Definition render (jar : list (jsstring * jsstring)) : jsstring :=
  join (lit "; ") (map pair_text jar).

(** The value of the first pair with the given name. *)
Fixpoint assoc (name : jsstring) (jar : list (jsstring * jsstring))
  : option jsstring :=
  match jar with
  | [] => None
  | (k, v) :: jar' => if str_eqb k name then Some v else assoc name jar'
  end.

(** Names hold no white space, semicolon or equals sign; values no white
    space and no semicolon. *)
Definition name_unit (c : char16) : bool :=
  negb (isWhiteSpace c) && negb (c =? 59)%N && negb (c =? 61)%N.

Definition value_unit (c : char16) : bool :=
  negb (isWhiteSpace c) && negb (c =? 59)%N.

Definition well_formed (jar : list (jsstring * jsstring)) : bool :=
  forallb (fun kv => forallb name_unit (fst kv) && forallb value_unit (snd kv)) jar.

End CookieReference.

(* --------------------------------------------------------------------- *)
(** ** The countdown timer of the message limit                           *)
(* --------------------------------------------------------------------- *)

Module LimitTimer.
Import Js.

(** The inline style of the element with id countdownTimer. *)
Record timerStyle := Style { display : jsstring; opacity : jsstring }.

(** The callbacks handed to setTimeout: the fade-in after 10 ms and the
    hiding after 300 ms. *)
Inductive task := FadeIn | Hide.

(** [timerInterval] is the field of [messageLimitState]; [live] lists the
    intervals that were set and not cleared since; [next] is the id the
    next setInterval returns (ids are positive, hence truthy). *)
Record page := Page {
  timeRemaining : Z;
  timerInterval : option nat;
  live : list nat;
  next : nat;
  timerElement : option timerStyle;
  timerText : option jsstring;      (* textContent of the element timerText *)
  timeouts : list (nat * task);
  fetches : nat;                    (* calls of fetchMessageLimit *)
  toasts : list (jsstring * jsstring)
}.

Definition clearInterval (id : nat) (l : list nat) : list nat :=
  filter (fun x => negb (x =? id)%nat) l.

Definition startCountdownTimer (p : page) : page :=
  match timerElement p, timerText p with
  | Some el, Some _ =>
      let el := Style (lit "flex") (opacity el) in
      let timeouts := timeouts p ++ [(10%nat, FadeIn)] in
      let live :=
        match timerInterval p with
        | Some id => clearInterval id (live p)
        | None => live p
        end in
      Page (timeRemaining p) (Some (next p)) (live ++ [next p]) (S (next p))
           (Some el) (Some (Limit.formatTime (timeRemaining p)))
           timeouts (fetches p) (toasts p)
  | _, _ => p
  end.

Definition stopCountdownTimer (p : page) : page :=
  let live :=
    match timerInterval p with
    | Some id => clearInterval id (live p)
    | None => live p
    end in
  match timerElement p with
  | Some el =>
      Page (timeRemaining p) None live (next p)
           (Some (Style (display el) (lit "0"))) (timerText p)
           (timeouts p ++ [(300%nat, Hide)]) (fetches p) (toasts p)
  | None =>
      Page (timeRemaining p) None live (next p) None (timerText p)
           (timeouts p) (fetches p) (toasts p)
  end.

(** One firing of the interval callback; [timeRemaining--] stores the
    double nearest to the difference. *)
Definition tick (p : page) : page :=
  if (0 <? timeRemaining p)%Z then
    let t := to_double (timeRemaining p - 1) in
    Page t (timerInterval p) (live p) (next p) (timerElement p)
         (match timerText p with
          | Some _ => Some (Limit.formatTime t)
          | None => None
          end)
         (timeouts p) (fetches p) (toasts p)
  else
    let p := stopCountdownTimer p in
    Page (timeRemaining p) (timerInterval p) (live p) (next p) (timerElement p)
         (timerText p) (timeouts p) (S (fetches p))
         (toasts p ++ [(lit "Message limit has been reset!", lit "success")]).

(** The success branch of [fetchMessageLimit], as far as the timer goes:
    the time is stored, then [updateMessageLimitUI] and the notifications
    of the reply run, then the countdown is started or stopped.
    [completed] tells whether those calls returned; when one of them
    throws, the catch block ends the call before the timer is touched.
    The toasts of the reply are not recorded. *)
Definition limitReceived (can_send : bool) (time_remaining_seconds : Z)
    (completed : bool) (p : page) : page :=
  let p := Page time_remaining_seconds (timerInterval p) (live p) (next p)
                (timerElement p) (timerText p) (timeouts p) (fetches p)
                (toasts p) in
  if negb completed then p
  else if negb can_send && (0 <? time_remaining_seconds)%Z
  then startCountdownTimer p
  else stopCountdownTimer p.

Inductive event :=
| Start | Stop
| Fire (id : nat)                  (* the interval with this id is due *)
| LimitReceived (can_send : bool) (time_remaining_seconds : Z)
                (completed : bool).

Definition handle (p : page) (e : event) : page :=
  match e with
  | Start => startCountdownTimer p
  | Stop => stopCountdownTimer p
  | Fire id => if existsb (Nat.eqb id) (live p) then tick p else p
  | LimitReceived c t u => limitReceived c t u p
  end.

(** The page when the script starts, with or without the two elements. *)
Definition init (el : option timerStyle) (text : option jsstring) : page :=
  Page 0 None [] 1 el text [] 0 [].

(** The intervals alive are exactly the one the state remembers. *)
Definition single (p : page) : Prop :=
  live p = match timerInterval p with Some id => [id] | None => [] end
  /\ match timerInterval p with Some id => (id < next p)%nat | None => True end.

End LimitTimer.

Module LimitReference.
Import Js.

(** [element.classList.contains(name)]. *)
Definition has_class (name : jsstring) (e : Limit.element) : bool :=
  existsb (str_eqb name) (Limit.classList e).

Definition is_counter_class (name : jsstring) : bool :=
  existsb (str_eqb name) Limit.counter_classes.

End LimitReference.

(* --------------------------------------------------------------------- *)
(** ** formatTimestamp                                                     *)
(* --------------------------------------------------------------------- *)

Module Timestamp.
Import Js.

Section WithLocale.

(** [date.toLocaleTimeString('en-US', ...)], and
    [date.toLocaleDateString('en-US', ...)] with or without the year, of
    the date at a given time value; [getFullYear] of it. *)
Variable toLocaleTimeString : Z -> jsstring.
Variable toLocaleDateString : Z -> bool -> jsstring.
Variable getFullYear : Z -> Z.

(** The template of the three relative forms. *)
Definition ago (n : Z) (singular plural : jsstring) : jsstring :=
  String_of_Z n ++ lit " " ++ (if (n =? 1)%Z then singular else plural)
  ++ lit " ago".

(** [now] is the time value of [new Date()], in milliseconds;
    [messageDate] that of [new Date(date)], [None] for an Invalid Date,
    whose time value is NaN and fails every comparison.  The result is
    [None] when the function falls off its end and returns undefined. *)
Definition formatTimestamp (now : Z) (messageDate : option Z)
  : option jsstring :=
  match messageDate with
  | None => None
  | Some date =>
      let diffMs := (now - date)%Z in
      let diffSecs := (diffMs / 1000)%Z in
      let diffMins := (diffSecs / 60)%Z in
      let diffHours := (diffMins / 60)%Z in
      let diffDays := (diffHours / 24)%Z in
      if (diffSecs <? 10)%Z then Some (lit "Just now")
      else if (diffSecs <? 60)%Z
      then Some (ago diffSecs (lit "second") (lit "seconds"))
      else if (diffMins <? 60)%Z
      then Some (ago diffMins (lit "minute") (lit "minutes"))
      else if (diffHours <? 24)%Z
      then Some (ago diffHours (lit "hour") (lit "hours"))
      else if (diffDays =? 1)%Z
      then Some (lit "Yesterday " ++ toLocaleTimeString date)
      else if (1 <? diffDays)%Z
      then Some (toLocaleDateString date
                   (negb (getFullYear now =? getFullYear date)%Z)
                 ++ lit " " ++ toLocaleTimeString date)
      else None
  end.

End WithLocale.

End Timestamp.

(* --------------------------------------------------------------------- *)
(** ** appendMessageWithTyping: the typing animation (chat.js)             *)
(* --------------------------------------------------------------------- *)

Module Typing.
Import Js.

Record state := State {
  contentDiv : option jsstring;   (* textContent of the appended message *)
  currentIndex : nat;
  pending : bool;                 (* a setTimeout(typeCharacter, 30) is due *)
  isTyping : bool;
  sendButtonUpdates : nat;
  callbacks : nat;                (* calls of the callback *)
  warnings : nat                  (* console.warn *)
}.

Definition call (callback : bool) (n : nat) : nat :=
  if callback then S n else n.

(** [callback]: whether the caller passed one. *)
Definition typeCharacter (text : jsstring) (callback : bool) (st : state)
  : state :=
  if (currentIndex st <? length text)%nat then
    State (Some (firstn (currentIndex st + 1) text)) (S (currentIndex st)) true
          (isTyping st) (sendButtonUpdates st) (callbacks st) (warnings st)
  else
    State (contentDiv st) (currentIndex st) false false
          (S (sendButtonUpdates st)) (call callback (callbacks st))
          (warnings st).

Definition appendMessageWithTyping (text : jsstring) (callback : bool)
    (st : state) : state :=
  let text := Clean.cleanMessageText text in
  match text with
  | [] =>
      State None (currentIndex st) false (isTyping st) (sendButtonUpdates st)
            (call callback (callbacks st)) (S (warnings st))
  | _ =>
      typeCharacter text callback
        (State (Some []) 0 false (isTyping st) (sendButtonUpdates st)
               (callbacks st) (warnings st))
  end.

(** The timer fires: the outstanding [typeCharacter] runs, on the text
    the closure holds. *)
Definition fire (text : jsstring) (callback : bool) (st : state) : state :=
  if pending st then typeCharacter (Clean.cleanMessageText text) callback st
  else st.

End Typing.

(* --------------------------------------------------------------------- *)
(** ** Reference notions for fixBulletListSpacing                          *)
(* --------------------------------------------------------------------- *)

Module BulletReference.
Import Js Clean.

(** A line is a list item when its trimmed text is one. *)
Definition item (line : jsstring) : bool := isListItem (trim line).

(** What the loop of [fixBulletListSpacing] appends for the lines still
    to come, from whether the last line appended is not blank and from
    [inList]. *)
Fixpoint emit (lastNonblank inList : bool) (lines : list jsstring)
  : list jsstring :=
  match lines with
  | [] => []
  | line :: rest =>
      let enter := item line && negb inList in
      let inList := if enter then true else inList in
      let leave := negb (item line) && inList && nonblank line in
      (if (enter || leave) && lastNonblank then [[]] else [])
      ++ line :: emit (nonblank line) (if leave then false else inList) rest
  end.

(** No list item stands right next to a line that is neither blank nor
    a list item. *)
Fixpoint separated (lines : list jsstring) : bool :=
  match lines with
  | [] => true
  | x :: rest =>
      match rest with
      | [] => true
      | y :: _ =>
          negb (nonblank x && nonblank y && xorb (item x) (item y))
      end && separated rest
  end.

Definition nonempty (line : jsstring) : bool :=
  match line with [] => false | _ => true end.

End BulletReference.

Module QuoteReference.
Import Js Clean.

(** [b] is [a] with some asterisks turned into quotation marks, code
    unit by code unit. *)
Fixpoint requoted (a b : jsstring) : bool :=
  match a, b with
  | [], [] => true
  | x :: a', y :: b' =>
      ((x =? y)%N
       || ((x =? c_star)%N && ((y =? c_squote)%N || (y =? c_dquote)%N)))
      && requoted a' b'
  | _, _ => false
  end.

End QuoteReference.

Module LockReference.

(** What [tryStreaming] of the chat-messages script shares with its
    caller: the typing indicator, the typing lock, the updates of the
    send button and the console. *)
Definition messages_lock (st : StreamingMessages.state)
  : bool * bool * nat * list Streaming.console_entry :=
  (StreamingMessages.typingIndicator st, StreamingMessages.isTyping st,
   StreamingMessages.sendButtonUpdates st, StreamingMessages.console st).

End LockReference.

Module ClockReference.
Import Js.

(** Reading a label of the form H:MM AM or H:MM PM back into the hour
    (0 to 23) and the minute. *)
Definition read_clock (label : jsstring) : option (Z * Z) :=
  match split 58%N label with
  | [hours; rest] =>
      match Reference.parseDec hours, rest with
      | Some h, m1 :: m2 :: sp :: half =>
          match Reference.parseDec [m1; m2] with
          | Some m =>
              if negb (sp =? 32)%N then None
              else if negb ((1 <=? h) && (h <=? 12))%N then None
              else if str_eqb half (lit "AM")
              then Some (Z.of_N (h mod 12), Z.of_N m)
              else if str_eqb half (lit "PM")
              then Some (Z.of_N (h mod 12) + 12, Z.of_N m)%Z
              else None
          | None => None
          end
      | _, _ => None
      end
  | _ => None
  end.

(** The clock times of a day. *)
Definition clock_times : list (Z * Z) :=
  flat_map (fun h => map (fun m => (Z.of_nat h, Z.of_nat m)) (seq 0 60))
           (seq 0 24).

End ClockReference.

(* --------------------------------------------------------------------- *)
(** ** What a matcher takes from the text                                  *)
(* --------------------------------------------------------------------- *)

Module MatchReference.
Import Js.

(** The matcher [k] returns substrings of its input, followed by the
    rest. *)
Definition splits (k : jsstring -> option (list jsstring * jsstring)) : Prop :=
  forall s ms rest, k s = Some (ms, rest) -> s = concat ms ++ rest.


End MatchReference.

(* --------------------------------------------------------------------- *)
(** ** Reference notions for the blank lines of a cleaned text             *)
(* --------------------------------------------------------------------- *)

Module GapReference.
Import Js.

(** No two empty lines follow each other. *)
Fixpoint no_gap (lines : list jsstring) : bool :=
  match lines with
  | [] => true
  | x :: rest =>
      match rest with
      | [] => true
      | y :: _ => BulletReference.nonempty x || BulletReference.nonempty y
      end && no_gap rest
  end.

Definition last_empty (lines : list jsstring) : bool :=
  match lines with
  | [] => false
  | _ => negb (BulletReference.nonempty (last lines []))
  end.

(** No run of line feeds in [s] is longer than two, where [k] line
    feeds stand right before [s]. *)
Fixpoint short_runs (k : nat) (s : jsstring) : bool :=
  match s with
  | [] => true
  | c :: s' =>
      if (c =? c_newline)%N then (k <? 2)%nat && short_runs (S k) s'
      else short_runs 0 s'
  end.

End GapReference.

(* --------------------------------------------------------------------- *)
(** ** Reference notions for cleaning a cleaned text again                 *)
(* --------------------------------------------------------------------- *)

Module RepeatReference.
Import Js Clean CleanNormal.

(** [re.test(s)] for the unanchored pattern [r]: it matches somewhere in
    the text. *)
Definition occurs (r : list atom) (s : jsstring) : bool :=
  test (Regex false r false) s.





(** A line as the line loop leaves it: trimmed, its white space single
    spaces. *)
Definition neat (l : jsstring) : bool := tidy l && str_eqb (trim l) l.

(** A line as the punctuation step leaves it. *)
Definition clear (l : jsstring) : bool :=
  no_space_before 46%N l && no_space_before 63%N l
  && no_space_before 33%N l && no_space_before 44%N l.




End RepeatReference.

(* ===================================================================== *)
(** * Part II: properties                                                 *)
(* ===================================================================== *)

(* --------------------------------------------------------------------- *)
(** ** The modal stack counter and the scroll lock                        *)
(* --------------------------------------------------------------------- *)

Section ModalStackFacts.
Import Js ModalStack.
Local Open Scope Z_scope.

Lemma consistent_init : consistent init.
Proof. repeat split; simpl; lia. Qed.

Lemma open_spec (p : page) :
  debug p = false ->
  open p = Page (count p + 1) false
             (if count p =? 0 then hidden else html_overflow p)
             (if count p =? 0 then hidden else body_overflow p)
             (console p).
Proof.
  destruct p as [c d h b l]; simpl; intros ->.
  unfold open, debug_log, set_count, set_overflow; simpl.
  destruct (Z.eqb_spec (c + 1) 1) as [E|E], (Z.eqb_spec c 0) as [E'|E'];
    simpl; try reflexivity; lia.
Qed.

Lemma close_spec (v : script) (p : page) :
  debug p = false ->
  close v p = Page (Z.max 0 (count p - 1)) false
                (if count p <=? 1 then [] else html_overflow p)
                (if count p <=? 1 then [] else body_overflow p)
                (console p ++ (if count p <=? 0 then negative_report v else [])).
Proof.
  destruct p as [c d h b l]; simpl; intros ->.
  unfold close, debug_log, set_count, set_overflow, report, log; simpl.
  destruct (Z.ltb_spec (c - 1) 0) as [L|L]; simpl.
  - destruct (Z.leb_spec c 1), (Z.leb_spec c 0); try lia.
    rewrite Z.max_l by lia. destruct v; simpl; rewrite <- !app_assoc; reflexivity.
  - destruct (Z.eqb_spec (c - 1) 0) as [E|E]; simpl;
      destruct (Z.leb_spec c 1), (Z.leb_spec c 0); try lia;
      rewrite Z.max_r by lia; rewrite ?app_nil_r; reflexivity.
Qed.

Lemma consistent_open (p : page) : consistent p -> consistent (open p).
Proof.
  intros (D & C & HB & H). rewrite (open_spec p D).
  unfold consistent; simpl. repeat split; try lia.
  - rewrite HB; reflexivity.
  - destruct (Z.eqb_spec (count p) 0), (Z.ltb_spec 0 (count p + 1));
      try lia; try reflexivity.
    rewrite H. destruct (Z.ltb_spec 0 (count p)); [reflexivity | lia].
Qed.

Lemma consistent_close (v : script) (p : page) :
  consistent p -> consistent (close v p).
Proof.
  intros (D & C & HB & H). rewrite (close_spec v p D).
  unfold consistent; simpl. repeat split; try lia.
  - rewrite HB; reflexivity.
  - destruct (Z.leb_spec (count p) 1), (Z.ltb_spec 0 (Z.max 0 (count p - 1)));
      try lia; try reflexivity.
    rewrite H. destruct (Z.ltb_spec 0 (count p)); [reflexivity | lia].
Qed.

Lemma consistent_step (v : script) (p : page) (c : call) :
  consistent p -> consistent (step v p c).
Proof. destruct c; [apply consistent_open | apply consistent_close]. Qed.

Lemma consistent_run (v : script) (cs : list call) :
  forall p, consistent p -> consistent (run v cs p).
Proof.
  induction cs as [|c cs IH]; intros p Hp; simpl; [exact Hp|].
  apply IH, consistent_step, Hp.
Qed.

End ModalStackFacts.

(** C1. The counter of the modal stack is never negative, in chat.js
    and in chat-modals alike.  After any sequence of [open] and [close]
    calls from the initial object the count is at least 0; one more
    [close] leaves it at max(0, count - 1), so a close at count 0 clamps
    to exactly 0; that close, and only that one, appends the error report
    to the console; and the calls after a clamped close behave as on a
    fresh stack: the next [open] gives count 1 and locks scrolling, the
    next [close] gives count 0 again. *)
Theorem modal_count_never_negative :
  forall (v : script) (cs : list ModalStack.call),
    let p := ModalStack.run v cs ModalStack.init in
    (0 <= ModalStack.count p)%Z
    /\ ModalStack.count (ModalStack.close v p)
       = Z.max 0 (ModalStack.count p - 1)
    /\ ModalStack.console (ModalStack.close v p)
       = ModalStack.console p
         ++ (if (ModalStack.count p =? 0)%Z
             then ModalStack.negative_report v else [])
    /\ (forall cs', (0 <= ModalStack.count
                            (ModalStack.run v cs' (ModalStack.close v p)))%Z)
    /\ (if (ModalStack.count p =? 0)%Z then
          ModalStack.count (ModalStack.close v p) = 0%Z
          /\ ModalStack.count (ModalStack.open (ModalStack.close v p)) = 1%Z
          /\ ModalStack.scroll_locked
               (ModalStack.open (ModalStack.close v p)) = true
          /\ ModalStack.count
               (ModalStack.close v (ModalStack.open (ModalStack.close v p)))
             = 0%Z
        else True).
Proof.
  intros v cs p.
  assert (Hp : ModalStack.consistent p) by (apply consistent_run, consistent_init).
  assert (Hc : ModalStack.consistent (ModalStack.close v p))
    by (apply consistent_close, Hp).
  destruct Hp as (D & C & HB & H).
  repeat split.
  - exact C.
  - rewrite (close_spec v p D); reflexivity.
  - rewrite (close_spec v p D); simpl.
    destruct (Z.leb_spec (ModalStack.count p) 0), (Z.eqb_spec (ModalStack.count p) 0);
      try lia; reflexivity.
  - intros cs'. apply (consistent_run v cs' _ Hc).
  - destruct (Z.eqb_spec (ModalStack.count p) 0) as [E|E]; [|exact I].
    destruct Hc as (D' & C' & HB' & H').
    assert (E0 : ModalStack.count (ModalStack.close v p) = 0%Z)
      by (rewrite (close_spec v p D); simpl; lia).
    assert (Ho : ModalStack.consistent (ModalStack.open (ModalStack.close v p)))
      by (apply consistent_open; repeat split; assumption).
    assert (E1 : ModalStack.count (ModalStack.open (ModalStack.close v p)) = 1%Z)
      by (rewrite (open_spec _ D'); simpl; lia).
    repeat split; try assumption.
    + destruct Ho as (_ & _ & HBo & Hho). unfold ModalStack.scroll_locked.
      rewrite <- HBo, Hho, E1. reflexivity.
    + destruct Ho as (Do & _). rewrite (close_spec v _ Do); simpl. lia.
Qed.

(** C5. The counter drives the scroll lock, in chat.js and in
    chat-modals alike.  After any sequence of [open] and [close] calls
    from the initial object, the overflow style of the document element
    and of the body is 'hidden' exactly when the count is greater than 0
    and unset otherwise; [open] sets it to 'hidden' on the step from 0 to
    1 and leaves it alone otherwise, and [close] unsets it on the step
    from 1 to 0 and leaves it alone while the count stays positive. *)
Theorem modal_count_drives_scroll_lock :
  forall (v : script) (cs : list ModalStack.call),
    let p := ModalStack.run v cs ModalStack.init in
    ModalStack.scroll_locked p = (0 <? ModalStack.count p)%Z
    /\ ModalStack.html_overflow p = ModalStack.body_overflow p
    /\ ModalStack.html_overflow p
       = (if (0 <? ModalStack.count p)%Z then ModalStack.hidden else [])
    /\ ModalStack.html_overflow (ModalStack.open p)
       = (if (ModalStack.count p =? 0)%Z then ModalStack.hidden
          else ModalStack.html_overflow p)
    /\ ModalStack.html_overflow (ModalStack.close v p)
       = (if (ModalStack.count p <=? 1)%Z then []
          else ModalStack.html_overflow p).
Proof.
  intros v cs p.
  assert (Hp : ModalStack.consistent p) by (apply consistent_run, consistent_init).
  destruct Hp as (D & C & HB & H).
  repeat split.
  - unfold ModalStack.scroll_locked. rewrite <- HB, H.
    destruct (0 <? ModalStack.count p)%Z; reflexivity.
  - exact HB.
  - exact H.
  - rewrite (open_spec p D); reflexivity.
  - rewrite (close_spec v p D); reflexivity.
Qed.

(* --------------------------------------------------------------------- *)
(** ** validateEmail                                                      *)
(* --------------------------------------------------------------------- *)

(** C4. The email pattern accepts 'user@example.com' and rejects
    'user@example'. *)
Theorem validateEmail_examples :
  Email.validateEmail (Js.lit "user@example.com") = true
  /\ Email.validateEmail (Js.lit "user@example") = false.
Proof. split; vm_compute; reflexivity. Qed.

(* --------------------------------------------------------------------- *)
(** ** The message counter and the send controls                          *)
(* --------------------------------------------------------------------- *)

(** C3, as stated, fails, in chat.js and in chat-limits alike: with no
    message remaining but [canSend] true, [updateMessageLimitUI] returns
    with the send button and the message input both enabled. *)
Lemma remaining_zero_does_not_disable :
  Limit.remaining Scenario.none_left_can_send = 0%Z
  /\ (exists d,
        Limit.updateMessageLimitUI Scenario.clock_6am ChatJs
          Scenario.none_left_can_send Scenario.chat_page = Limit.Returned d
        /\ Limit.is_disabled (Limit.sendButton d) = false
        /\ Limit.is_disabled (Limit.messageInput d) = false)
  /\ (exists d,
        Limit.updateMessageLimitUI Scenario.clock_6am ChatbotScripts
          Scenario.none_left_can_send Scenario.chat_page = Limit.Returned d
        /\ Limit.is_disabled (Limit.sendButton d) = false
        /\ Limit.is_disabled (Limit.messageInput d) = false).
Proof. split; [reflexivity|]. split; eexists; repeat split. Qed.

Lemma updateCounter_keeps_controls st d d' :
  Limit.updateCounter st d = Limit.Returned d' ->
  Limit.sendButton d' = Limit.sendButton d
  /\ Limit.messageInput d' = Limit.messageInput d.
Proof.
  unfold Limit.updateCounter.
  destruct (Limit.messagesLeft d) as [ml|]; simpl.
  - destruct (Limit.messageCounter d) as [mc|]; [|discriminate].
    intros [= <-]; split; reflexivity.
  - intros [= <-]; split; reflexivity.
Qed.

Lemma updateCounter_returns st d :
  (Limit.messagesLeft d = None \/ Limit.messageCounter d <> None) ->
  exists d', Limit.updateCounter st d = Limit.Returned d'.
Proof.
  unfold Limit.updateCounter. intros H.
  destruct (Limit.messagesLeft d) as [ml|]; simpl; [|eexists; reflexivity].
  destruct (Limit.messageCounter d) as [mc|]; [eexists; reflexivity|].
  destruct H as [H|H]; [discriminate | contradiction].
Qed.

(** C3, amended.  In both scripts the send controls follow [canSend],
    not the remaining count: whenever [canSend] is false, whatever the remaining count, and
    the elements the function touches exist, [updateMessageLimitUI]
    returns with the send button and the message input disabled. *)
Theorem cannot_send_disables_controls :
  forall (localTime : Z -> Z * Z) (v : script) (st : Limit.messageLimitState)
         (d : Limit.dom),
    Limit.canSend st = false ->
    Limit.sendButton d <> None ->
    Limit.messageInput d <> None ->
    (Limit.messagesLeft d = None \/ Limit.messageCounter d <> None) ->
    exists d',
      Limit.updateMessageLimitUI localTime v st d = Limit.Returned d'
      /\ Limit.is_disabled (Limit.sendButton d') = true
      /\ Limit.is_disabled (Limit.messageInput d') = true.
Proof.
  intros localTime v st d Hc Hsb Hmi Hcnt.
  destruct (updateCounter_returns st d Hcnt) as [d1 E].
  destruct (updateCounter_keeps_controls st d d1 E) as [Esb Emi].
  unfold Limit.updateMessageLimitUI. rewrite E, Hc; simpl.
  rewrite Esb, Emi.
  destruct (Limit.sendButton d) as [sb|]; [|contradiction].
  destruct (Limit.messageInput d) as [mi|]; [|contradiction].
  eexists; repeat split.
Qed.

Lemma cannot_send_disables_controls_witness :
  exists d',
    Limit.updateMessageLimitUI Scenario.clock_6am ChatbotScripts
      Scenario.none_left_blocked Scenario.chat_page = Limit.Returned d'
    /\ Limit.is_disabled (Limit.sendButton d') = true
    /\ Limit.is_disabled (Limit.messageInput d') = true.
Proof.
  apply (cannot_send_disables_controls Scenario.clock_6am ChatbotScripts
           Scenario.none_left_blocked Scenario.chat_page).
  - reflexivity.
  - simpl; discriminate.
  - simpl; discriminate.
  - right; simpl; discriminate.
Defined.

(* --------------------------------------------------------------------- *)
(** ** The countdown guard of the confirmation modal                      *)
(* --------------------------------------------------------------------- *)




(* --------------------------------------------------------------------- *)
(** ** Failures of the fetch-based operations                             *)
(* --------------------------------------------------------------------- *)

Section StreamingLockFacts.
Import Js Streaming.

Variable JSON_parse : jsstring -> parsed.

(** The line loop touches the typing lock only where it returns. *)
Lemma on_lines_lock (lines : list jsstring) :
  forall st,
    match on_lines JSON_parse st lines with
    | Continue st' | Throw st' =>
        typingIndicator st' = typingIndicator st
        /\ isTyping st' = isTyping st
        /\ sendButtonUpdates st' = sendButtonUpdates st
        /\ console st' = console st
    | Return st' =>
        typingIndicator st' = typingIndicator st
        /\ isTyping st' = false
        /\ sendButtonUpdates st' = S (sendButtonUpdates st)
        /\ console st' = console st
    end.
Proof.
  induction lines as [|line rest IH]; intros st; cbn [on_lines].
  - repeat split.
  - unfold on_line.
    destruct (startsWith line data_prefix); [|apply IH].
    destruct (JSON_parse (slice_from 6 line)) as [| |d]; [apply IH | repeat split |].
    assert (C : typingIndicator (on_chunk d st) = typingIndicator st
                /\ isTyping (on_chunk d st) = isTyping st
                /\ sendButtonUpdates (on_chunk d st) = sendButtonUpdates st
                /\ console (on_chunk d st) = console st).
    { unfold on_chunk. destruct (truthy (chunk d)); repeat split. }
    destruct C as (C1 & C2 & C3 & C4).
    destruct (done d).
    + cbn [on_done typingIndicator isTyping sendButtonUpdates console].
      rewrite C1, C3, C4. repeat split.
    + destruct (truthy (error d)); [repeat split; assumption|].
      specialize (IH (on_chunk d st)).
      destruct (on_lines JSON_parse (on_chunk d st) rest);
        rewrite <- ?C1, <- ?C2, <- ?C3, <- ?C4; exact IH.
Qed.

Lemma read_loop_lock (rs : list jsstring) (fails : bool) :
  forall st,
    match read_loop JSON_parse st rs fails with
    | Continue st' | Throw st' =>
        typingIndicator st' = typingIndicator st
        /\ isTyping st' = isTyping st
        /\ sendButtonUpdates st' = sendButtonUpdates st
        /\ console st' = console st
    | Return st' =>
        typingIndicator st' = typingIndicator st
        /\ isTyping st' = false
        /\ sendButtonUpdates st' = S (sendButtonUpdates st)
        /\ console st' = console st
    end.
Proof.
  induction rs as [|value rs IH]; intros st; cbn [read_loop].
  - destruct fails; repeat split.
  - pose proof (on_lines_lock (split c_newline value) st) as L.
    destruct (on_lines JSON_parse st (split c_newline value)) as [st'|st'|st'];
      [|exact L | exact L].
    destruct L as (L1 & L2 & L3 & L4). specialize (IH st').
    destruct (read_loop JSON_parse st' rs fails);
      rewrite <- ?L1, <- ?L2, <- ?L3, <- ?L4; exact IH.
Qed.

End StreamingLockFacts.

Section OpsFacts.
Import Js Ops.

Lemma requests_to_app ep (a b : list effect) :
  requests_to ep (a ++ b) = (requests_to ep a + requests_to ep b)%nat.
Proof. unfold requests_to. rewrite filter_app, length_app. reflexivity. Qed.

Lemma requests_to_appendMessage ep t s : requests_to ep (appendMessage t s) = 0%nat.
Proof.
  unfold appendMessage. destruct (Clean.cleanMessageText t); destruct ep; reflexivity.
Qed.

Lemma requests_to_map_console ep (A : Type) (l : list A) lbl :
  requests_to ep (map (fun _ => ConsoleError lbl) l) = 0%nat.
Proof. induction l; [reflexivity|]. destruct ep; exact IHl. Qed.

Lemma requests_to_map_toast ep (l : list (jsstring * jsstring)) :
  requests_to ep (map (fun n => Toast (fst n) (getNotificationType (snd n))) l) = 0%nat.
Proof. induction l; [reflexivity|]. destruct ep; exact IHl. Qed.

Lemma requests_to_streamed ep st : requests_to ep (streamed st) = 0%nat.
Proof.
  unfold streamed. destruct (Streaming.messageElement st); destruct ep; reflexivity.
Qed.

Lemma fetchMessageLimit_requests ep token o :
  requests_to ep (fetchMessageLimit token o)
  = match ep, token with
    | EpLimit, Cookie.Value _ => 1%nat
    | _, _ => 0%nat
    end.
Proof.
  unfold fetchMessageLimit. destruct token as [tok|]; [|destruct ep; reflexivity].
  destruct o as [|[|] [|data]]; try (destruct ep; reflexivity).
  destruct (l_success data); [|destruct ep; reflexivity].
  change (requests_to ep ([Request EpLimit] ++ ([LimitStateSet (total_messages data)
            (messages_remaining data) (can_send data) (time_remaining_seconds data);
            LimitUIUpdated]
          ++ map (fun n => Toast (fst n) (getNotificationType (snd n))) (notifications data)
          ++ [if negb (can_send data) && (0 <? time_remaining_seconds data)%Z
              then CountdownStarted else CountdownStopped]))
          = match ep with EpLimit => 1%nat | _ => 0%nat end).
  rewrite !requests_to_app, requests_to_map_toast.
  destruct (negb (can_send data) && (0 <? time_remaining_seconds data)%Z);
    destruct ep; reflexivity.
Qed.


Lemma regularRequest_requests ep o :
  requests_to ep (fst (regularRequest o))
  = match ep with EpSend => 1%nat | _ => 0%nat end.
Proof.
  unfold regularRequest.
  destruct o as [|ok [|data]]; try (destruct ep; reflexivity).
  cbn [fst].
  destruct (s_success data).
  - change (requests_to ep ([Request EpSend] ++
              (match s_notification data with
               | Some (m, k) => [Toast m k] | None => [] end
               ++ appendMessage (s_response data) Bot))
            = match ep with EpSend => 1%nat | _ => 0%nat end).
    rewrite !requests_to_app, requests_to_appendMessage.
    destruct (s_notification data) as [[m k]|]; destruct ep; reflexivity.
  - change (requests_to ep ([Request EpSend] ++
              appendMessage (lit "Sorry, I encountered an error. Please try again.") Bot)
            = match ep with EpSend => 1%nat | _ => 0%nat end).
    rewrite requests_to_app, requests_to_appendMessage.
    destruct ep; reflexivity.
Qed.

(** [sendMessage] past its guards. *)
Lemma sendMessage_sends parse input c notice token rs rr tl rl x text :
  trim input = x :: text ->
  isTyping c = false -> isInitialTyping c = false -> canSend c = true ->
  sendMessage parse input c notice token rs rr tl rl
  = appendMessage (x :: text) User ++
    match token with
    | Cookie.URIError =>
        [ConsoleError (lit "Error sending message:")]
        ++ appendMessage trouble_connecting Bot
    | Cookie.Value _ =>
        [Request EpSendStreaming]
        ++ streamed (snd (Streaming.tryStreaming parse rs Streaming.entry))
        ++ map (fun _ => ConsoleError (lit "Streaming error:"))
               (Streaming.console
                  (snd (Streaming.tryStreaming parse rs Streaming.entry)))
        ++
        if fst (Streaming.tryStreaming parse rs Streaming.entry)
        then fetchMessageLimit tl rl
        else
          [ConsoleLog (lit "Streaming not supported, using regular request")]
          ++ fst (regularRequest rr) ++
          if snd (regularRequest rr) then
            [ConsoleError (lit "Error sending message:")]
            ++ appendMessage trouble_connecting Bot
          else fetchMessageLimit tl rl
    end.
Proof.
  intros E T I C. unfold sendMessage. rewrite E, T, I, C. cbn [orb negb].
  destruct token as [tok|]; [|reflexivity].
  destruct (Streaming.tryStreaming parse rs Streaming.entry) as [ok st].
  cbn [fst snd]. destruct ok; [reflexivity|].
  destruct (regularRequest rr) as [effects threw]. reflexivity.
Qed.





Section Reader.

Variable parse : jsstring -> Streaming.parsed.




End Reader.

End OpsFacts.




(* --------------------------------------------------------------------- *)
(** ** formatTime                                                         *)
(* --------------------------------------------------------------------- *)

Section FormatTimeFacts.
Import Js Reference.

Lemma unlit_lit (s : string) : unlit (lit s) = s.
Proof.
  induction s as [|a s IH]; simpl; [reflexivity|].
  rewrite ascii_N_embedding, IH. reflexivity.
Qed.

Lemma digits_of_uint (d : Decimal.uint) :
  forallb digit (lit (DecimalString.NilEmpty.string_of_uint d)) = true.
Proof. induction d; simpl; auto. Qed.

Lemma parseDec_String_of_N (n : N) : parseDec (String_of_N n) = Some n.
Proof.
  unfold parseDec, String_of_N.
  rewrite digits_of_uint, unlit_lit, DecimalString.NilEmpty.usu. simpl.
  rewrite DecimalN.Unsigned.of_to. reflexivity.
Qed.

Lemma length_lit (s : string) : length (lit s) = String.length s.
Proof. induction s; simpl; congruence. Qed.

(** From ten on a decimal numeral has at least two digits. *)
Lemma String_of_N_long (n : N) : (10 <= n)%N -> (2 <= length (String_of_N n))%nat.
Proof.
  intros H. unfold String_of_N.
  pose proof (DecimalN.Unsigned.of_to n) as E.
  destruct (N.to_uint n) as [|d|d|d|d|d|d|d|d|d|d];
    try (destruct d; simpl; try lia; exfalso; vm_compute in E; subst n;
         vm_compute in H; apply H; reflexivity).
  exfalso. vm_compute in E. subst n. vm_compute in H. apply H; reflexivity.
Qed.

Lemma small_cases (n : Z) :
  (0 <= n < 10)%Z ->
  n = 0%Z \/ n = 1%Z \/ n = 2%Z \/ n = 3%Z \/ n = 4%Z \/ n = 5%Z \/ n = 6%Z
  \/ n = 7%Z \/ n = 8%Z \/ n = 9%Z.
Proof. lia. Qed.

Lemma padStart_two_digits (n : Z) :
  (0 <= n)%Z -> padStart 2 (lit "0") (String_of_Z n) = two_digits n.
Proof.
  intros Hn. unfold two_digits.
  destruct (Z.ltb_spec n 10) as [L|L].
  - destruct (small_cases n (conj Hn L))
      as [->|[->|[->|[->|[->|[->|[->|[->|[->| ->]]]]]]]]]; reflexivity.
  - assert (E : String_of_Z n = String_of_N (Z.to_N n))
      by (destruct n; [reflexivity | reflexivity | lia]).
    rewrite E. unfold padStart.
    pose proof (String_of_N_long (Z.to_N n) ltac:(lia)) as H2.
    destruct (Nat.leb_spec 2 (length (String_of_N (Z.to_N n)))); [reflexivity | lia].
Qed.

Lemma two_digits_ok (n : Z) :
  (0 <= n)%Z ->
  (2 <= length (two_digits n))%nat
  /\ parseDec (two_digits n) = Some (Z.to_N n).
Proof.
  intros Hn. unfold two_digits.
  destruct (Z.ltb_spec n 10) as [L|L].
  - destruct (small_cases n (conj Hn L))
      as [->|[->|[->|[->|[->|[->|[->|[->|[->| ->]]]]]]]]];
      split; try (simpl; lia); reflexivity.
  - assert (E : String_of_Z n = String_of_N (Z.to_N n))
      by (destruct n; [reflexivity | reflexivity | lia]).
    rewrite E. split.
    + apply String_of_N_long; lia.
    + apply parseDec_String_of_N.
Qed.

End FormatTimeFacts.

Section NumberFacts.
Import Js.

Lemma to_double_safe (z : Z) : (Z.abs z < two53)%Z -> to_double z = z.
Proof.
  intros H. unfold to_double.
  destruct (Z.ltb_spec (Z.abs z) two53); [reflexivity | lia].
Qed.

Lemma Number_toString_safe (x : Z) :
  (Z.abs x < two53)%Z -> Number_toString x = String_of_Z x.
Proof.
  intros H. unfold Number_toString, digits_of.
  destruct (Z.ltb_spec x 0) as [N|N].
  - destruct (Z.ltb_spec (- x) two53); [|lia].
    destruct x as [|p|p]; [lia | lia | reflexivity].
  - destruct (Z.ltb_spec x two53); [reflexivity | lia].
Qed.

Lemma nearest_even_cases (n d : Z) :
  nearest_even n d = (n / d)%Z
  \/ (nearest_even n d = (n / d + 1)%Z /\ (d <= 2 * (n mod d))%Z).
Proof.
  unfold nearest_even.
  destruct (Z.ltb_spec (2 * (n mod d)) d); [left; reflexivity|].
  destruct (Z.ltb_spec d (2 * (n mod d))); [right; split; [reflexivity | lia]|].
  destruct (Z.even (n / d)); [left; reflexivity | right; split; [reflexivity | lia]].
Qed.

(** Below 2^53 the rounding of the quotient never reaches the next
    integer, so the floor is that of the exact quotient. *)
Lemma floor_div_safe (a b : Z) :
  (0 <= a < two53)%Z -> (0 < b)%Z -> floor_div a b = (a / b)%Z.
Proof.
  intros [Ha Hlt] Hb. unfold floor_div.
  destruct (Z.ltb_spec a b) as [L|L].
  { symmetry. apply Z.div_small. lia. }
  set (k := (a / b)%Z).
  assert (Hk : (1 <= k)%Z).
  { unfold k. apply Z.div_le_lower_bound; lia. }
  assert (Hka : (k * b <= a < k * b + b)%Z).
  { unfold k. pose proof (Z.div_mod a b ltac:(lia)).
    pose proof (Z.mod_pos_bound a b Hb). nia. }
  destruct (Z.log2_spec k ltac:(lia)) as [E1 E2].
  set (e := Z.log2 k) in *.
  assert (He0 : (0 <= e)%Z) by apply Z.log2_nonneg.
  assert (He : (e <= 52)%Z).
  { assert (K : (k < 2 ^ 53)%Z) by (unfold two53 in Hlt; nia).
    apply Z.log2_lt_pow2 in K; [fold e in K; lia | lia]. }
  destruct (Z.leb_spec e 52); [|lia].
  set (P := (2 ^ (52 - e))%Z).
  assert (HP : (0 < P)%Z) by (apply Z.pow_pos_nonneg; lia).
  assert (H2P : (2 ^ e * (2 * P) = two53)%Z).
  { unfold P, two53. replace 53%Z with (e + (1 + (52 - e)))%Z by lia.
    rewrite !Z.pow_add_r by lia. change (2 ^ 1)%Z with 2%Z. ring. }
  assert (HbP : (b < 2 * P)%Z) by nia.
  set (n := (a * P)%Z).
  pose proof (Z.div_mod n b ltac:(lia)) as Dn.
  pose proof (Z.mod_pos_bound n b Hb) as Bn.
  set (q := (n / b)%Z) in *. set (r := (n mod b)%Z) in *.
  assert (Hq : (k * P <= q <= k * P + P - 1)%Z).
  { unfold n in Dn. split; nia. }
  destruct (nearest_even_cases n b) as [->|[-> Hr]]; fold q.
  - symmetry. apply Z.div_unique with (r := (q - k * P)%Z); [left|]; lia.
  - fold r in Hr.
    assert (Hq' : (q <= k * P + P - 2)%Z).
    { destruct (Z.eq_dec q (k * P + P - 1)) as [Eq|]; [|lia].
      exfalso. unfold n in Dn. nia. }
    symmetry. apply Z.div_unique with (r := (q + 1 - k * P)%Z); [left|]; lia.
Qed.

End NumberFacts.

(** C8, as stated, fails from 2^53 on, where the quotient by 3600 and
    its numeral are those of a double: at 10^21 seconds (a double) the
    hours come out as 277777777777777792, printed with seventeen
    significant digits, while floor(10^21 / 3600) is
    277777777777777777. *)
Lemma formatTime_rounds_large_hours :
  Js.to_double (10 ^ 21) = (10 ^ 21)%Z
  /\ Limit.formatTime (10 ^ 21) = Js.lit "277777777777777800:46:40"
  /\ (10 ^ 21 / 3600 = 277777777777777777)%Z
  /\ Js.floor_div (10 ^ 21) 3600 = 277777777777777792%Z
  /\ Js.str_eqb (Limit.formatTime (10 ^ 21))
       (Reference.two_digits (10 ^ 21 / 3600) ++ Js.lit ":"
        ++ Reference.two_digits ((10 ^ 21 mod 3600) / 60) ++ Js.lit ":"
        ++ Reference.two_digits (10 ^ 21 mod 60)) = false.
Proof. repeat split; vm_compute; reflexivity. Qed.

(** C8, amended.  [formatTime] is total on integers and zero-padded: for
    s <= 0 it is '00:00:00'; for 0 < s < 2^53 it is the hours
    floor(s/3600), the minutes floor((s mod 3600)/60) and the seconds
    s mod 60, joined by colons and each rendered with at least two digits
    (a leading zero below ten), where such a rendering has length at
    least 2 and reads back as the number. *)
Theorem formatTime_is_padded_hms :
  forall s : Z,
    ((s <= 0)%Z -> Limit.formatTime s = Js.lit "00:00:00")
    /\ ((0 < s < 2 ^ 53)%Z ->
        Limit.formatTime s
        = Reference.two_digits (s / 3600) ++ Js.lit ":"
          ++ Reference.two_digits ((s mod 3600) / 60) ++ Js.lit ":"
          ++ Reference.two_digits (s mod 60))
    /\ (forall n : Z, (0 <= n)%Z ->
          (2 <= length (Reference.two_digits n))%nat
          /\ Reference.parseDec (Reference.two_digits n) = Some (Z.to_N n)).
Proof.
  intros s. split; [|split].
  - intros H. unfold Limit.formatTime.
    destruct (Z.leb_spec s 0); [reflexivity | lia].
  - intros [H Hs]. unfold Limit.formatTime.
    destruct (Z.leb_spec s 0); [lia|].
    pose proof (Z.mod_pos_bound s 3600 ltac:(lia)) as M1.
    pose proof (Z.mod_pos_bound s 60 ltac:(lia)) as M2.
    assert (T : (Js.two53 = 2 ^ 53)%Z) by reflexivity.
    assert (B : (2 ^ 53 = 9007199254740992)%Z) by reflexivity.
    rewrite (floor_div_safe s 3600) by lia.
    rewrite (floor_div_safe (s mod 3600) 60) by lia.
    assert (D1 : (0 <= s / 3600 <= s)%Z).
    { split; [apply Z.div_pos; lia | apply Z.div_le_upper_bound; lia]. }
    assert (D2 : (0 <= s mod 3600 / 60 <= s mod 3600)%Z).
    { split; [apply Z.div_pos; lia | apply Z.div_le_upper_bound; lia]. }
    rewrite !Number_toString_safe by lia.
    rewrite !padStart_two_digits; [reflexivity | | |]; lia.
  - apply two_digits_ok.
Qed.

Lemma formatTime_is_padded_hms_witness :
  Limit.formatTime (-5) = Js.lit "00:00:00"
  /\ Limit.formatTime 3661 = Js.lit "01:01:01"
  /\ Limit.formatTime 360000 = Js.lit "100:00:00".
Proof.
  split; [|split].
  - exact (proj1 (formatTime_is_padded_hms (-5)) ltac:(lia)).
  - exact (proj1 (proj2 (formatTime_is_padded_hms 3661)) ltac:(lia)).
  - exact (proj1 (proj2 (formatTime_is_padded_hms 360000)) ltac:(lia)).
Defined.

(* --------------------------------------------------------------------- *)
(** ** The streaming reader                                               *)
(* --------------------------------------------------------------------- *)

Section StreamingFacts.
Import Js Streaming StreamingReference.

Variable JSON_parse : jsstring -> parsed.

Lemma shown_app_chunk full c s : shown (full ++ c :: s) = Some (full ++ c :: s).
Proof. destruct full; reflexivity. Qed.

Lemma advance_nil st : reading st -> advance st [] = st.
Proof.
  destruct st as [f m t i n l]. intros (Hm & Ht & Hi & Hn & Hl); simpl in *.
  subst. unfold advance; simpl. rewrite app_nil_r. reflexivity.
Qed.

Lemma reading_advance st cs : reading (advance st cs).
Proof. repeat split. Qed.

Lemma advance_advance st cs cs' :
  advance (advance st cs) cs' = advance st (cs ++ cs').
Proof. unfold advance; simpl. rewrite concat_app, app_assoc. reflexivity. Qed.

Lemma on_chunk_advance st d : reading st -> on_chunk d st = advance st (chunk_of d).
Proof.
  intros R. unfold on_chunk, chunk_of.
  destruct (truthy (chunk d)) as [c|] eqn:E.
  - destruct R as (Hm & Ht & Hi & Hn & Hl). unfold advance. simpl.
    rewrite app_nil_r, Ht, Hi, Hn, Hl.
    destruct (chunk d) as [[|x c']|]; try discriminate. injection E as <-.
    rewrite shown_app_chunk. reflexivity.
  - symmetry. apply advance_nil, R.
Qed.

Lemma on_lines_collect (lines : list jsstring) :
  forall st, reading st ->
    on_lines JSON_parse st lines
    = flow_of st (fst (collect JSON_parse lines)) (snd (collect JSON_parse lines)).
Proof.
  induction lines as [|line rest IH]; intros st R.
  - simpl. rewrite (advance_nil _ R). reflexivity.
  - cbn [on_lines collect]. unfold on_line.
    destruct (startsWith line data_prefix); [|apply IH, R].
    destruct (JSON_parse (slice_from 6 line)) as [| |d].
    + apply IH, R.
    + cbn [fst snd flow_of]. rewrite (advance_nil _ R). reflexivity.
    + rewrite (on_chunk_advance _ d R).
      destruct (done d); [reflexivity|].
      destruct (truthy (error d)); [reflexivity|].
      rewrite (IH _ (reading_advance st (chunk_of d))).
      destruct (collect JSON_parse rest) as [cs e]; cbn [fst snd flow_of].
      destruct e; cbn [flow_of]; rewrite advance_advance; reflexivity.
Qed.

Lemma collect_app (l1 l2 : list jsstring) :
  collect JSON_parse (l1 ++ l2)
  = match snd (collect JSON_parse l1) with
    | Exhausted =>
        (fst (collect JSON_parse l1) ++ fst (collect JSON_parse l2),
         snd (collect JSON_parse l2))
    | _ => collect JSON_parse l1
    end.
Proof.
  induction l1 as [|line rest IH]; cbn [app collect fst snd].
  - destruct (collect JSON_parse l2); reflexivity.
  - destruct (startsWith line data_prefix); [|exact IH].
    destruct (JSON_parse (slice_from 6 line)) as [| |d]; [exact IH | reflexivity |].
    destruct (done d); [reflexivity|].
    destruct (truthy (error d)); [reflexivity|].
    rewrite IH.
    destruct (collect JSON_parse rest) as [cs e]; cbn [fst snd].
    destruct e; try reflexivity.
    destruct (collect JSON_parse l2) as [cs2 e2]; cbn [fst snd].
    rewrite app_assoc. reflexivity.
Qed.

Lemma split_app_newline (x y : jsstring) :
  split c_newline (x ++ c_newline :: y) = split c_newline x ++ split c_newline y.
Proof.
  induction x as [|c x IH]; [reflexivity|].
  cbn [app split]. rewrite IH.
  destruct (c =? c_newline)%N; [reflexivity|].
  destruct (split c_newline x) as [|l ls] eqn:E; [|reflexivity].
  destruct x as [|d x]; [discriminate E|]. cbn [split] in E.
  destruct (d =? c_newline)%N; [discriminate E|].
  destruct (split c_newline x); discriminate E.
Qed.

Lemma collect_empty_line (rest : list jsstring) :
  collect JSON_parse ([] :: rest) = collect JSON_parse rest.
Proof. reflexivity. Qed.

Lemma collect_app_same (l a b : list jsstring) :
  collect JSON_parse a = collect JSON_parse b ->
  collect JSON_parse (l ++ a) = collect JSON_parse (l ++ b).
Proof. intros H. rewrite !collect_app, H. reflexivity. Qed.

(** When no line is cut by a read boundary, the reader goes through the
    lines of the text received, and through empty lines besides. *)
Lemma collect_aligned (reads : list jsstring) :
  aligned reads = true ->
  collect JSON_parse (lines_of reads) = collect JSON_parse (wire_lines reads).
Proof.
  unfold wire_lines. induction reads as [|r rest IH]; intros A; [reflexivity|].
  destruct rest as [|r2 rest].
  - cbn [lines_of flat_map concat]. rewrite !app_nil_r. reflexivity.
  - cbn [aligned] in A. apply andb_true_iff in A as [E A].
    specialize (IH A).
    change (lines_of (r :: r2 :: rest))
      with (split c_newline r ++ lines_of (r2 :: rest)).
    change (concat (r :: r2 :: rest)) with (r ++ concat (r2 :: rest)).
    destruct r as [|c r]; [exact IH|].
    unfold ends_line in E. apply N.eqb_eq in E.
    assert (N : c :: r <> []) by discriminate.
    pose proof (@app_removelast_last char16 (c :: r) 0%N N) as D.
    rewrite E in D.
    set (r' := removelast (c :: r)) in D. rewrite D.
    rewrite <- app_assoc. cbn [app]. rewrite !split_app_newline.
    rewrite <- app_assoc. apply collect_app_same.
    change (split c_newline []) with [@nil char16]. cbn [app].
    rewrite collect_empty_line. exact IH.
Qed.

Lemma read_loop_collect (rs : list jsstring) (fails : bool) :
  forall st, reading st ->
    read_loop JSON_parse st rs fails
    = match snd (collect JSON_parse (lines_of rs)) with
      | Exhausted =>
          if fails
          then Throw (advance st (fst (collect JSON_parse (lines_of rs))))
          else Continue (advance st (fst (collect JSON_parse (lines_of rs))))
      | e => flow_of st (fst (collect JSON_parse (lines_of rs))) e
      end.
Proof.
  induction rs as [|value rs IH]; intros st R.
  - cbn. rewrite (advance_nil _ R). reflexivity.
  - cbn [read_loop lines_of flat_map]. rewrite (on_lines_collect _ _ R), collect_app.
    fold (lines_of rs).
    destruct (collect JSON_parse (split c_newline value)) as [cs e];
      cbn [fst snd flow_of].
    destruct e; try reflexivity.
    cbn [flow_of].
    rewrite (IH _ (reading_advance st cs)).
    destruct (collect JSON_parse (lines_of rs)) as [cs2 e2]; cbn [fst snd flow_of].
    destruct e2; cbn [flow_of]; rewrite ?advance_advance; try reflexivity.
Qed.

End StreamingFacts.

Section StreamingMessagesFacts.
Import Js Streaming StreamingReference.

Variable JSON_parse : jsstring -> parsed.
Variable emailAnchor feedbackAnchor : jsstring.
Variable jsonReply : StreamingMessages.state -> bool * StreamingMessages.state.

Lemma startsWith_app (a b q : jsstring) :
  startsWith a q = true -> startsWith (a ++ b) q = true.
Proof.
  revert a. induction q as [|c q IH]; intros a H;
    [destruct a; [destruct b|]; reflexivity|].
  destruct a as [|d a]; [discriminate H|]. cbn [startsWith app] in *.
  apply andb_true_iff in H as [H1 H2]. rewrite H1, (IH a H2). reflexivity.
Qed.

Lemma includes_app (a b q : jsstring) :
  includes a q = true -> includes (a ++ b) q = true.
Proof.
  induction a as [|d a IH]; cbn [includes app]; intros H.
  - rewrite orb_false_r in H. destruct q; [|discriminate H].
    destruct b; reflexivity.
  - apply orb_true_iff in H as [H|H].
    + change (d :: a ++ b) with ((d :: a) ++ b).
      rewrite (startsWith_app (d :: a) b q H). reflexivity.
    + rewrite (IH H). apply orb_true_r.
Qed.

Lemma has_marker_prefix (a b : jsstring) :
  StreamingMessages.has_marker (a ++ b) = false ->
  StreamingMessages.has_marker a = false.
Proof.
  unfold StreamingMessages.has_marker. intros H.
  apply orb_false_iff in H as [H1 H2]. apply orb_false_iff. split.
  - destruct (includes a (lit "[[EMAIL:")) eqn:E; [|reflexivity].
    rewrite (includes_app a b _ E) in H1. discriminate H1.
  - destruct (includes a (lit "[[FEEDBACK:")) eqn:E; [|reflexivity].
    rewrite (includes_app a b _ E) in H2. discriminate H2.
Qed.

Lemma messages_advance_nil st :
  StreamingMessages.reading st -> StreamingMessages.advance st [] = st.
Proof.
  destruct st as [f fb m t i n l]. intros (Hf & Hm & Ht & Hi & Hn & Hl).
  simpl in *. subst. unfold StreamingMessages.advance; simpl.
  rewrite app_nil_r. reflexivity.
Qed.

Lemma messages_reading_advance st cs :
  StreamingMessages.reading (StreamingMessages.advance st cs).
Proof. repeat split. Qed.

Lemma messages_advance_advance st cs cs' :
  StreamingMessages.advance (StreamingMessages.advance st cs) cs'
  = StreamingMessages.advance st (cs ++ cs').
Proof.
  unfold StreamingMessages.advance; simpl.
  rewrite concat_app, app_assoc. reflexivity.
Qed.

Lemma messages_on_chunk st d :
  StreamingMessages.reading st ->
  StreamingMessages.has_marker
    (StreamingMessages.fullResponse st ++ concat (chunk_of d)) = false ->
  StreamingMessages.on_chunk emailAnchor feedbackAnchor d st
  = StreamingMessages.advance st (chunk_of d).
Proof.
  intros R Hm. unfold StreamingMessages.on_chunk, chunk_of in *.
  destruct (truthy (chunk d)) as [c|] eqn:E.
  - destruct R as (Hf & He & Ht & Hi & Hn & Hl).
    cbn [concat] in Hm. rewrite app_nil_r in Hm.
    rewrite Hf, Hm. cbn [orb].
    unfold StreamingMessages.updateStreamingMessage, StreamingMessages.set_element.
    cbn [StreamingMessages.fullResponse StreamingMessages.isFallbackMessage
         StreamingMessages.typingIndicator StreamingMessages.isTyping
         StreamingMessages.sendButtonUpdates StreamingMessages.console].
    rewrite Hm, Ht, Hi, Hn, Hl.
    unfold StreamingMessages.advance. cbn [concat]. rewrite app_nil_r. reflexivity.
  - symmetry. apply messages_advance_nil, R.
Qed.

Lemma messages_on_lines (lines : list jsstring) :
  forall st, StreamingMessages.reading st ->
    StreamingMessages.has_marker
      (StreamingMessages.fullResponse st
       ++ concat (fst (collect JSON_parse lines))) = false ->
    StreamingMessages.on_lines JSON_parse emailAnchor feedbackAnchor st lines
    = messages_flow emailAnchor feedbackAnchor st (fst (collect JSON_parse lines))
        (snd (collect JSON_parse lines)).
Proof.
  induction lines as [|line rest IH]; intros st R Hm.
  - cbn. rewrite (messages_advance_nil _ R). reflexivity.
  - cbn [StreamingMessages.on_lines collect] in *.
    unfold StreamingMessages.on_line.
    destruct (startsWith line data_prefix); [|apply IH; assumption].
    destruct (JSON_parse (slice_from 6 line)) as [| |d].
    + apply IH; assumption.
    + cbn [fst snd messages_flow]. rewrite (messages_advance_nil _ R). reflexivity.
    + destruct (done d).
      { cbn [fst snd] in *. rewrite (messages_on_chunk _ d R Hm). reflexivity. }
      destruct (truthy (error d)).
      { cbn [fst snd] in *. rewrite (messages_on_chunk _ d R Hm). reflexivity. }
      destruct (collect JSON_parse rest) as [cs e] eqn:Ec. cbn [fst snd] in *.
      rewrite concat_app, app_assoc in Hm.
      rewrite (messages_on_chunk _ d R (has_marker_prefix _ _ Hm)).
      rewrite (IH _ (messages_reading_advance st (chunk_of d))).
      * cbn [fst snd]. destruct e; cbn [messages_flow];
          rewrite messages_advance_advance; reflexivity.
      * cbn [fst StreamingMessages.advance StreamingMessages.fullResponse].
        exact Hm.
Qed.

Lemma messages_read_loop (rs : list jsstring) (fails : bool) :
  forall st, StreamingMessages.reading st ->
    StreamingMessages.has_marker
      (StreamingMessages.fullResponse st
       ++ concat (fst (collect JSON_parse (lines_of rs)))) = false ->
    snd (collect JSON_parse (lines_of rs)) = SawDone ->
    StreamingMessages.read_loop JSON_parse emailAnchor feedbackAnchor st rs fails
    = messages_flow emailAnchor feedbackAnchor st
        (fst (collect JSON_parse (lines_of rs))) SawDone.
Proof.
  induction rs as [|value rs IH]; intros st R Hm Hd.
  - discriminate Hd.
  - cbn [StreamingMessages.read_loop lines_of flat_map] in *.
    fold (lines_of rs) in *. rewrite collect_app in Hm, Hd |- *.
    destruct (collect JSON_parse (split c_newline value)) as [cs e] eqn:Ec.
    cbn [fst snd] in *.
    destruct e; cbn [fst snd] in *; try discriminate Hd.
    + pose proof (messages_on_lines (split c_newline value) st R) as L.
      rewrite Ec in L. cbn [fst snd] in L. rewrite (L Hm). reflexivity.
    + rewrite concat_app, app_assoc in Hm.
      pose proof (messages_on_lines (split c_newline value) st R) as L.
      rewrite Ec in L. cbn [fst snd] in L.
      rewrite (L (has_marker_prefix _ _ Hm)). cbn [messages_flow].
      rewrite (IH _ (messages_reading_advance st cs)); [|exact Hm | exact Hd].
      cbn [messages_flow]. rewrite messages_advance_advance. reflexivity.
Qed.

End StreamingMessagesFacts.

(** C2, as stated, fails, in chat.js and in the chat-messages variant
    alike: a stream that delivers the single chunk "a  b" (two spaces)
    and then the done signal returns true and leaves "a b" in the message
    element, which is not the concatenation of the chunks received. *)
Lemma final_text_is_cleaned_not_concatenated :
  let r := Streaming.tryStreaming StreamingReference.parse_two
             (Streaming.Response true (Some StreamingReference.two_lines))
             Streaming.entry in
  let r' := StreamingMessages.tryStreaming StreamingReference.parse_two [] []
              (fun st => (false, st))
              (StreamingMessages.Response true false
                 (Some StreamingReference.two_lines))
              StreamingMessages.entry in
  StreamingReference.collect StreamingReference.parse_two
    (StreamingReference.wire_lines (Streaming.reads StreamingReference.two_lines))
  = ([Js.lit "a  b"], StreamingReference.SawDone)
  /\ fst r = true
  /\ Streaming.messageElement (snd r) = Some (Js.lit "a b")
  /\ fst r' = true
  /\ StreamingMessages.messageElement (snd r')
     = Some (StreamingMessages.Text (Js.lit "a b"))
  /\ Js.str_eqb (Js.lit "a b") (concat [Js.lit "a  b"]) = false.
Proof. vm_compute. repeat split. Qed.

(** C2, amended.  On an ok response with a body, for every parser and
    every sequence of reads that cuts no line (every read but the last
    is empty or ends with a line feed), [tryStreaming] of chat.js
    accumulates exactly the concatenation, in arrival order, of the
    chunk fields of the lines received, up to the line that ends the
    exchange.  While chunks arrive and when the stream ends without a
    done signal the message element holds that concatenation; once the
    done signal arrives the element holds [cleanMessageText] of it; there
    is no element when no chunk came.  In the chat-messages variant, when
    the done signal arrives and neither the concatenation nor its
    cleaned text carries one of the link markers, the element holds the
    variant's [cleanMessageText] of the concatenation as well. *)
Theorem streaming_accumulates_then_cleans :
  forall (JSON_parse : Js.jsstring -> Streaming.parsed)
         (reads : list Js.jsstring) (fails : bool),
    StreamingReference.aligned reads = true ->
    let found :=
      StreamingReference.collect JSON_parse (StreamingReference.wire_lines reads) in
    let full := concat (fst found) in
    Streaming.tryStreaming JSON_parse
      (Streaming.Response true (Some (Streaming.Stream reads fails)))
      Streaming.entry
    = StreamingReference.expected (fst found) (snd found) fails
    /\ (forall emailAnchor feedbackAnchor jsonReply,
          snd found = StreamingReference.SawDone ->
          StreamingMessages.has_marker full = false ->
          StreamingMessages.has_link_marker
            (CleanMessages.cleanMessageText full) = false ->
          StreamingMessages.tryStreaming JSON_parse emailAnchor feedbackAnchor
            jsonReply
            (StreamingMessages.Response true false
               (Some (Streaming.Stream reads fails)))
            StreamingMessages.entry
          = (true,
             StreamingMessages.State full false
               (Some (StreamingMessages.Text (CleanMessages.cleanMessageText full)))
               false false 2 [])).
Proof.
  intros JSON_parse reads fails A found full.
  pose proof (collect_aligned JSON_parse reads A) as W. fold found in W.
  split.
  - unfold Streaming.tryStreaming; simpl.
    assert (R : StreamingReference.reading (Streaming.State [] None false true 1 []))
      by (repeat split).
    rewrite (read_loop_collect JSON_parse reads fails _ R), W.
    subst full. destruct found as [cs e]; simpl.
    unfold StreamingReference.expected.
    destruct e; simpl.
    + unfold Streaming.on_done, StreamingReference.cleaned; simpl.
      destruct (concat cs); reflexivity.
    + reflexivity.
    + destruct fails; reflexivity.
  - intros emailAnchor feedbackAnchor jsonReply Hd Hm Hl.
    unfold StreamingMessages.tryStreaming.
    cbn [StreamingMessages.entry StreamingMessages.typingIndicator
         StreamingMessages.isTyping StreamingMessages.sendButtonUpdates
         StreamingMessages.console Streaming.reads Streaming.read_fails].
    assert (R : StreamingMessages.reading
                  (StreamingMessages.State [] false
                     (Some (StreamingMessages.Text [])) false true 1 []))
      by (repeat split).
    subst full. rewrite <- W in Hd, Hm, Hl |- *.
    rewrite (messages_read_loop JSON_parse emailAnchor feedbackAnchor reads fails
               _ R Hm Hd).
    cbn [StreamingReference.messages_flow].
    unfold StreamingMessages.on_done, StreamingMessages.advance.
    cbn [StreamingMessages.messageElement StreamingMessages.fullResponse
         StreamingMessages.isFallbackMessage app].
    rewrite Hl. reflexivity.
Qed.

Lemma streaming_accumulates_then_cleans_witness :
  StreamingMessages.tryStreaming StreamingReference.parse_two [] []
    (fun st => (false, st))
    (StreamingMessages.Response true false (Some StreamingReference.two_lines))
    StreamingMessages.entry
  = (true,
     StreamingMessages.State (Js.lit "a  b") false
       (Some (StreamingMessages.Text (Js.lit "a b"))) false false 2 []).
Proof.
  exact (proj2 (streaming_accumulates_then_cleans StreamingReference.parse_two
                  (Streaming.reads StreamingReference.two_lines) false eq_refl)
           [] [] (fun st => (false, st)) eq_refl eq_refl eq_refl).
Defined.

(** Where a read ends inside a line the reader can lose a chunk: it
    carries nothing over from one read to the next, so both halves of
    the line of the chunk "a  b" fail to parse and are skipped; the call
    returns true with nothing accumulated and no message element. *)
Lemma cut_line_is_lost :
  StreamingReference.aligned (Streaming.reads StreamingReference.cut_lines)
  = false
  /\ concat (Streaming.reads StreamingReference.cut_lines)
     = concat (Streaming.reads StreamingReference.two_lines)
  /\ StreamingReference.collect StreamingReference.parse_two
       (StreamingReference.wire_lines
          (Streaming.reads StreamingReference.cut_lines))
     = ([Js.lit "a  b"], StreamingReference.SawDone)
  /\ Streaming.tryStreaming StreamingReference.parse_two
       (Streaming.Response true (Some StreamingReference.cut_lines))
       Streaming.entry
     = (true, Streaming.State [] None false false 2 []).
Proof. vm_compute. repeat split. Qed.

(* --------------------------------------------------------------------- *)
(** ** The matcher and the replace loop                                   *)
(* --------------------------------------------------------------------- *)

Section MatcherFacts.
Import Js.

Variable p : char16 -> bool.
Variable k : jsstring -> option (list jsstring * jsstring).

(** A greedy class takes the whole run when the rest of the pattern
    accepts what follows it. *)
Lemma star_takes_run (run rest : jsstring) ms out :
  forallb p run = true ->
  k rest = Some (ms, out) ->
  match rest with [] => True | c :: _ => p c = false end ->
  star p k (run ++ rest) = Some (run :: ms, out).
Proof.
  intros Hrun Hk Hrest. induction run as [|a run IH]; simpl in *.
  - destruct rest as [|c rest']; simpl.
    + rewrite Hk. reflexivity.
    + rewrite Hrest, Hk. reflexivity.
  - apply andb_true_iff in Hrun as [Ha Hrun]. rewrite Ha, (IH Hrun). reflexivity.
Qed.

(** It fails when the rest of the pattern rejects every suffix. *)
Lemma star_fails (s : jsstring) :
  (forall pre x, s = pre ++ x -> k x = None) ->
  star p k s = None.
Proof.
  induction s as [|c s IH]; intros H; simpl.
  - rewrite (H [] [] eq_refl). reflexivity.
  - rewrite (H [] (c :: s) eq_refl). simpl.
    rewrite IH; [destruct (p c); reflexivity|].
    intros pre x E. apply (H (c :: pre) x). simpl. rewrite E. reflexivity.
Qed.

End MatcherFacts.

Section ReplaceFacts.
Import Js.

Variable m : jsstring -> option (list jsstring * jsstring).
Variable f : list jsstring -> jsstring.

Lemma replace_go_skip (n : nat) :
  forall s, (n <= length s)%nat ->
    replace_go m f n s = replace_go m f 0 (skipn n s).
Proof.
  induction n as [|n IH]; intros s H; [reflexivity|].
  destruct s as [|c s]; [simpl in H; lia|].
  simpl in H. cbn [replace_go skipn]. apply IH. lia.
Qed.

Lemma replace_go_nomatch (c : char16) (s : jsstring) :
  m (c :: s) = None ->
  replace_go m f 0 (c :: s) = c :: replace_go m f 0 s.
Proof. intros H. cbn [replace_go]. rewrite H. reflexivity. Qed.

Lemma replace_go_nil :
  m [] = None -> replace_go m f 0 [] = [].
Proof. intros H. cbn [replace_go]. rewrite H. reflexivity. Qed.

Lemma replace_go_match (c : char16) (s : jsstring) ms rest n :
  m (c :: s) = Some (ms, rest) ->
  length (concat ms) = S n ->
  (n <= length s)%nat ->
  replace_go m f 0 (c :: s) = f ms ++ replace_go m f 0 (skipn n s).
Proof.
  intros H L Hn. cbn [replace_go]. rewrite H, L.
  rewrite replace_go_skip by exact Hn. reflexivity.
Qed.

(** Where the pattern matches at no position, nothing is replaced. *)
Lemma replace_go_id (s : jsstring) :
  (forall pre x, s = pre ++ x -> m x = None) ->
  replace_go m f 0 s = s.
Proof.
  induction s as [|c s IH]; intros H.
  - apply replace_go_nil, (H [] [] eq_refl).
  - rewrite replace_go_nomatch by apply (H [] (c :: s) eq_refl).
    f_equal. apply IH. intros pre x E.
    apply (H (c :: pre) x). simpl. rewrite E. reflexivity.
Qed.

End ReplaceFacts.

(** A pattern matches nowhere in a text none of whose code units is in
    the class of its first atom. *)
Lemma first_class_rejects (cl : Js.char16 -> bool) (q : Js.quant)
    (r : list Js.atom) (s : Js.jsstring) :
  q = Js.One \/ q = Js.Plus ->
  forallb (fun c => negb (cl c)) s = true ->
  forall pre x, s = pre ++ x -> Js.match_atoms (Js.Atom cl q :: r) false x = None.
Proof.
  intros Hq Hs pre x ->. rewrite forallb_app in Hs.
  apply andb_true_iff in Hs as [_ Hx].
  destruct x as [|d x]; [destruct Hq as [-> | ->]; reflexivity|].
  simpl in Hx. apply andb_true_iff in Hx as [Hd _].
  apply negb_true_iff in Hd.
  destruct Hq as [-> | ->]; cbn [Js.match_atoms Js.qnt Js.cls];
    rewrite Hd; reflexivity.
Qed.

Lemma first_unit_absent (c : Js.char16) (q : Js.quant) (r : list Js.atom)
    (s : Js.jsstring) :
  q = Js.One \/ q = Js.Plus ->
  forallb (Js.except c) s = true ->
  forall pre x, s = pre ++ x -> Js.match_atoms (Js.Atom (Js.only c) q :: r) false x = None.
Proof. intros Hq Hs. apply (first_class_rejects (Js.only c) q r s Hq Hs). Qed.

(* --------------------------------------------------------------------- *)
(** ** replaceAsterisksInText                                             *)
(* --------------------------------------------------------------------- *)

Section AsteriskFacts.
Import Js Clean CleanReference.

Lemma closing_asterisk (x : jsstring) :
  match_atoms [Atom (only c_star) One] false x
  = match x with
    | c :: x' => if (c =? c_star)%N then Some ([[c]], x') else None
    | [] => None
    end.
Proof.
  destruct x as [|c x']; [reflexivity|].
  cbn [match_atoms qnt cls]. unfold only. destruct (c =? c_star)%N; reflexivity.
Qed.

Lemma asterisk_unfold (s : jsstring) :
  match_atoms asterisk_pattern false s
  = match s with
    | c :: d :: s' =>
        if (c =? c_star)%N && except c_star d then
          push [c] (grow d (star (except c_star)
                              (match_atoms [Atom (only c_star) One] false) s'))
        else None
    | _ => None
    end.
Proof.
  destruct s as [|c [|d s']]; unfold asterisk_pattern;
    cbn [match_atoms qnt cls]; unfold only.
  - reflexivity.
  - destruct (c =? c_star)%N; reflexivity.
  - destruct (c =? c_star)%N; [|reflexivity].
    destruct (except c_star d); reflexivity.
Qed.

Lemma asterisk_match (content rest : jsstring) :
  no_asterisk content = true ->
  content <> [] ->
  match_atoms asterisk_pattern false (c_star :: content ++ c_star :: rest)
  = Some ([[c_star]; content; [c_star]], rest).
Proof.
  intros Hc Hne. destruct content as [|d content]; [contradiction|].
  unfold no_asterisk in Hc. simpl in Hc. apply andb_true_iff in Hc as [Hd Hc].
  rewrite asterisk_unfold. cbn [app]. rewrite Hd, N.eqb_refl. cbn [andb].
  rewrite (star_takes_run (except c_star) _ content (c_star :: rest)
             [[c_star]] rest Hc).
  - reflexivity.
  - rewrite closing_asterisk, N.eqb_refl. reflexivity.
  - reflexivity.
Qed.

Lemma asterisk_open (tail : jsstring) :
  no_asterisk tail = true ->
  match_atoms asterisk_pattern false (c_star :: tail) = None.
Proof.
  intros Ht. rewrite asterisk_unfold.
  destruct tail as [|d tail]; [reflexivity|].
  unfold no_asterisk in Ht. simpl in Ht. apply andb_true_iff in Ht as [Hd Ht].
  rewrite Hd, N.eqb_refl. cbn [andb]. rewrite star_fails; [reflexivity|].
  intros pre x E. rewrite closing_asterisk.
  destruct x as [|c x']; [reflexivity|].
  rewrite E, forallb_app in Ht. apply andb_true_iff in Ht as [_ Hx].
  simpl in Hx. apply andb_true_iff in Hx as [Hx _].
  unfold except in Hx. apply negb_true_iff in Hx. rewrite Hx. reflexivity.
Qed.

Lemma asterisk_double (s : jsstring) :
  match_atoms asterisk_pattern false (c_star :: c_star :: s) = None.
Proof. reflexivity. Qed.

Lemma asterisk_nowhere (s : jsstring) :
  no_asterisk s = true ->
  forall pre x, s = pre ++ x -> match_atoms asterisk_pattern false x = None.
Proof. intros H. apply first_unit_absent; [left; reflexivity | exact H]. Qed.

Lemma asterisk_other (c : char16) (s : jsstring) :
  except c_star c = true ->
  match_atoms asterisk_pattern false (c :: s) = None.
Proof.
  intros H. rewrite asterisk_unfold. unfold except in H.
  apply negb_true_iff in H. rewrite H. destruct s; reflexivity.
Qed.

Lemma replaceAsterisks_plain (plain x : jsstring) :
  no_asterisk plain = true ->
  replaceAsterisksInText (plain ++ x) = plain ++ replaceAsterisksInText x.
Proof.
  intros H. unfold replaceAsterisksInText, replace_all.
  induction plain as [|c plain IH]; [reflexivity|].
  unfold no_asterisk in H. simpl in H. apply andb_true_iff in H as [Hc H].
  cbn [app]. rewrite replace_go_nomatch.
  - f_equal. apply IH, H.
  - apply asterisk_other, Hc.
Qed.

Lemma replaceAsterisks_none (s : jsstring) :
  no_asterisk s = true -> replaceAsterisksInText s = s.
Proof. intros H. apply replace_go_id, asterisk_nowhere, H. Qed.

Lemma replaceAsterisks_span (content rest : jsstring) :
  no_asterisk content = true ->
  content <> [] ->
  replaceAsterisksInText (c_star :: content ++ c_star :: rest)
  = quoted content ++ replaceAsterisksInText rest.
Proof.
  intros Hc Hne. unfold replaceAsterisksInText, replace_all.
  rewrite (replace_go_match _ _ _ _ _ _ (S (length content))
             (asterisk_match content rest Hc Hne)).
  - unfold quoted. f_equal. f_equal.
    replace (S (length content)) with (length (content ++ [c_star]))
      by (rewrite length_app; simpl; lia).
    change (content ++ c_star :: rest) with (content ++ [c_star] ++ rest).
    rewrite app_assoc, skipn_app, Nat.sub_diag, skipn_all. reflexivity.
  - simpl. rewrite length_app. simpl. lia.
  - rewrite length_app. simpl. lia.
Qed.

End AsteriskFacts.

(* --------------------------------------------------------------------- *)
(** ** White space: trim, runs of white space, words                      *)
(* --------------------------------------------------------------------- *)

Section WhiteSpaceFacts.
Import Js Clean CleanReference.

Lemma leading_trimStart (s : jsstring) : leading s ++ trimStart s = s.
Proof.
  induction s as [|c s IH]; [reflexivity|]. simpl.
  destruct (isWhiteSpace c); simpl; [rewrite IH|]; reflexivity.
Qed.

Lemma skipn_leading (s : jsstring) : skipn (length (leading s)) s = trimStart s.
Proof.
  induction s as [|c s IH]; [reflexivity|]. simpl.
  destruct (isWhiteSpace c); simpl; [exact IH | reflexivity].
Qed.

Lemma length_leading (s : jsstring) : (length (leading s) <= length s)%nat.
Proof.
  induction s as [|c s IH]; simpl; [lia|].
  destruct (isWhiteSpace c); simpl; lia.
Qed.

Lemma length_trimStart (s : jsstring) : (length (trimStart s) <= length s)%nat.
Proof.
  induction s as [|c s IH]; simpl; [lia|].
  destruct (isWhiteSpace c); simpl; lia.
Qed.

Lemma trimStart_head (s : jsstring) c x :
  trimStart s = c :: x -> isWhiteSpace c = false.
Proof.
  induction s as [|d s IH]; simpl; [discriminate|].
  destruct (isWhiteSpace d) eqn:E; [exact IH|].
  intros [= <- _]. exact E.
Qed.

Lemma trimStart_fixed (c : char16) (s : jsstring) :
  isWhiteSpace c = false -> trimStart (c :: s) = c :: s.
Proof. intros H. simpl. rewrite H. reflexivity. Qed.

Lemma trimEnd_head (c : char16) (s : jsstring) :
  isWhiteSpace c = false -> exists y, trimEnd (c :: s) = c :: y.
Proof.
  intros H. simpl. destruct (trimEnd s); [rewrite H|]; eexists; reflexivity.
Qed.

Lemma trimEnd_idem (s : jsstring) : trimEnd (trimEnd s) = trimEnd s.
Proof.
  induction s as [|c s IH]; [reflexivity|]. cbn [trimEnd].
  destruct (trimEnd s) as [|d r] eqn:E.
  - destruct (isWhiteSpace c) eqn:Ec; [reflexivity|]. simpl. rewrite Ec. reflexivity.
  - cbn [trimEnd]. cbn [trimEnd] in IH. rewrite IH. reflexivity.
Qed.

Lemma trimEnd_tail (c : char16) (s : jsstring) :
  trimEnd (c :: s) = c :: s -> trimEnd s = s.
Proof.
  cbn [trimEnd]. destruct (trimEnd s) as [|d r].
  - destruct (isWhiteSpace c); [discriminate|]. intros [= <-]. reflexivity.
  - intros [= <-]. reflexivity.
Qed.

Lemma trimStart_nil_trimEnd (s : jsstring) : trimStart s = [] -> trimEnd s = [].
Proof.
  induction s as [|c s IH]; [reflexivity|]. simpl.
  destruct (isWhiteSpace c); [|discriminate].
  intros H. rewrite (IH H). reflexivity.
Qed.

Lemma trimEnd_trimStart (s : jsstring) :
  trimEnd s = s -> trimEnd (trimStart s) = trimStart s.
Proof.
  induction s as [|c s IH]; [reflexivity|]. intros H.
  cbn [trimStart]. destruct (isWhiteSpace c); [|exact H].
  apply IH, (trimEnd_tail _ _ H).
Qed.

Lemma trimEnd_white_head (c : char16) (s : jsstring) :
  trimEnd (c :: s) = c :: s -> isWhiteSpace c = true -> trimStart s <> [].
Proof.
  intros H Hc Hs. apply trimStart_nil_trimEnd in Hs.
  cbn [trimEnd] in H. rewrite Hs, Hc in H. discriminate.
Qed.

Lemma trim_head (s : jsstring) c x : trim s = c :: x -> isWhiteSpace c = false.
Proof.
  unfold trim. destruct (trimStart s) as [|d y] eqn:E; [discriminate|].
  pose proof (trimStart_head _ _ _ E) as Hd.
  destruct (trimEnd_head d y Hd) as [z Hz]. rewrite Hz. intros [= <- _]. exact Hd.
Qed.

Lemma trim_trimEnd (s : jsstring) : trimEnd (trim s) = trim s.
Proof. apply trimEnd_idem. Qed.

Lemma trim_fixed (s : jsstring) :
  trimEnd s = s ->
  match s with [] => True | c :: _ => isWhiteSpace c = false end ->
  trim s = s.
Proof.
  intros He Hs. unfold trim. destruct s as [|c s]; [reflexivity|].
  rewrite (trimStart_fixed c s Hs). exact He.
Qed.

Lemma trim_idem (s : jsstring) : trim (trim s) = trim s.
Proof.
  apply trim_fixed; [apply trim_trimEnd|].
  destruct (trim s) as [|c x] eqn:E; [exact I | exact (trim_head _ _ _ E)].
Qed.

(** The pattern for a run of white space. *)
Lemma star_white (s : jsstring) :
  star isWhiteSpace (match_atoms [] false) s = Some ([leading s], trimStart s).
Proof.
  induction s as [|c s IH]; [reflexivity|]. cbn [star leading trimStart].
  destruct (isWhiteSpace c); [rewrite IH|]; reflexivity.
Qed.

Lemma white_run_match (c : char16) (s : jsstring) :
  match_atoms white_run false (c :: s)
  = if isWhiteSpace c then Some ([c :: leading s], trimStart s) else None.
Proof.
  unfold white_run. cbn [match_atoms qnt cls].
  destruct (isWhiteSpace c); [|reflexivity]. rewrite star_white. reflexivity.
Qed.

Lemma split_go_skip (r : list atom) (s : jsstring) :
  forall n cur, split_go r n cur s = split_go r 0 cur (skipn n s).
Proof.
  induction s as [|c s IH]; intros n cur.
  - rewrite skipn_nil. reflexivity.
  - destruct n as [|n]; [reflexivity|]. cbn [split_go skipn]. apply IH.
Qed.

Lemma split_white (c : char16) (s cur : jsstring) :
  split_go white_run 0 cur (c :: s)
  = if isWhiteSpace c then rev cur :: split_go white_run 0 [] (trimStart s)
    else split_go white_run 0 (c :: cur) s.
Proof.
  cbn [split_go]. rewrite white_run_match.
  destruct (isWhiteSpace c); [|reflexivity].
  replace (concat [c :: leading s]) with (c :: leading s)
    by (simpl; rewrite app_nil_r; reflexivity).
  cbn [length]. rewrite split_go_skip, skipn_leading. reflexivity.
Qed.

Lemma words_go_trimStart (s : jsstring) : words_go [] (trimStart s) = words_go [] s.
Proof.
  induction s as [|c s IH]; [reflexivity|]. simpl.
  destruct (isWhiteSpace c) eqn:E; [exact IH|]. simpl. rewrite E. reflexivity.
Qed.

Lemma split_words (n : nat) :
  forall s cur,
    (length s <= n)%nat ->
    trimEnd s = s ->
    (cur <> [] \/ match s with [] => False | c :: _ => isWhiteSpace c = false end) ->
    split_go white_run 0 cur s = words_go cur s.
Proof.
  induction n as [|n IH]; intros s cur Hn He Hc.
  - destruct s; [|simpl in Hn; lia].
    destruct Hc as [Hc|[]]. destruct cur; [contradiction | reflexivity].
  - destruct s as [|c s].
    + destruct Hc as [Hc|[]]. destruct cur; [contradiction | reflexivity].
    + rewrite split_white. cbn [words_go]. simpl in Hn.
      destruct (isWhiteSpace c) eqn:Ec.
      * destruct Hc as [Hc|Hc]; [|discriminate].
        pose proof (trimEnd_white_head _ _ He Ec) as Hne.
        rewrite IH.
        -- rewrite words_go_trimStart. destruct cur; [contradiction | reflexivity].
        -- pose proof (length_trimStart s). lia.
        -- apply trimEnd_trimStart, (trimEnd_tail _ _ He).
        -- right. destruct (trimStart s) as [|d x] eqn:Ed; [contradiction|].
           exact (trimStart_head _ _ _ Ed).
      * apply IH; [lia | apply (trimEnd_tail _ _ He) | left; discriminate].
Qed.

Lemma words_go_nonempty (s cur : jsstring) : cur <> [] -> words_go cur s <> [].
Proof.
  revert cur. induction s as [|c s IH]; intros cur H; simpl.
  - destruct cur; [contradiction | discriminate].
  - destruct (isWhiteSpace c).
    + destruct cur; [contradiction | discriminate].
    + apply IH. discriminate.
Qed.

(** The count the callback computes is the number of words of the
    trimmed content, and 1 when there is none. *)
Lemma wordCount_words (content : jsstring) :
  wordCount content = Nat.max 1 (length (words (trim content))).
Proof.
  unfold wordCount, split_re, words.
  destruct (trim content) as [|c x] eqn:E; [reflexivity|].
  pose proof (trim_head _ _ _ E) as Hc.
  rewrite (split_words (length (c :: x)) (c :: x) []);
    [ | lia | rewrite <- E; apply trim_trimEnd | right; exact Hc].
  assert (H : words_go [] (c :: x) <> []).
  { simpl. rewrite Hc. apply words_go_nonempty. discriminate. }
  destruct (words_go [] (c :: x)); [contradiction|]. simpl. lia.
Qed.

End WhiteSpaceFacts.

(** C9, as stated, fails: in '*a*b*' the span '*b*' has content without
    an asterisk but shares its opening asterisk with '*a*', and only
    '*a*' is rewritten; and the span '**', whose content is empty, is
    left as it is. *)
Lemma shared_asterisk_span_is_not_rewritten :
  Clean.replaceAsterisksInText CleanScenario.shared_asterisk = Js.lit "'a'b*"
  /\ Js.includes CleanScenario.shared_asterisk (Js.lit "*b*") = true
  /\ Js.includes (Clean.replaceAsterisksInText CleanScenario.shared_asterisk)
                 (Js.lit "'b'") = false
  /\ Clean.replaceAsterisksInText CleanScenario.empty_span
     = CleanScenario.empty_span.
Proof. vm_compute. repeat split. Qed.

(** C9, amended.  [replaceAsterisksInText] scans from left to right.
    Text without an asterisk is returned unchanged.  After a prefix
    without asterisks: an asterisk followed by a non-empty content
    without asterisks and a closing asterisk becomes the quoted content,
    and the scan goes on after the closing asterisk; an asterisk followed
    by another asterisk is copied, and the scan goes on at the second
    one; an asterisk with no later asterisk is copied with all that
    follows.  The content is put in single quotes when its trimmed text
    has at most 2 white-space-separated words and in double quotes when
    it has 3 or more. *)
Theorem replaceAsterisksInText_scans_spans :
  forall plain content rest tail : Js.jsstring,
    CleanReference.no_asterisk plain = true ->
    CleanReference.no_asterisk content = true ->
    CleanReference.no_asterisk tail = true ->
    content <> [] ->
    Clean.replaceAsterisksInText plain = plain
    /\ Clean.replaceAsterisksInText
         (plain ++ [Clean.c_star] ++ content ++ [Clean.c_star] ++ rest)
       = plain ++ CleanReference.quoted content
         ++ Clean.replaceAsterisksInText rest
    /\ Clean.replaceAsterisksInText
         (plain ++ [Clean.c_star; Clean.c_star] ++ rest)
       = plain ++ [Clean.c_star]
         ++ Clean.replaceAsterisksInText ([Clean.c_star] ++ rest)
    /\ Clean.replaceAsterisksInText (plain ++ [Clean.c_star] ++ tail)
       = plain ++ [Clean.c_star] ++ tail
    /\ CleanReference.quoted content
       = (if (length (CleanReference.words (Js.trim content)) <=? 2)%nat
          then [Js.c_squote] ++ content ++ [Js.c_squote]
          else [Js.c_dquote] ++ content ++ [Js.c_dquote]).
Proof.
  intros plain content rest tail Hp Hc Ht Hne.
  split; [|split; [|split; [|split]]].
  - apply replaceAsterisks_none, Hp.
  - rewrite (replaceAsterisks_plain _ _ Hp). apply (f_equal (app plain)).
    apply (replaceAsterisks_span content rest Hc Hne).
  - rewrite (replaceAsterisks_plain _ _ Hp). apply (f_equal (app plain)).
    unfold Clean.replaceAsterisksInText, Js.replace_all. cbn [app].
    apply replace_go_nomatch, asterisk_double.
  - rewrite (replaceAsterisks_plain _ _ Hp). apply (f_equal (app plain)).
    unfold Clean.replaceAsterisksInText, Js.replace_all. cbn [app].
    rewrite replace_go_nomatch by apply (asterisk_open tail Ht).
    apply (f_equal (cons Clean.c_star)).
    apply replace_go_id, asterisk_nowhere, Ht.
  - unfold CleanReference.quoted, Clean.quote_span.
    rewrite wordCount_words.
    destruct (length (CleanReference.words (Js.trim content))) as [|[|[|n]]];
      reflexivity.
Qed.

Lemma replaceAsterisksInText_scans_spans_witness :
  Clean.replaceAsterisksInText
    (Js.lit "x " ++ [Clean.c_star] ++ Js.lit "a b c" ++ [Clean.c_star]
     ++ Js.lit " y")
  = Js.lit "x " ++ CleanReference.quoted (Js.lit "a b c")
    ++ Clean.replaceAsterisksInText (Js.lit " y")
  /\ CleanReference.quoted (Js.lit "a b c")
     = [Js.c_dquote] ++ Js.lit "a b c" ++ [Js.c_dquote].
Proof.
  pose proof (replaceAsterisksInText_scans_spans
                (Js.lit "x ") (Js.lit "a b c") (Js.lit " y") (Js.lit "z")
                eq_refl eq_refl eq_refl) as W.
  assert (Hne : Js.lit "a b c" <> []) by discriminate.
  destruct (W Hne) as (_ & A & _ & _ & B).
  split; [exact A | exact B].
Defined.

(* --------------------------------------------------------------------- *)
(** ** cleanMessageText on a plain line                                   *)
(* --------------------------------------------------------------------- *)

Section CollapseFacts.
Import Js Clean CleanReference CleanNormal.

Lemma collapse_cons (c : char16) (s : jsstring) :
  collapse (c :: s)
  = if isWhiteSpace c then c_space :: collapse (trimStart s)
    else c :: collapse s.
Proof.
  unfold collapse, replace_all.
  pose proof (white_run_match c s) as M.
  destruct (isWhiteSpace c).
  - rewrite (replace_go_match _ _ _ _ _ _ (length (leading s)) M).
    + rewrite skipn_leading. reflexivity.
    + simpl. rewrite app_nil_r. reflexivity.
    + apply length_leading.
  - apply replace_go_nomatch, M.
Qed.

Lemma tidy_tail (c : char16) (s : jsstring) : tidy (c :: s) = true -> tidy s = true.
Proof. cbn [tidy]. intros H. apply andb_true_iff in H as [_ H]. exact H. Qed.

Lemma tidy_white (c : char16) (s : jsstring) :
  tidy (c :: s) = true -> isWhiteSpace c = true ->
  c = c_space
  /\ match s with d :: _ => isWhiteSpace d = false | [] => True end.
Proof.
  cbn [tidy]. intros H Hc. rewrite Hc in H.
  apply andb_true_iff in H as [H _]. apply andb_true_iff in H as [H1 H2].
  apply N.eqb_eq in H1. split; [exact H1|].
  destruct s as [|d s]; [exact I|]. apply negb_true_iff, H2.
Qed.

Lemma tidy_trimStart_tail (c : char16) (s : jsstring) :
  tidy (c :: s) = true -> isWhiteSpace c = true -> trimStart s = s.
Proof.
  intros H Hc. destruct (tidy_white c s H Hc) as [_ Hs].
  destruct s as [|d s]; [reflexivity|]. apply trimStart_fixed, Hs.
Qed.

(** A tidy string is left as it is. *)
Lemma collapse_tidy (s : jsstring) : tidy s = true -> collapse s = s.
Proof.
  induction s as [|c s IH]; intros H; [reflexivity|].
  rewrite collapse_cons. pose proof (tidy_tail c s H) as Ht.
  destruct (isWhiteSpace c) eqn:Ec.
  - destruct (tidy_white c s H Ec) as [-> _].
    rewrite (tidy_trimStart_tail _ _ H Ec), (IH Ht). reflexivity.
  - rewrite (IH Ht). reflexivity.
Qed.

Lemma collapse_head (c : char16) (s : jsstring) :
  isWhiteSpace c = false -> collapse (c :: s) = c :: collapse s.
Proof. intros H. rewrite collapse_cons, H. reflexivity. Qed.

(** And every collapsed string is tidy. *)
Lemma tidy_collapse_bounded (n : nat) :
  forall s, (length s <= n)%nat -> tidy (collapse s) = true.
Proof.
  induction n as [|n IH]; intros s Hn.
  - destruct s; [reflexivity | simpl in Hn; lia].
  - destruct s as [|c s]; [reflexivity|]. simpl in Hn.
    rewrite collapse_cons. destruct (isWhiteSpace c) eqn:Ec.
    + assert (Hl : (length (trimStart s) <= n)%nat)
        by (pose proof (length_trimStart s); lia).
      cbn [tidy]. rewrite (IH _ Hl).
      change (isWhiteSpace c_space) with true. cbv iota.
      rewrite N.eqb_refl. cbn [andb].
      destruct (trimStart s) as [|d y] eqn:Ed; [reflexivity|].
      rewrite (collapse_head d y (trimStart_head _ _ _ Ed)).
      rewrite (trimStart_head _ _ _ Ed). reflexivity.
    + cbn [tidy]. rewrite Ec. apply IH. lia.
Qed.

Lemma tidy_collapse (s : jsstring) : tidy (collapse s) = true.
Proof. apply (tidy_collapse_bounded (length s)). lia. Qed.

Lemma forallb_trimStart (q : char16 -> bool) (s : jsstring) :
  forallb q s = true -> forallb q (trimStart s) = true.
Proof.
  induction s as [|c s IH]; [reflexivity|]. intros H. simpl.
  destruct (isWhiteSpace c); [|exact H].
  simpl in H. apply andb_true_iff in H as [_ H]. apply IH, H.
Qed.

Lemma forallb_trimEnd (q : char16 -> bool) (s : jsstring) :
  forallb q s = true -> forallb q (trimEnd s) = true.
Proof.
  induction s as [|c s IH]; [reflexivity|]. intros H.
  simpl in H. apply andb_true_iff in H as [Hc H]. cbn [trimEnd].
  specialize (IH H). destruct (trimEnd s) as [|d r].
  - destruct (isWhiteSpace c); simpl; [reflexivity | rewrite Hc; reflexivity].
  - cbn [forallb]. cbn [forallb] in IH. rewrite Hc, IH. reflexivity.
Qed.

Lemma forallb_trim (q : char16 -> bool) (s : jsstring) :
  forallb q s = true -> forallb q (trim s) = true.
Proof. intros H. apply forallb_trimEnd, forallb_trimStart, H. Qed.

Lemma forallb_collapse_bounded (q : char16 -> bool) (n : nat) :
  q c_space = true ->
  forall s, (length s <= n)%nat -> forallb q s = true ->
    forallb q (collapse s) = true.
Proof.
  intros Hq. induction n as [|n IH]; intros s Hn H.
  - destruct s; [reflexivity | simpl in Hn; lia].
  - destruct s as [|c s]; [reflexivity|]. simpl in Hn.
    simpl in H. apply andb_true_iff in H as [Hc H].
    rewrite collapse_cons. destruct (isWhiteSpace c).
    + cbn [forallb]. rewrite Hq. apply IH.
      * pose proof (length_trimStart s). lia.
      * apply forallb_trimStart, H.
    + cbn [forallb]. rewrite Hc. apply IH; [lia | exact H].
Qed.

Lemma forallb_collapse (q : char16 -> bool) (s : jsstring) :
  q c_space = true -> forallb q s = true -> forallb q (collapse s) = true.
Proof. intros Hq. apply (forallb_collapse_bounded q (length s) Hq). lia. Qed.

End CollapseFacts.

Section UnspaceFacts.
Import Js Clean CleanReference CleanNormal.

Variable p : char16.
Hypothesis p_not_white : isWhiteSpace p = false.

Lemma not_white_not_space (d : char16) :
  isWhiteSpace d = false -> (d =? c_space)%N = false.
Proof.
  intros H. destruct (N.eqb_spec d c_space) as [->|]; [discriminate H | reflexivity].
Qed.

Lemma startsWith_unit (s : jsstring) (q : char16) :
  startsWith s [q] = match s with d :: _ => (d =? q)%N | [] => false end.
Proof.
  destruct s as [|d s]; [reflexivity|]. cbn [startsWith].
  replace (startsWith s []) with true by (destruct s; reflexivity).
  rewrite andb_true_r. apply N.eqb_sym.
Qed.

Lemma space_before_match (c : char16) (s : jsstring) :
  match s with d :: _ => (d =? c_space)%N = false | [] => True end ->
  match_atoms (space_before p) false (c :: s)
  = if (c =? c_space)%N && startsWith s [p]
    then Some ([[c]; [p]], tl s) else None.
Proof.
  intros Hs. unfold space_before. cbn [match_atoms qnt cls]. unfold only.
  destruct (c =? c_space)%N; [|reflexivity]. cbn [andb].
  rewrite startsWith_unit.
  destruct s as [|d s]; [reflexivity|]. cbn [star tl].
  rewrite Hs. cbn [match_atoms qnt cls push grow].
  destruct (N.eqb_spec d p) as [->|]; reflexivity.
Qed.

Lemma unspace_other (c : char16) (s : jsstring) :
  (c =? c_space)%N = false -> unspace p (c :: s) = c :: unspace p s.
Proof.
  intros H. unfold unspace, replace_all. apply replace_go_nomatch.
  unfold space_before. cbn [match_atoms qnt cls]. unfold only.
  rewrite H. reflexivity.
Qed.

(** On a tidy string the replacement drops the single space before [p]
    and copies everything else. *)
Lemma unspace_cons (c : char16) (s : jsstring) :
  tidy (c :: s) = true ->
  unspace p (c :: s)
  = if (c =? c_space)%N && startsWith s [p]
    then p :: unspace p (tl s) else c :: unspace p s.
Proof.
  intros H. destruct (N.eqb_spec c c_space) as [->|Hc].
  - assert (Hs : match s with d :: _ => (d =? c_space)%N = false | [] => True end).
    { destruct (tidy_white c_space s H eq_refl) as [_ Hs].
      destruct s as [|d s]; [exact I | apply not_white_not_space, Hs]. }
    pose proof (space_before_match c_space s Hs) as M.
    rewrite N.eqb_refl in M. cbn [andb] in *.
    unfold unspace, replace_all.
    destruct (startsWith s [p]) eqn:E.
    + destruct s as [|d s]; [discriminate E|].
      rewrite (replace_go_match _ _ _ _ _ _ 1 M); [reflexivity | reflexivity |].
      simpl; lia.
    + apply replace_go_nomatch, M.
  - cbn [andb]. apply unspace_other. apply N.eqb_neq, Hc.
Qed.

Lemma tidy_unspace_bounded (n : nat) :
  forall s, (length s <= n)%nat -> tidy s = true -> tidy (unspace p s) = true.
Proof.
  induction n as [|n IH]; intros s Hn H.
  - destruct s; [reflexivity | simpl in Hn; lia].
  - destruct s as [|c s]; [reflexivity|]. simpl in Hn.
    rewrite (unspace_cons c s H). pose proof (tidy_tail c s H) as Ht.
    destruct ((c =? c_space)%N && startsWith s [p]) eqn:E.
    + destruct s as [|d s]; [rewrite andb_false_r in E; discriminate E|].
      cbn [tl tidy]. rewrite p_not_white. cbn [andb].
      apply IH; [simpl in Hn; lia | apply (tidy_tail d s Ht)].
    + cbn [tidy]. rewrite (IH s ltac:(lia) Ht), andb_true_r.
      destruct (isWhiteSpace c) eqn:Ec; [|reflexivity].
      destruct (tidy_white c s H Ec) as [-> Hs]. rewrite N.eqb_refl. cbn [andb].
      destruct s as [|d s]; [reflexivity|].
      rewrite (unspace_other d s (not_white_not_space d Hs)), Hs. reflexivity.
Qed.

Lemma tidy_unspace (s : jsstring) : tidy s = true -> tidy (unspace p s) = true.
Proof. apply (tidy_unspace_bounded (length s)). lia. Qed.

Lemma no_space_before_tail (q c : char16) (s : jsstring) :
  no_space_before q (c :: s) = true -> no_space_before q s = true.
Proof. cbn [no_space_before]. intros H. apply andb_true_iff in H as [_ H]. exact H. Qed.

(** Where no space stands before [p], nothing changes. *)
Lemma unspace_fixed (s : jsstring) :
  tidy s = true -> no_space_before p s = true -> unspace p s = s.
Proof.
  induction s as [|c s IH]; intros Ht Hn; [reflexivity|].
  rewrite (unspace_cons c s Ht).
  cbn [no_space_before] in Hn. apply andb_true_iff in Hn as [Hc Hn].
  apply negb_true_iff in Hc. rewrite Hc.
  rewrite (IH (tidy_tail c s Ht) Hn). reflexivity.
Qed.

(** After the replacement no space stands before [p]. *)
Lemma unspace_clears_bounded (n : nat) :
  forall s, (length s <= n)%nat -> tidy s = true ->
    no_space_before p (unspace p s) = true.
Proof.
  induction n as [|n IH]; intros s Hn H.
  - destruct s; [reflexivity | simpl in Hn; lia].
  - destruct s as [|c s]; [reflexivity|]. simpl in Hn.
    rewrite (unspace_cons c s H). pose proof (tidy_tail c s H) as Ht.
    destruct ((c =? c_space)%N && startsWith s [p]) eqn:E.
    + destruct s as [|d s]; [rewrite andb_false_r in E; discriminate E|].
      cbn [tl no_space_before].
      rewrite (not_white_not_space p p_not_white). cbn [andb negb].
      apply IH; [simpl in Hn; lia | apply (tidy_tail d s Ht)].
    + cbn [no_space_before]. rewrite (IH s ltac:(lia) Ht), andb_true_r.
      apply negb_true_iff.
      destruct (N.eqb_spec c c_space) as [->|]; [|reflexivity]. cbn [andb] in *.
      destruct (tidy_white c_space s H eq_refl) as [_ Hs].
      destruct s as [|d s]; [reflexivity|].
      rewrite (unspace_other d s (not_white_not_space d Hs)).
      rewrite startsWith_unit in *. exact E.
Qed.

Lemma unspace_clears (s : jsstring) :
  tidy s = true -> no_space_before p (unspace p s) = true.
Proof. apply (unspace_clears_bounded (length s)). lia. Qed.

(** And what was clear before another code unit stays clear. *)
Lemma unspace_keeps_bounded (q : char16) (n : nat) :
  forall s, (length s <= n)%nat -> tidy s = true ->
    no_space_before q s = true -> no_space_before q (unspace p s) = true.
Proof.
  induction n as [|n IH]; intros s Hn H Hq.
  - destruct s; [reflexivity | simpl in Hn; lia].
  - destruct s as [|c s]; [reflexivity|]. simpl in Hn.
    rewrite (unspace_cons c s H). pose proof (tidy_tail c s H) as Ht.
    pose proof (no_space_before_tail q c s Hq) as Hq'.
    destruct ((c =? c_space)%N && startsWith s [p]) eqn:E.
    + destruct s as [|d s]; [rewrite andb_false_r in E; discriminate E|].
      cbn [tl no_space_before].
      rewrite (not_white_not_space p p_not_white). cbn [andb negb].
      apply IH; [simpl in Hn; lia | apply (tidy_tail d s Ht)
                | apply (no_space_before_tail q d s Hq')].
    + cbn [no_space_before]. rewrite (IH s ltac:(lia) Ht Hq'), andb_true_r.
      cbn [no_space_before] in Hq. apply andb_true_iff in Hq as [Hc _].
      apply negb_true_iff in Hc. apply negb_true_iff.
      destruct (N.eqb_spec c c_space) as [->|]; [|reflexivity]. cbn [andb] in *.
      destruct (tidy_white c_space s H eq_refl) as [_ Hs].
      destruct s as [|d s]; [reflexivity|].
      rewrite (unspace_other d s (not_white_not_space d Hs)).
      rewrite startsWith_unit in *. exact Hc.
Qed.

Lemma unspace_keeps (q : char16) (s : jsstring) :
  tidy s = true -> no_space_before q s = true ->
  no_space_before q (unspace p s) = true.
Proof. apply (unspace_keeps_bounded q (length s)). lia. Qed.

Lemma forallb_unspace_bounded (q : char16 -> bool) (n : nat) :
  forall s, (length s <= n)%nat -> tidy s = true -> forallb q s = true ->
    forallb q (unspace p s) = true.
Proof.
  induction n as [|n IH]; intros s Hn H Hq.
  - destruct s; [reflexivity | simpl in Hn; lia].
  - destruct s as [|c s]; [reflexivity|]. simpl in Hn.
    rewrite (unspace_cons c s H). pose proof (tidy_tail c s H) as Ht.
    cbn [forallb] in Hq. apply andb_true_iff in Hq as [Hc Hq].
    destruct ((c =? c_space)%N && startsWith s [p]) eqn:E.
    + destruct s as [|d s]; [rewrite andb_false_r in E; discriminate E|].
      apply andb_true_iff in E as [_ E]. rewrite startsWith_unit in E.
      apply N.eqb_eq in E. subst d.
      cbn [forallb] in Hq. apply andb_true_iff in Hq as [Hp Hq].
      cbn [tl forallb]. rewrite Hp. apply IH;
        [simpl in Hn; lia | apply (tidy_tail p s Ht) | exact Hq].
    + cbn [forallb]. rewrite Hc. apply IH; [lia | exact Ht | exact Hq].
Qed.

Lemma forallb_unspace (q : char16 -> bool) (s : jsstring) :
  tidy s = true -> forallb q s = true -> forallb q (unspace p s) = true.
Proof. apply (forallb_unspace_bounded q (length s)). lia. Qed.

End UnspaceFacts.

Section NormalFormFacts.
Import Js Clean CleanReference CleanNormal.
Local Open Scope N_scope.

Lemma trimEnd_hd (s : jsstring) d r :
  trimEnd s = d :: r -> exists s', s = d :: s'.
Proof.
  destruct s as [|c s]; [discriminate|]. cbn [trimEnd].
  destruct (trimEnd s).
  - destruct (isWhiteSpace c); [discriminate|]. intros [= <- _]. eexists; reflexivity.
  - intros [= <- _]. eexists; reflexivity.
Qed.

Lemma tidy_trimStart (s : jsstring) : tidy s = true -> tidy (trimStart s) = true.
Proof.
  induction s as [|c s IH]; [reflexivity|]. intros H. cbn [trimStart].
  destruct (isWhiteSpace c); [|exact H]. apply IH, (tidy_tail c s H).
Qed.

Lemma tidy_trimEnd (s : jsstring) : tidy s = true -> tidy (trimEnd s) = true.
Proof.
  induction s as [|c s IH]; [reflexivity|]. intros H.
  pose proof (IH (tidy_tail c s H)) as IH'. cbn [trimEnd].
  destruct (trimEnd s) as [|d r] eqn:E.
  - destruct (isWhiteSpace c) eqn:Ec; [reflexivity|]. cbn [tidy]. rewrite Ec. reflexivity.
  - cbn [tidy]. cbn [tidy] in IH'. rewrite IH', andb_true_r.
    destruct (isWhiteSpace c) eqn:Ec; [|reflexivity].
    destruct (tidy_white c s H Ec) as [-> Hs]. rewrite N.eqb_refl. cbn [andb].
    destruct (trimEnd_hd s d r E) as [s' ->]. rewrite Hs. reflexivity.
Qed.

Lemma tidy_trim (s : jsstring) : tidy s = true -> tidy (trim s) = true.
Proof. intros H. apply tidy_trimEnd, tidy_trimStart, H. Qed.

Lemma no_space_before_trimStart (q : char16) (s : jsstring) :
  no_space_before q s = true -> no_space_before q (trimStart s) = true.
Proof.
  induction s as [|c s IH]; [reflexivity|]. intros H. cbn [trimStart].
  destruct (isWhiteSpace c); [|exact H]. apply IH, (no_space_before_tail q c s H).
Qed.

Lemma no_space_before_trimEnd (q : char16) (s : jsstring) :
  no_space_before q s = true -> no_space_before q (trimEnd s) = true.
Proof.
  induction s as [|c s IH]; [reflexivity|]. intros H.
  pose proof (IH (no_space_before_tail q c s H)) as IH'. cbn [trimEnd].
  destruct (trimEnd s) as [|d r] eqn:E.
  - destruct (isWhiteSpace c); [reflexivity|].
    cbn [no_space_before]. rewrite andb_false_r. reflexivity.
  - cbn [no_space_before]. cbn [no_space_before] in IH'. rewrite IH', andb_true_r.
    cbn [no_space_before] in H. apply andb_true_iff in H as [H _].
    destruct (trimEnd_hd s d r E) as [s' ->].
    rewrite startsWith_unit in *. exact H.
Qed.

Lemma no_space_before_trim (q : char16) (s : jsstring) :
  no_space_before q s = true -> no_space_before q (trim s) = true.
Proof. intros H. apply no_space_before_trimEnd, no_space_before_trimStart, H. Qed.

Lemma fixPunctuation_unspace (s : jsstring) :
  fixPunctuation s = unspace 44 (unspace 33 (unspace 63 (unspace 46 s))).
Proof. reflexivity. Qed.

Lemma tidy_fixPunctuation (s : jsstring) :
  tidy s = true -> tidy (fixPunctuation s) = true.
Proof.
  intros H. rewrite fixPunctuation_unspace.
  repeat (apply tidy_unspace; [reflexivity|]). exact H.
Qed.

(** After the punctuation step no space stands before a full stop, a
    question mark, an exclamation mark or a comma. *)
Lemma fixPunctuation_clears (s : jsstring) :
  tidy s = true ->
  no_space_before 46 (fixPunctuation s) = true
  /\ no_space_before 63 (fixPunctuation s) = true
  /\ no_space_before 33 (fixPunctuation s) = true
  /\ no_space_before 44 (fixPunctuation s) = true.
Proof.
  intros H. rewrite fixPunctuation_unspace.
  pose proof (tidy_unspace 46 eq_refl s H) as T1.
  pose proof (tidy_unspace 63 eq_refl _ T1) as T2.
  pose proof (tidy_unspace 33 eq_refl _ T2) as T3.
  repeat split.
  - apply (unspace_keeps 44 eq_refl 46 _ T3).
    apply (unspace_keeps 33 eq_refl 46 _ T2).
    apply (unspace_keeps 63 eq_refl 46 _ T1).
    apply (unspace_clears 46 eq_refl s H).
  - apply (unspace_keeps 44 eq_refl 63 _ T3).
    apply (unspace_keeps 33 eq_refl 63 _ T2).
    apply (unspace_clears 63 eq_refl _ T1).
  - apply (unspace_keeps 44 eq_refl 33 _ T3).
    apply (unspace_clears 33 eq_refl _ T2).
  - apply (unspace_clears 44 eq_refl _ T3).
Qed.

Lemma fixPunctuation_fixed (s : jsstring) :
  tidy s = true ->
  no_space_before 46 s = true -> no_space_before 63 s = true ->
  no_space_before 33 s = true -> no_space_before 44 s = true ->
  fixPunctuation s = s.
Proof.
  intros H H1 H2 H3 H4. rewrite fixPunctuation_unspace.
  rewrite (unspace_fixed 46 s H H1), (unspace_fixed 63 s H H2),
    (unspace_fixed 33 s H H3), (unspace_fixed 44 s H H4).
  reflexivity.
Qed.

Lemma forallb_fixPunctuation (q : char16 -> bool) (s : jsstring) :
  tidy s = true -> forallb q s = true -> forallb q (fixPunctuation s) = true.
Proof.
  intros H Hq. rewrite fixPunctuation_unspace.
  pose proof (tidy_unspace 46 eq_refl s H) as T1.
  pose proof (tidy_unspace 63 eq_refl _ T1) as T2.
  pose proof (tidy_unspace 33 eq_refl _ T2) as T3.
  apply (forallb_unspace 44 q _ T3).
  apply (forallb_unspace 33 q _ T2).
  apply (forallb_unspace 63 q _ T1).
  apply (forallb_unspace 46 q s H Hq).
Qed.

Lemma fixPunctuation_head (a : char16) (s : jsstring) :
  isWhiteSpace a = false -> fixPunctuation (a :: s) = a :: fixPunctuation s.
Proof.
  intros H. rewrite !fixPunctuation_unspace.
  pose proof (not_white_not_space a H) as Ha.
  rewrite (unspace_other 46 a _ Ha), (unspace_other 63 a _ Ha),
    (unspace_other 33 a _ Ha), (unspace_other 44 a _ Ha).
  reflexivity.
Qed.

(** The normal form starts with the first code unit of the trimmed
    input. *)
Lemma normalize_head (t : jsstring) a x :
  trim t = a :: x -> exists y, normalize t = a :: y.
Proof.
  intros E. pose proof (trim_head _ _ _ E) as Ha.
  unfold normalize. rewrite E, (collapse_head a x Ha), (fixPunctuation_head a _ Ha).
  unfold trim. rewrite (trimStart_fixed a _ Ha). apply trimEnd_head, Ha.
Qed.

(** The normal form is a fixed point of normalisation. *)
Lemma normalize_idem (t : jsstring) : normalize (normalize t) = normalize t.
Proof.
  assert (T : tidy (normalize t) = true)
    by (apply tidy_trim, tidy_fixPunctuation, tidy_collapse).
  destruct (fixPunctuation_clears (collapse (trim t)) (tidy_collapse _))
    as (H1 & H2 & H3 & H4).
  unfold normalize at 1.
  assert (E : trim (normalize t) = normalize t) by apply trim_idem.
  rewrite E, (collapse_tidy _ T).
  rewrite fixPunctuation_fixed;
    [exact E | exact T | apply no_space_before_trim, H1
     | apply no_space_before_trim, H2 | apply no_space_before_trim, H3
     | apply no_space_before_trim, H4].
Qed.

End NormalFormFacts.

Section PlainLineFacts.
Import Js Clean CleanReference CleanNormal.

Lemma forallb_weaken (q q' : char16 -> bool) (s : jsstring) :
  (forall c, q c = true -> q' c = true) ->
  forallb q s = true -> forallb q' s = true.
Proof.
  intros W. induction s as [|c s IH]; [reflexivity|]. simpl. intros H.
  apply andb_true_iff in H as [Hc H]. rewrite (W c Hc), (IH H). reflexivity.
Qed.

Lemma plain_unit_parts (c : char16) :
  plain_unit c = true ->
  except c_newline c = true /\ except c_star c = true /\ except c_cross c = true.
Proof.
  unfold plain_unit, except. intros H.
  apply andb_true_iff in H as [H H3]. apply andb_true_iff in H as [H1 H2].
  repeat split; assumption.
Qed.

Lemma includes_unit_absent (c : char16) (s : jsstring) :
  forallb (except c) s = true -> includes s [c] = false.
Proof.
  induction s as [|d s IH]; [reflexivity|]. simpl. intros H.
  apply andb_true_iff in H as [Hd H]. rewrite (IH H), orb_false_r.
  unfold except in Hd. apply negb_true_iff in Hd.
  rewrite N.eqb_sym, Hd. reflexivity.
Qed.

Lemma split_none (sep : char16) (s : jsstring) :
  forallb (except sep) s = true -> split sep s = [s].
Proof.
  induction s as [|d s IH]; [reflexivity|]. simpl. intros H.
  apply andb_true_iff in H as [Hd H]. unfold except in Hd.
  apply negb_true_iff in Hd. rewrite Hd, (IH H). reflexivity.
Qed.

Lemma cleanLines_single (A : jsstring) :
  forallb (except c_newline) A = true -> trim A = A ->
  cleanLines A = collapse A.
Proof.
  intros H E. unfold cleanLines. rewrite (split_none _ _ H).
  cbn [fold_left line_step]. rewrite E.
  destruct A as [|a A]; reflexivity.
Qed.

Lemma fixBullet_single (B : jsstring) :
  forallb (except c_newline) B = true -> fixBulletListSpacing B = B.
Proof.
  intros H. unfold fixBulletListSpacing.
  destruct B as [|b B]; [reflexivity|].
  rewrite (split_none _ _ H). cbn [fold_left]. unfold bullet_step.
  destruct (isListItem (trim (b :: B))); destruct (nonblank (b :: B)); reflexivity.
Qed.

Lemma trim_no_leading_paren (t : jsstring) :
  no_leading_paren t = true -> startsWith (trim t) [c_lparen] = false.
Proof.
  unfold no_leading_paren, trim. intros H. apply negb_true_iff in H.
  destruct (trimStart t) as [|d y] eqn:E; [reflexivity|].
  destruct (trimEnd_head d y (trimStart_head _ _ _ E)) as [z ->].
  rewrite startsWith_unit in *. exact H.
Qed.

Lemma stripParens_plain (A : jsstring) :
  startsWith A [c_lparen] = false -> stripParens A = A.
Proof. intros H. unfold stripParens. rewrite H. reflexivity. Qed.

Lemma quotes_plain (A : jsstring) :
  forallb (except c_star) A = true -> replaceAsterisksWithQuotes A = A.
Proof.
  intros H. unfold replaceAsterisksWithQuotes.
  destruct A as [|a A]; [reflexivity|].
  rewrite (includes_unit_absent _ _ H). reflexivity.
Qed.

Lemma no_cross_leak (t : jsstring) f :
  forallb (except c_cross) t = true ->
  replace_all asterisks_leak f t = t.
Proof.
  intros H. apply replace_go_id.
  apply (first_unit_absent c_cross One _ t (or_introl eq_refl) H).
Qed.

Lemma no_cross_line (t : jsstring) f :
  forallb (except c_cross) t = true ->
  replace_all cross_line f t = t.
Proof.
  intros H. apply replace_go_id.
  apply (first_unit_absent c_cross One _ t (or_introl eq_refl) H).
Qed.

(** What both variants do after their first replacements, on the
    trimmed plain line. *)
Lemma clean_tail (t : jsstring) :
  plain_line t = true -> no_leading_paren t = true ->
  trim (fixPunctuation (fixBulletListSpacing (cleanLines (stripParens
    (replaceAsterisksWithQuotes (trim t))))))
  = normalize t.
Proof.
  intros Hp Hh.
  assert (Hn : forallb (except c_newline) t = true)
    by (apply (forallb_weaken plain_unit); [apply plain_unit_parts | exact Hp]).
  assert (Hs : forallb (except c_star) t = true)
    by (apply (forallb_weaken plain_unit); [apply plain_unit_parts | exact Hp]).
  rewrite (quotes_plain (trim t) (forallb_trim _ _ Hs)).
  rewrite (stripParens_plain _ (trim_no_leading_paren t Hh)).
  rewrite (cleanLines_single (trim t) (forallb_trim _ _ Hn) (trim_idem t)).
  rewrite fixBullet_single; [reflexivity|].
  apply forallb_collapse; [reflexivity | apply forallb_trim, Hn].
Qed.

(** On a plain line that does not start with an opening parenthesis,
    [cleanMessageText] trims, collapses white space, removes the spaces
    before punctuation and trims again. *)
Lemma clean_plain (t : jsstring) :
  plain_line t = true -> no_leading_paren t = true ->
  cleanMessageText t = normalize t.
Proof.
  intros Hp Hh. destruct t as [|c0 t0]; [reflexivity|].
  set (t := c0 :: t0) in *.
  assert (Hc : forallb (except c_cross) t = true)
    by (apply (forallb_weaken plain_unit); [apply plain_unit_parts | exact Hp]).
  change (cleanMessageText t) with
    (trim (fixPunctuation (fixBulletListSpacing (cleanLines (stripParens
       (replaceAsterisksWithQuotes
          (trim (replace_all cross_line (fun _ => [])
             (trim (replace_all asterisks_leak (fun _ => []) t)))))))))).
  rewrite (no_cross_leak t _ Hc).
  rewrite (no_cross_line (trim t) _ (forallb_trim _ _ Hc)).
  rewrite trim_idem. apply (clean_tail t Hp Hh).
Qed.

Lemma markup_free_parts (c : char16) :
  negb (c =? 60)%N && negb (c =? 91)%N && negb (c =? 83)%N = true ->
  except 60%N c = true /\ negb (is_ci 91%N c) = true /\ except 83%N c = true.
Proof.
  unfold except. intros H.
  apply andb_true_iff in H as [H H3]. apply andb_true_iff in H as [H1 H2].
  repeat split; try assumption.
  apply negb_true_iff in H2. apply N.eqb_neq in H2.
  apply negb_true_iff, N.eqb_neq. unfold is_ci, asciiUpper.
  change ((97 <=? 91)%N && (91 <=? 122)%N) with false. cbv iota.
  destruct ((97 <=? c)%N && (c <=? 122)%N) eqn:E; [|exact H2].
  apply andb_true_iff in E as [E1 E2].
  apply N.leb_le in E1, E2. lia.
Qed.

Lemma no_markup (t : jsstring) :
  markup_free t = true -> CleanMessages.removeMarkup t = t.
Proof.
  intros H.
  assert (H60 : forallb (except 60%N) t = true)
    by (apply (forallb_weaken _ _ t (fun c Hc => proj1 (markup_free_parts c Hc)) H)).
  assert (H91 : forallb (fun c => negb (is_ci 91%N c)) t = true)
    by (apply (forallb_weaken _ _ t
                 (fun c Hc => proj1 (proj2 (markup_free_parts c Hc))) H)).
  assert (H83 : forallb (except 83%N) t = true)
    by (apply (forallb_weaken _ _ t
                 (fun c Hc => proj2 (proj2 (markup_free_parts c Hc))) H)).
  unfold CleanMessages.removeMarkup.
  assert (E1 : replace_all_alt CleanMessages.im_end CleanMessages.drop t = t).
  { apply replace_go_id. intros pre x E. cbn [match_first CleanMessages.im_end].
    assert (A1 : match_atoms (literal (lit "<|im_end_id|>")) false x = None)
      by exact (first_unit_absent 60%N One _ t (or_introl eq_refl) H60 pre x E).
    assert (A2 : match_atoms (literal (lit "<|im_end|>")) false x = None)
      by exact (first_unit_absent 60%N One _ t (or_introl eq_refl) H60 pre x E).
    rewrite A1, A2. reflexivity. }
  rewrite E1.
  assert (E2 : replace_all CleanMessages.im_start CleanMessages.drop t = t)
    by (apply replace_go_id, (first_unit_absent 60%N One _ t (or_introl eq_refl) H60)).
  rewrite E2.
  assert (E3 : replace_all_alt CleanMessages.session CleanMessages.drop t = t).
  { apply replace_go_id. intros pre x E. cbn [match_first CleanMessages.session].
    assert (A1 : match_atoms (literal (lit "Session end.")) false x = None)
      by exact (first_unit_absent 83%N One _ t (or_introl eq_refl) H83 pre x E).
    assert (A2 : match_atoms (literal (lit "Session begin.")) false x = None)
      by exact (first_unit_absent 83%N One _ t (or_introl eq_refl) H83 pre x E).
    rewrite A1, A2. reflexivity. }
  rewrite E3.
  assert (E4 : replace_all CleanMessages.should_have_said CleanMessages.drop t = t)
    by (apply replace_go_id,
          (first_class_rejects (is_ci 91%N) One _ t (or_introl eq_refl) H91)).
  rewrite E4.
  apply replace_go_id,
    (first_class_rejects (is_ci 91%N) One _ t (or_introl eq_refl) H91).
Qed.

(** The variant comes to the same on a plain line without markup. *)
Lemma clean_messages_plain (t : jsstring) :
  plain_line t = true -> markup_free t = true -> no_leading_paren t = true ->
  CleanMessages.cleanMessageText t = normalize t.
Proof.
  intros Hp Hm Hh. destruct t as [|c0 t0]; [reflexivity|].
  set (t := c0 :: t0) in *.
  assert (Hc : forallb (except c_cross) t = true)
    by (apply (forallb_weaken plain_unit); [apply plain_unit_parts | exact Hp]).
  assert (H60 : forallb (except 60%N) t = true)
    by (apply (forallb_weaken _ _ t (fun c Hc => proj1 (markup_free_parts c Hc)) Hm)).
  change (CleanMessages.cleanMessageText t) with
    (trim (fixPunctuation (fixBulletListSpacing (cleanLines (stripParens
       (replaceAsterisksWithQuotes
          (CleanMessages.removeMarkup
             (trim (replace_all cross_line CleanMessages.drop
                (trim (replace_all asterisks_leak CleanMessages.drop
                   (replace_all CleanMessages.s_close CleanMessages.drop
                      (replace_all CleanMessages.s_open CleanMessages.drop
                         t))))))))))))).
  assert (E1 : replace_all CleanMessages.s_open CleanMessages.drop t = t)
    by (apply replace_go_id, (first_unit_absent 60%N One _ t (or_introl eq_refl) H60)).
  rewrite E1.
  assert (E2 : replace_all CleanMessages.s_close CleanMessages.drop t = t)
    by (apply replace_go_id, (first_unit_absent 60%N One _ t (or_introl eq_refl) H60)).
  rewrite E2.
  rewrite (no_cross_leak t _ Hc).
  rewrite (no_cross_line (trim t) _ (forallb_trim _ _ Hc)).
  rewrite trim_idem.
  rewrite (no_markup (trim t) (forallb_trim _ _ Hm)).
  apply (clean_tail t Hp Hh).
Qed.

Lemma markup_free_normalize (t : jsstring) :
  markup_free t = true -> markup_free (normalize t) = true.
Proof.
  intros H. unfold markup_free, normalize.
  apply forallb_trim, forallb_fixPunctuation; [apply tidy_collapse|].
  apply forallb_collapse; [reflexivity | apply forallb_trim, H].
Qed.

Lemma plain_line_normalize (t : jsstring) :
  plain_line t = true -> plain_line (normalize t) = true.
Proof.
  intros H. unfold plain_line, normalize.
  apply forallb_trim, forallb_fixPunctuation; [apply tidy_collapse|].
  apply forallb_collapse; [reflexivity | apply forallb_trim, H].
Qed.

Lemma no_leading_paren_normalize (t : jsstring) :
  no_leading_paren t = true -> no_leading_paren (normalize t) = true.
Proof.
  intros H. pose proof (trim_no_leading_paren t H) as Hs.
  destruct (trim t) as [|a x] eqn:E.
  - unfold normalize. rewrite E. reflexivity.
  - destruct (normalize_head t a x E) as [y ->].
    unfold no_leading_paren. rewrite (trimStart_fixed a y (trim_head _ _ _ E)).
    rewrite startsWith_unit in *. rewrite Hs. reflexivity.
Qed.

End PlainLineFacts.


(** In the chat-messages variant removing markup can expose markup: the
    first pass turns '<<s>s>hello' into '<s>hello', the second into
    'hello'. *)
Lemma markup_removal_exposes_markup :
  CleanMessages.cleanMessageText CleanScenario.nested_markup = Js.lit "<s>hello"
  /\ CleanMessages.cleanMessageText
       (CleanMessages.cleanMessageText CleanScenario.nested_markup)
     = Js.lit "hello".
Proof. vm_compute. split; reflexivity. Qed.

(* --------------------------------------------------------------------- *)
(** ** The backtracking matcher finds a match whenever one exists          *)
(* --------------------------------------------------------------------- *)

Section StarComplete.
Import Js.

Variable p : char16 -> bool.
Variable k : jsstring -> option (list jsstring * jsstring).

Lemma star_shape (s : jsstring) ms rest :
  star p k s = Some (ms, rest) -> ms <> [].
Proof.
  revert ms rest. induction s as [|c s IH]; intros ms rest; simpl.
  - destruct (k []) as [[ms' r']|]; simpl; [|discriminate].
    intros H; injection H as <- _. discriminate.
  - destruct (p c).
    + destruct (star p k s) as [[ms' r']|] eqn:E.
      * destruct ms' as [|m ms']; [exfalso; exact (IH _ _ eq_refl eq_refl)|].
        simpl. intros H; injection H as <- _. discriminate.
      * destruct (k (c :: s)) as [[ms' r']|]; simpl; [|discriminate].
        intros H; injection H as <- _. discriminate.
    + destruct (k (c :: s)) as [[ms' r']|]; simpl; [|discriminate].
      intros H; injection H as <- _. discriminate.
Qed.

Lemma grow_none (c : char16) r : grow c r <> None -> r <> None.
Proof. destruct r; [discriminate | intros H; exact H]. Qed.

Lemma push_some (m : jsstring) r : push m r <> None <-> r <> None.
Proof. destruct r as [[ms rest]|]; simpl; split; intros H; try exact H; discriminate. Qed.

(** A greedy class followed by the rest [k] of a pattern matches [s]
    exactly when [s] splits into a run of the class and a text that [k]
    accepts: giving code units back one at a time finds every split. *)
Lemma star_some (s : jsstring) :
  star p k s <> None
  <-> exists a b, s = a ++ b /\ forallb p a = true /\ k b <> None.
Proof.
  induction s as [|c s IH]; simpl.
  - rewrite push_some. split.
    + intros H. exists [], []. repeat split. exact H.
    + intros (a & b & E & _ & H). destruct a; [|discriminate].
      simpl in E. subst b. exact H.
  - split.
    + intros H. destruct (p c) eqn:Pc.
      * destruct (star p k s) as [r|] eqn:E.
        -- destruct IH as [IH _].
           destruct (IH ltac:(discriminate)) as (a & b & -> & Ha & Hb).
           exists (c :: a), b. simpl. rewrite Pc, Ha. repeat split. exact Hb.
        -- apply push_some in H. exists [], (c :: s). repeat split. exact H.
      * apply push_some in H. exists [], (c :: s). repeat split. exact H.
    + intros (a & b & E & Ha & Hb). destruct a as [|x a].
      * simpl in E. subst b.
        destruct (p c); [destruct (star p k s) as [[ms r]|] eqn:Es|].
        -- pose proof (star_shape s ms r Es) as Hs.
           destruct ms; [exfalso; apply Hs; reflexivity | discriminate].
        -- apply push_some, Hb.
        -- apply push_some, Hb.
      * simpl in E. injection E as <- ->. simpl in Ha.
        apply andb_true_iff in Ha as [Hx Ha]. rewrite Hx.
        assert (S : star p k (a ++ b) <> None).
        { apply IH. exists a, b. repeat split; assumption. }
        destruct (star p k (a ++ b)) as [[ms r]|] eqn:Es;
          [|exfalso; exact (S eq_refl)].
        pose proof (star_shape _ ms r Es) as Hs.
        destruct ms; [exfalso; apply Hs; reflexivity | discriminate].
Qed.

End StarComplete.

Section AtomFacts.
Import Js.

Variable cl : char16 -> bool.
Variable r : list atom.
Variable e : bool.

Lemma plus_some (s : jsstring) :
  match_atoms (Atom cl Plus :: r) e s <> None
  <-> exists a b, s = a ++ b /\ a <> [] /\ forallb cl a = true
                  /\ match_atoms r e b <> None.
Proof.
  cbn [match_atoms qnt cls]. destruct s as [|c s].
  - split; [intros H; exfalso; exact (H eq_refl)|].
    intros (a & b & E & Ha & _). destruct a; [exfalso; exact (Ha eq_refl) | discriminate].
  - destruct (cl c) eqn:C.
    + split.
      * intros H. apply grow_none in H. apply star_some in H.
        destruct H as (a & b & -> & Ha & Hb).
        exists (c :: a), b. simpl. rewrite C, Ha.
        repeat split; [discriminate | exact Hb].
      * intros (a & b & E & Ha & Hall & Hb).
        destruct a as [|x a]; [exfalso; exact (Ha eq_refl)|].
        simpl in E. injection E as <- ->. simpl in Hall.
        apply andb_true_iff in Hall as [_ Hall].
        assert (S : star cl (match_atoms r e) (a ++ b) <> None).
        { apply star_some. exists a, b. repeat split; assumption. }
        destruct (star cl (match_atoms r e) (a ++ b)) as [[ms rest]|] eqn:Es;
          [|exfalso; exact (S eq_refl)].
        pose proof (star_shape _ _ _ ms rest Es) as Hs.
        destruct ms; [exfalso; apply Hs; reflexivity | discriminate].
    + split; [intros H; exfalso; exact (H eq_refl)|].
      intros (a & b & E & Ha & Hall & _).
      destruct a as [|x a]; [exfalso; exact (Ha eq_refl)|].
      simpl in E. injection E as <- ->. simpl in Hall. rewrite C in Hall.
      discriminate.
Qed.

Lemma one_some (s : jsstring) :
  match_atoms (Atom cl One :: r) e s <> None
  <-> exists c b, s = c :: b /\ cl c = true /\ match_atoms r e b <> None.
Proof.
  cbn [match_atoms qnt cls]. destruct s as [|c s].
  - split; [intros H; exfalso; exact (H eq_refl)|].
    intros (c & b & E & _). discriminate.
  - destruct (cl c) eqn:C.
    + rewrite push_some. split.
      * intros H. exists c, s. repeat split; assumption.
      * intros (c' & b & E & _ & H). injection E as <- <-. exact H.
    + split; [intros H; exfalso; exact (H eq_refl)|].
      intros (c' & b & E & C' & _). injection E as <- <-.
      rewrite C in C'. discriminate.
Qed.

End AtomFacts.

Lemma end_some (s : Js.jsstring) :
  Js.match_atoms [] true s <> None <-> s = [].
Proof.
  simpl. destruct s; split; intros H; try reflexivity; try discriminate.
  exfalso; exact (H eq_refl).
Qed.

Section EmailFacts.
Import Js Email.

Lemma local_char_lower (c : char16) :
  local_char (if ((65 <=? c) && (c <=? 90))%N then (c + 32)%N else c)
  = local_char c.
Proof.
  destruct ((65 <=? c) && (c <=? 90))%N eqn:E; [|reflexivity].
  apply andb_true_iff in E as [A B].
  apply N.leb_le in A. apply N.leb_le in B.
  unfold local_char, isWhiteSpace.
  repeat match goal with
  | |- context [(?x =? ?y)%N] =>
      let H := fresh in
      destruct (N.eqb_spec x y) as [H|H]; [exfalso; lia|]
  end.
  repeat match goal with
  | |- context [(?x <=? ?y)%N] =>
      let H := fresh in
      destruct (N.leb_spec x y) as [H|H]; try (exfalso; lia)
  end; reflexivity.
Qed.

Lemma forallb_local_lower (s : jsstring) :
  forallb local_char (toLowerCase s) = forallb local_char s.
Proof.
  induction s as [|c s IH]; [reflexivity|].
  cbn [toLowerCase map forallb]. fold (toLowerCase s).
  rewrite local_char_lower, IH. reflexivity.
Qed.

Lemma toLowerCase_app (a b : jsstring) :
  toLowerCase (a ++ b) = toLowerCase a ++ toLowerCase b.
Proof. apply map_app. Qed.

Lemma toLowerCase_nil (s : jsstring) : toLowerCase s = [] -> s = [].
Proof. destruct s; [reflexivity | discriminate]. Qed.

(** A text is lower case for [a ++ b] only as the lower case of two
    texts. *)
Lemma toLowerCase_split (s a b : jsstring) :
  toLowerCase s = a ++ b ->
  exists a' b', s = a' ++ b' /\ toLowerCase a' = a /\ toLowerCase b' = b.
Proof.
  revert a. induction s as [|c s IH]; intros a E.
  - destruct a; [|discriminate]. simpl in E. subst b.
    exists [], []. repeat split.
  - destruct a as [|x a].
    + exists [], (c :: s). split; [reflexivity | split; [reflexivity | exact E]].
    + cbn [toLowerCase map app] in E. fold (toLowerCase s) in E.
      injection E as <- E.
      destruct (IH a E) as (a' & b' & -> & <- & <-).
      exists (c :: a'), b'. repeat split.
Qed.

(** Only the code unit itself becomes a code unit below the letters. *)
Lemma toLowerCase_unit (s r : jsstring) (x : char16) :
  (x <? 65)%N = true ->
  toLowerCase s = x :: r -> exists s', s = x :: s' /\ toLowerCase s' = r.
Proof.
  intros Hx E. apply N.ltb_lt in Hx.
  destruct s as [|c s]; [discriminate|].
  cbn [toLowerCase map] in E. fold (toLowerCase s) in E.
  injection E as E1 E2. exists s. split; [|exact E2]. f_equal.
  destruct ((65 <=? c) && (c <=? 90))%N eqn:B; [|exact E1].
  apply andb_true_iff in B as [A _]. apply N.leb_le in A. lia.
Qed.

(** The pattern, as a statement about splits of the text. *)
Lemma re_some (s : jsstring) :
  test re s = true
  <-> exists l d t,
        s = l ++ [64%N] ++ d ++ [46%N] ++ t
        /\ l <> [] /\ d <> [] /\ t <> []
        /\ forallb local_char l = true
        /\ forallb local_char d = true
        /\ forallb local_char t = true.
Proof.
  unfold test, re. cbn [at_start atoms at_finish].
  set (m := match_atoms _ true s).
  assert (M : (match m with Some _ => true | None => false end) = true
              <-> m <> None).
  { destruct m; split; intros H; try reflexivity; try discriminate.
    exfalso; exact (H eq_refl). }
  rewrite M. unfold m. clear M m.
  rewrite plus_some. split.
  - intros (l & b & -> & Hl & Al & H).
    apply one_some in H. destruct H as (c & b1 & -> & Hc & H).
    apply N.eqb_eq in Hc. subst c.
    apply plus_some in H. destruct H as (d & b2 & -> & Hd & Ad & H).
    apply one_some in H. destruct H as (c & b3 & -> & Hc & H).
    apply N.eqb_eq in Hc. subst c.
    apply plus_some in H. destruct H as (t & b4 & -> & Ht & At & H).
    apply end_some in H. subst b4. rewrite app_nil_r.
    exists l, d, t. repeat split; assumption.
  - intros (l & d & t & -> & Hl & Hd & Ht & Al & Ad & At).
    exists l, ([64%N] ++ d ++ [46%N] ++ t). repeat split; try assumption.
    apply one_some. exists 64%N, (d ++ [46%N] ++ t). repeat split.
    apply plus_some. exists d, ([46%N] ++ t). repeat split; try assumption.
    apply one_some. exists 46%N, t. repeat split.
    apply plus_some. exists t, []. rewrite app_nil_r. repeat split; try assumption.
    apply end_some. reflexivity.
Qed.

End EmailFacts.

(** X1. [validateEmail] accepts exactly the addresses of the shape
    local@domain.tld: a text is accepted if and only if it is a non-empty
    local part, one at sign, a non-empty domain part, a dot and a
    non-empty last part, where no part holds white space or an at sign
    (the domain part may hold further dots).  Stated for ASCII texts, on
    which [toLowerCase] is embedded. *)
Theorem validateEmail_accepts_exactly :
  forall e : Js.jsstring,
    forallb (fun c => (c <? 128)%N) e = true ->
    (Email.validateEmail e = true
     <-> exists l d t,
           e = l ++ [64%N] ++ d ++ [46%N] ++ t
           /\ l <> [] /\ d <> [] /\ t <> []
           /\ forallb Email.local_char l = true
           /\ forallb Email.local_char d = true
           /\ forallb Email.local_char t = true).
Proof.
  intros e _. unfold Email.validateEmail.
  rewrite re_some. split.
  - intros (l & d & t & E & Hl & Hd & Ht & Al & Ad & At).
    apply toLowerCase_split in E. destruct E as (l' & r1 & -> & <- & E).
    apply (toLowerCase_unit _ _ 64%N eq_refl) in E. destruct E as (r1' & -> & E).
    apply toLowerCase_split in E. destruct E as (d' & r2 & -> & <- & E).
    apply (toLowerCase_unit _ _ 46%N eq_refl) in E. destruct E as (t' & -> & <-).
    rewrite forallb_local_lower in Al, Ad, At.
    exists l', d', t'. repeat split; try assumption.
    + intros ->. apply Hl. reflexivity.
    + intros ->. apply Hd. reflexivity.
    + intros ->. apply Ht. reflexivity.
  - intros (l & d & t & -> & Hl & Hd & Ht & Al & Ad & At).
    exists (Js.toLowerCase l), (Js.toLowerCase d), (Js.toLowerCase t).
    rewrite !toLowerCase_app, !forallb_local_lower.
    repeat split; try assumption.
    + intros E. apply Hl, toLowerCase_nil, E.
    + intros E. apply Hd, toLowerCase_nil, E.
    + intros E. apply Ht, toLowerCase_nil, E.
Qed.

Lemma validateEmail_accepts_exactly_witness :
  Email.validateEmail (Js.lit "first.last@mail.example.org") = true
  <-> exists l d t,
        Js.lit "first.last@mail.example.org" = l ++ [64%N] ++ d ++ [46%N] ++ t
        /\ l <> [] /\ d <> [] /\ t <> []
        /\ forallb Email.local_char l = true
        /\ forallb Email.local_char d = true
        /\ forallb Email.local_char t = true.
Proof.
  exact (validateEmail_accepts_exactly
           (Js.lit "first.last@mail.example.org") eq_refl).
Defined.

(* --------------------------------------------------------------------- *)
(** ** The form handlers                                                   *)
(* --------------------------------------------------------------------- *)

Lemma str_eqb_eq (a b : Js.jsstring) : Js.str_eqb a b = true <-> a = b.
Proof.
  unfold Js.str_eqb. destruct (list_eq_dec N.eq_dec a b); split; intros H;
    try assumption; try reflexivity; try discriminate. contradiction.
Qed.

(** X2. The registration form is submitted exactly when it shows no
    error, and that is exactly when the trimmed full name is not empty,
    the trimmed email passes [validateEmail], the password has at least 8
    code units, and the confirmation equals the password.  Each field
    gets at most one error. *)
Theorem register_submits_only_valid_input :
  forall (fullname email password confirmPassword : Js.jsstring)
         (submitButton : bool),
    let es := Forms.registerSubmit fullname email password confirmPassword
                submitButton in
    (Forms.submits es = true
     <-> Js.trim fullname <> []
         /\ Email.validateEmail (Js.trim email) = true
         /\ (8 <= length password)%nat
         /\ confirmPassword = password)
    /\ (Forms.submits es = true <-> Forms.errors es = [])
    /\ (forall f, (length (Forms.errors_on f es) <= 1)%nat).
Proof.
  intros fullname email password confirmPassword submitButton es.
  subst es. unfold Forms.registerSubmit.
  destruct (Js.trim fullname) as [|a fn] eqn:Ef;
  destruct (Js.trim email) as [|b em] eqn:Ee;
  try (destruct (Email.validateEmail (b :: em)) eqn:Ev);
  destruct password as [|c pw];
  try (destruct (length (c :: pw) <? 8)%nat eqn:El);
  destruct confirmPassword as [|d cp];
  try (destruct (Js.str_eqb (c :: pw) (d :: cp)) eqn:Es);
  cbn [negb Forms.reject Forms.conclude fst snd app];
  destruct submitButton; cbn [app];
  (split; [|split]);
  try (intros f; destruct f; cbn; lia);
  try (split; [intros H; discriminate H | intros H; discriminate H]);
  try (split; [intros H; discriminate H |]);
  try (split; [intros _; reflexivity | intros _; reflexivity]);
  try (intros (H1 & H2 & H3 & H4); try discriminate H2; try discriminate H4;
       try (exfalso; apply H1; reflexivity);
       try (apply Nat.ltb_lt in El; exfalso; lia);
       try (simpl in H3; exfalso; lia);
       try (symmetry in H4; apply str_eqb_eq in H4; rewrite H4 in Es; discriminate Es)).
  all: try (split; [intros _ | intros _; reflexivity]).
  all: try (repeat split; try discriminate;
            [apply Nat.ltb_ge in El; exact El
            | symmetry; apply str_eqb_eq; exact Es]).
Qed.

(** X3. The login form is submitted exactly when the trimmed email or
    username and the password, as typed, are both non-empty; it is
    submitted exactly when it shows no error. *)
Theorem login_submits_only_filled_input :
  forall (email password : Js.jsstring) (submitButton : bool),
    let es := Forms.loginSubmit email password submitButton in
    (Forms.submits es = true <-> Js.trim email <> [] /\ password <> [])
    /\ (Forms.submits es = true <-> Forms.errors es = [])
    /\ (forall f, (length (Forms.errors_on f es) <= 1)%nat).
Proof.
  intros email password submitButton es. subst es. unfold Forms.loginSubmit.
  destruct (Js.trim email) as [|b em]; destruct password as [|c pw];
    cbn [Forms.reject Forms.conclude fst snd app];
    destruct submitButton; cbn [app];
    (split; [|split]);
    try (intros f; destruct f; cbn; lia);
    try (split; [intros H; discriminate H | intros H; discriminate H]);
    try (split; [intros _; reflexivity | intros _; reflexivity]);
    try (split; [intros H; discriminate H
                | intros [H1 H2]; exfalso; first [apply H1; reflexivity | apply H2; reflexivity]]).
  all: split; [intros _; split; discriminate | intros _; reflexivity].
Qed.

(** X4. The form that sets a new password is submitted exactly when the
    new password has at least 8 code units and the confirmation equals
    it, and exactly when it shows no error. *)
Theorem passwordUpdate_submits_only_valid_input :
  forall (newPassword confirmPassword : Js.jsstring) (button : bool),
    let es := Forms.passwordUpdateSubmit newPassword confirmPassword button in
    (Forms.submits es = true
     <-> (8 <= length newPassword)%nat /\ confirmPassword = newPassword)
    /\ (Forms.submits es = true <-> Forms.errors es = [])
    /\ (forall f, (length (Forms.errors_on f es) <= 1)%nat).
Proof.
  intros password confirmPassword submitButton es.
  subst es. unfold Forms.passwordUpdateSubmit.
  destruct password as [|c pw];
  try (destruct (length (c :: pw) <? 8)%nat eqn:El);
  destruct confirmPassword as [|d cp];
  try (destruct (Js.str_eqb (c :: pw) (d :: cp)) eqn:Es);
  cbn [negb Forms.reject Forms.conclude fst snd app];
  destruct submitButton; cbn [app];
  (split; [|split]);
  try (intros f; destruct f; cbn; lia);
  try (split; [intros H; discriminate H | intros H; discriminate H]);
  try (split; [intros H; discriminate H |]);
  try (split; [intros _; reflexivity | intros _; reflexivity]);
  try (intros (H3 & H4); try discriminate H4;
       try (apply Nat.ltb_lt in El; exfalso; lia);
       try (simpl in H3; exfalso; lia);
       try (symmetry in H4; apply str_eqb_eq in H4; rewrite H4 in Es; discriminate Es)).
  all: try (split; [intros _ | intros _; reflexivity]).
  all: try (split;
            [apply Nat.ltb_ge in El; exact El
            | symmetry; apply str_eqb_eq; exact Es]).
Qed.

(* --------------------------------------------------------------------- *)
(** ** What the fetch-based operations show and request                    *)
(* --------------------------------------------------------------------- *)

(** X5. The password-reset handler shows exactly one outcome to the user,
    whatever the input and the reply: one field error or the success
    toast.  It sends its request, once, exactly when the trimmed input
    passes [validateEmail] and the CSRF field is in the page, and it
    sends nothing to any other endpoint. *)
Theorem passwordReset_shows_one_outcome :
  forall (input : Js.jsstring) (csrfField : bool)
         (o : Ops.outcome Ops.reset_data),
    let es := Ops.passwordResetSubmit input csrfField o in
    length (filter Ops.shown_to_user es) = 1%nat
    /\ Ops.requests_to Ops.EpPasswordReset es
       = (if Email.validateEmail (Js.trim input) && csrfField then 1%nat else 0%nat)
    /\ Ops.requests_to Ops.EpLimit es = 0%nat
    /\ Ops.requests_to Ops.EpExport es = 0%nat
    /\ Ops.requests_to Ops.EpSendStreaming es = 0%nat
    /\ Ops.requests_to Ops.EpSend es = 0%nat.
Proof.
  intros input csrfField o es. subst es. unfold Ops.passwordResetSubmit.
  destruct (Js.trim input) as [|c s] eqn:E.
  - repeat split.
  - destruct (Email.validateEmail (c :: s)); cbn [negb andb]; [|repeat split].
    destruct csrfField; cbn [negb]; [|repeat split].
    destruct o as [|ok [|d]]; [repeat split | repeat split |].
    destruct (Ops.r_success d); repeat split.
Qed.

(** X6. [exportConversation] ends with exactly one toast in every case,
    and it sends its request, once, exactly when the page holds at least
    one message and the read of the CSRF token does not throw; when that
    read throws, the toast is the one for a network error. *)
Theorem export_shows_one_toast :
  forall (messages : nat) (csrftoken : Cookie.result)
         (o : Ops.outcome (option Js.jsstring)),
    let es := Ops.exportConversation messages csrftoken o in
    length (filter Ops.shown_to_user es) = 1%nat
    /\ Ops.requests_to Ops.EpExport es
       = (match messages with
          | O => 0%nat
          | _ => if Cookie.returned csrftoken then 1%nat else 0%nat
          end)
    /\ (messages = 0%nat ->
        es = [Ops.Toast (Js.lit "No messages to export") (Js.lit "error")])
    /\ (messages <> 0%nat -> Cookie.returned csrftoken = false ->
        es = [Ops.ConsoleError (Js.lit "Error exporting:");
              Ops.Toast (Js.lit "Network error while exporting") (Js.lit "error")]).
Proof.
  intros messages token o es. subst es. unfold Ops.exportConversation.
  destruct messages as [|n]; [repeat split; intros H; contradiction|].
  destruct token as [tok|]; [|repeat split; discriminate].
  destruct o as [|[|] [|d]]; repeat split; discriminate.
Qed.

(** X7. [sendMessage] does nothing at all on blank input or while a
    message is being typed out; when the limit is reached it shows one
    error toast and nothing else; in all three cases it sends no request
    and appends no message.  Otherwise, when the read of the CSRF token
    throws, it sends no request at all; when that read returns, it sends
    exactly one request to the streaming endpoint, the fallback request
    to /chat/api/send/ exactly when [tryStreaming] returned false, and
    it asks for the limit once unless the fallback threw or the token
    read of [fetchMessageLimit] throws. *)
Theorem sendMessage_is_guarded :
  forall (JSON_parse : Js.jsstring -> Streaming.parsed)
         (input : Js.jsstring) (c : Ops.chat) (blockedNotice : Js.jsstring)
         (csrftoken : Cookie.result)
         (rs : Streaming.response) (rr : Ops.outcome Ops.send_data)
         (limitToken : Cookie.result) (rl : Ops.outcome Ops.limit_data),
    let es := Ops.sendMessage JSON_parse input c blockedNotice csrftoken rs rr
                limitToken rl in
    let streamed := fst (Streaming.tryStreaming JSON_parse rs Streaming.entry) in
    match Js.trim input with
    | [] => es = []
    | _ =>
        if Ops.isTyping c || Ops.isInitialTyping c then es = []
        else if negb (Ops.canSend c)
             then es = [Ops.Toast blockedNotice (Js.lit "error")]
             else if negb (Cookie.returned csrftoken)
             then Ops.requests_to Ops.EpSendStreaming es = 0%nat
                  /\ Ops.requests_to Ops.EpSend es = 0%nat
                  /\ Ops.requests_to Ops.EpLimit es = 0%nat
             else Ops.requests_to Ops.EpSendStreaming es = 1%nat
                  /\ Ops.requests_to Ops.EpSend es
                     = (if streamed then 0%nat else 1%nat)
                  /\ Ops.requests_to Ops.EpLimit es
                     = (if negb (Cookie.returned limitToken) then 0%nat
                        else if streamed then 1%nat
                        else if snd (Ops.regularRequest rr) then 0%nat else 1%nat)
    end.
Proof.
  intros JSON_parse input c blockedNotice token rs rr tl rl es streamed.
  subst es streamed.
  destruct (Js.trim input) as [|a t] eqn:E.
  { unfold Ops.sendMessage. rewrite E. reflexivity. }
  destruct (Ops.isTyping c) eqn:T.
  { unfold Ops.sendMessage. rewrite E, T. reflexivity. }
  destruct (Ops.isInitialTyping c) eqn:I.
  { unfold Ops.sendMessage. rewrite E, T, I. reflexivity. }
  destruct (Ops.canSend c) eqn:C.
  2:{ unfold Ops.sendMessage. rewrite E, T, I, C. reflexivity. }
  cbn [orb negb].
  assert (Q : forall ep,
    Ops.requests_to ep
      (Ops.sendMessage JSON_parse input c blockedNotice token rs rr tl rl)
    = (if Cookie.returned token then
         (match ep with Ops.EpSendStreaming => 1 | _ => 0 end)
         + (if fst (Streaming.tryStreaming JSON_parse rs Streaming.entry)
            then Ops.requests_to ep (Ops.fetchMessageLimit tl rl)
            else (match ep with Ops.EpSend => 1 | _ => 0 end)
                 + (if snd (Ops.regularRequest rr) then 0
                    else Ops.requests_to ep (Ops.fetchMessageLimit tl rl)))
       else 0)%nat).
  { intros ep.
    rewrite (sendMessage_sends _ _ _ _ _ _ _ _ _ _ _ E T I C).
    rewrite requests_to_app, requests_to_appendMessage.
    destruct token as [tok|]; cbn [Cookie.returned].
    - rewrite !requests_to_app, requests_to_streamed, requests_to_map_console.
      destruct (fst (Streaming.tryStreaming JSON_parse rs Streaming.entry)).
      + destruct ep; reflexivity.
      + rewrite !requests_to_app, regularRequest_requests.
        destruct (snd (Ops.regularRequest rr)).
        * rewrite requests_to_app, requests_to_appendMessage.
          destruct ep; reflexivity.
        * destruct ep; reflexivity.
    - rewrite requests_to_app, requests_to_appendMessage. destruct ep; reflexivity. }
  rewrite !Q, !fetchMessageLimit_requests.
  destruct (Cookie.returned token); cbn [negb]; [|repeat split].
  destruct tl as [v|]; cbn [Cookie.returned negb];
    destruct (fst (Streaming.tryStreaming JSON_parse rs Streaming.entry));
    destruct (snd (Ops.regularRequest rr)); repeat split.
Qed.

(* --------------------------------------------------------------------- *)
(** ** The name of the exported file                                       *)
(* --------------------------------------------------------------------- *)

Section ExportFileFacts.
Import Js ExportFile.

(** Replacing every match of a one-unit class by one code unit is a map. *)
Lemma replace_class (p : char16 -> bool) (x : char16) (s : jsstring) :
  replace_all [Atom p One] (fun _ => [x]) s
  = map (fun c => if p c then x else c) s.
Proof.
  unfold replace_all. induction s as [|c s IH]; [reflexivity|].
  cbn [map]. destruct (p c) eqn:E.
  - rewrite (replace_go_match _ _ c s [[c]] s 0);
      [cbn [skipn]; rewrite IH; reflexivity | | reflexivity | apply Nat.le_0_l].
    cbn [match_atoms qnt cls]. rewrite E. reflexivity.
  - rewrite replace_go_nomatch; [rewrite IH; reflexivity|].
    cbn [match_atoms qnt cls]. rewrite E. reflexivity.
Qed.

Lemma title_nonempty (input : jsstring) : title input <> [].
Proof. unfold title. destruct (trim input); discriminate. Qed.

Lemma below (n : nat) (P : char16 -> bool) :
  forallb P (map N.of_nat (seq 0 n)) = true ->
  forall c, (c < N.of_nat n)%N -> P c = true.
Proof.
  intros H c Hc. rewrite forallb_forall in H. apply H.
  apply in_map_iff. exists (N.to_nat c). split; [apply N2Nat.id|].
  apply in_seq. lia.
Qed.

Lemma safe_lower_unit (c : char16) :
  safe_unit
    (let d := if negb (alnum_ci c) then 95%N else c in
     if ((65 <=? d) && (d <=? 90))%N then (d + 32)%N else d) = true.
Proof.
  destruct (N.ltb_spec c 123) as [L|L].
  - revert c L. apply (below 123). vm_compute. reflexivity.
  - unfold alnum_ci, asciiUpper, digit.
    destruct (N.leb_spec c 122); [lia|]. rewrite andb_false_r.
    destruct (N.leb_spec c 90); [lia|]. rewrite andb_false_r.
    destruct (N.leb_spec c 57); [lia|]. rewrite andb_false_r.
    reflexivity.
Qed.

End ExportFileFacts.

(** X8. The name of the exported file is always safe: it is a non-empty
    stem followed by '.txt', the stem has one code unit for each code
    unit of the title (the trimmed input, or the default title when that
    is empty), and every code unit of the stem is a lower-case ASCII
    letter, a digit or an underscore. *)
Theorem downloadName_is_safe :
  forall chatTitleInput : Js.jsstring,
    exists stem,
      ExportFile.downloadName chatTitleInput = stem ++ Js.lit ".txt"
      /\ stem <> []
      /\ length stem = length (ExportFile.title chatTitleInput)
      /\ forallb ExportFile.safe_unit stem = true.
Proof.
  intros input. unfold ExportFile.downloadName.
  exists (Js.toLowerCase
            (Js.replace_all ExportFile.not_alnum (fun _ => Js.lit "_")
               (ExportFile.title input))).
  split; [reflexivity|].
  unfold ExportFile.not_alnum. change (Js.lit "_") with [95%N].
  rewrite replace_class. unfold Js.toLowerCase. rewrite map_map.
  pose proof (title_nonempty input) as Hne.
  split; [|split].
  - destruct (ExportFile.title input); [contradiction | discriminate].
  - apply length_map.
  - apply forallb_forall. intros y Hy. apply in_map_iff in Hy.
    destruct Hy as (c & <- & _). exact (safe_lower_unit c).
Qed.

(* --------------------------------------------------------------------- *)
(** ** tryStreaming and the typing lock                                    *)
(* --------------------------------------------------------------------- *)

Section StreamingMessagesLockFacts.
Import Js Streaming LockReference.

Variable JSON_parse : jsstring -> parsed.
Variable emailAnchor feedbackAnchor : jsstring.

Lemma set_element_lock c st :
  messages_lock (StreamingMessages.set_element c st) = messages_lock st.
Proof. reflexivity. Qed.

Lemma updateStreamingMessage_lock text st :
  messages_lock
    (StreamingMessages.updateStreamingMessage emailAnchor feedbackAnchor text st)
  = messages_lock st.
Proof.
  unfold StreamingMessages.updateStreamingMessage.
  destruct (StreamingMessages.has_marker text); apply set_element_lock.
Qed.

Lemma animate_lock text st :
  messages_lock
    (StreamingMessages.animateTextCharacterByCharacter emailAnchor feedbackAnchor
       text st)
  = messages_lock st.
Proof.
  unfold StreamingMessages.animateTextCharacterByCharacter.
  destruct (StreamingMessages.has_marker text).
  - rewrite set_element_lock.
    destruct (StreamingMessages.convertMarkersToPlainText text); reflexivity.
  - destruct text; reflexivity.
Qed.

Lemma messages_on_chunk_lock d st :
  messages_lock (StreamingMessages.on_chunk emailAnchor feedbackAnchor d st)
  = messages_lock st.
Proof.
  unfold StreamingMessages.on_chunk.
  destruct (truthy (chunk d)) as [c|]; [|reflexivity]. cbv zeta.
  destruct (StreamingMessages.isFallbackMessage st
            || StreamingMessages.has_marker (StreamingMessages.fullResponse st ++ c));
    [reflexivity|].
  rewrite updateStreamingMessage_lock. reflexivity.
Qed.

Lemma messages_on_done_lock st :
  messages_lock (StreamingMessages.on_done emailAnchor feedbackAnchor st)
  = (StreamingMessages.typingIndicator st, false,
     S (StreamingMessages.sendButtonUpdates st), StreamingMessages.console st).
Proof.
  unfold StreamingMessages.on_done.
  match goal with
  | |- context [StreamingMessages.State
                  (StreamingMessages.fullResponse ?x) _ _ _ _ _ _] =>
      assert (L : messages_lock x = messages_lock st); [|set (y := x) in *]
  end.
  { destruct (StreamingMessages.messageElement st); [|reflexivity].
    destruct (StreamingMessages.isFallbackMessage st); [apply animate_lock|].
    destruct (StreamingMessages.has_link_marker _); apply set_element_lock. }
  unfold messages_lock in *.
  cbn [StreamingMessages.typingIndicator StreamingMessages.isTyping
       StreamingMessages.sendButtonUpdates StreamingMessages.console].
  injection L as L1 _ L3 L4. rewrite L1, L3, L4. reflexivity.
Qed.

(** The same for the reader of the chat-messages script. *)
Lemma messages_on_lines_lock (lines : list jsstring) :
  forall st,
    match StreamingMessages.on_lines JSON_parse emailAnchor feedbackAnchor st lines with
    | StreamingMessages.Continue st' | StreamingMessages.Throw st' =>
        messages_lock st' = messages_lock st
    | StreamingMessages.Return st' =>
        messages_lock st'
        = (StreamingMessages.typingIndicator st, false,
           S (StreamingMessages.sendButtonUpdates st),
           StreamingMessages.console st)
    end.
Proof.
  induction lines as [|line rest IH]; intros st; cbn [StreamingMessages.on_lines].
  - reflexivity.
  - unfold StreamingMessages.on_line.
    destruct (startsWith line data_prefix); [|apply IH].
    destruct (JSON_parse (slice_from 6 line)) as [| |d]; [apply IH | reflexivity |].
    pose proof (messages_on_chunk_lock d st) as C.
    destruct (done d).
    + rewrite messages_on_done_lock. unfold messages_lock in C.
      injection C as C1 _ C3 C4. rewrite C1, C3, C4. reflexivity.
    + destruct (truthy (error d)); [exact C|].
      specialize (IH (StreamingMessages.on_chunk emailAnchor feedbackAnchor d st)).
      destruct (StreamingMessages.on_lines JSON_parse emailAnchor feedbackAnchor
                  (StreamingMessages.on_chunk emailAnchor feedbackAnchor d st) rest).
      * rewrite IH. exact C.
      * rewrite IH. unfold messages_lock in C.
        injection C as C1 _ C3 C4. rewrite C1, C3, C4. reflexivity.
      * rewrite IH. exact C.
Qed.

Lemma messages_read_loop_lock (rs : list jsstring) (fails : bool) :
  forall st,
    match StreamingMessages.read_loop JSON_parse emailAnchor feedbackAnchor st rs fails with
    | StreamingMessages.Continue st' | StreamingMessages.Throw st' =>
        messages_lock st' = messages_lock st
    | StreamingMessages.Return st' =>
        messages_lock st'
        = (StreamingMessages.typingIndicator st, false,
           S (StreamingMessages.sendButtonUpdates st),
           StreamingMessages.console st)
    end.
Proof.
  induction rs as [|value rs IH]; intros st; cbn [StreamingMessages.read_loop].
  - destruct fails; reflexivity.
  - pose proof (messages_on_lines_lock (split c_newline value) st) as L.
    destruct (StreamingMessages.on_lines JSON_parse emailAnchor feedbackAnchor st
                (split c_newline value)) as [st'|st'|st']; [|exact L | exact L].
    specialize (IH st').
    destruct (StreamingMessages.read_loop JSON_parse emailAnchor feedbackAnchor
                st' rs fails).
    + rewrite IH. exact L.
    + rewrite IH. unfold messages_lock in L.
      injection L as L1 _ L3 L4. rewrite L1, L3, L4. reflexivity.
    + rewrite IH. exact L.
Qed.

End StreamingMessagesLockFacts.

(** X9. [tryStreaming] releases the typing lock exactly when it returns
    true, in chat.js and, for a reply that is read as a stream, in the
    chat-messages script.  When it returns true, [isTyping] is false, the
    send button has been updated once, the typing indicator is gone and
    nothing was logged.  When it returns false, [isTyping] and the send
    button are as before, so that the caller's fallback has to release
    the lock; the failure is logged once, except for a response that is
    not ok or has no body, where nothing is logged and the typing
    indicator stays. *)
Theorem tryStreaming_releases_lock_on_success :
  forall (JSON_parse : Js.jsstring -> Streaming.parsed)
         (emailAnchor feedbackAnchor : Js.jsstring)
         (jsonReply : StreamingMessages.state -> bool * StreamingMessages.state)
         (r : Streaming.response) (st : Streaming.state)
         (ok : bool) (body : option Streaming.stream)
         (st' : StreamingMessages.state),
    let res := Streaming.tryStreaming JSON_parse r st in
    let res' :=
      StreamingMessages.tryStreaming JSON_parse emailAnchor feedbackAnchor
        jsonReply (StreamingMessages.Response ok false body) st' in
    (if fst res then
       Streaming.isTyping (snd res) = false
       /\ Streaming.sendButtonUpdates (snd res) = S (Streaming.sendButtonUpdates st)
       /\ Streaming.typingIndicator (snd res) = false
       /\ Streaming.console (snd res) = Streaming.console st
     else
       Streaming.isTyping (snd res) = Streaming.isTyping st
       /\ Streaming.sendButtonUpdates (snd res) = Streaming.sendButtonUpdates st
       /\ match r with
          | Streaming.Response true (Some _) | Streaming.FetchRejected =>
              Streaming.console (snd res)
              = Streaming.console st ++ [Streaming.StreamingError]
          | _ =>
              Streaming.console (snd res) = Streaming.console st
              /\ Streaming.typingIndicator (snd res) = Streaming.typingIndicator st
              /\ Streaming.messageElement (snd res) = None
          end)
    /\ (if fst res' then
          LockReference.messages_lock (snd res')
          = (false, false, S (StreamingMessages.sendButtonUpdates st'),
             StreamingMessages.console st')
        else
          LockReference.messages_lock (snd res')
          = (match ok, body with
             | true, Some _ => false
             | _, _ => StreamingMessages.typingIndicator st'
             end,
             StreamingMessages.isTyping st',
             StreamingMessages.sendButtonUpdates st',
             StreamingMessages.console st'
             ++ match ok, body with
                | true, Some _ => [Streaming.StreamingError]
                | _, _ => []
                end)).
Proof.
  intros JSON_parse ea fa jsonReply r st ok body st' res res'. split.
  - subst res. unfold Streaming.tryStreaming.
    destruct r as [|[|] [b|]]; cbn [fst snd]; try (repeat split; fail).
    match goal with
    | |- context [Streaming.read_loop JSON_parse ?s ?rs ?f] =>
        pose proof (read_loop_lock JSON_parse rs f s) as L;
        destruct (Streaming.read_loop JSON_parse s rs f) as [s'|s'|s']
    end; cbn [fst snd Streaming.finish Streaming.caught Streaming.isTyping
              Streaming.sendButtonUpdates Streaming.typingIndicator
              Streaming.console] in *;
      destruct L as (L1 & L2 & L3 & L4); rewrite ?L1, ?L2, ?L3, ?L4;
      repeat split.
  - subst res'. unfold StreamingMessages.tryStreaming.
    destruct ok; [|cbn; rewrite app_nil_r; reflexivity].
    destruct body as [b|]; [|cbn; rewrite app_nil_r; reflexivity].
    match goal with
    | |- context [StreamingMessages.read_loop JSON_parse ea fa ?s ?rs ?f] =>
        pose proof (messages_read_loop_lock JSON_parse ea fa rs f s) as L;
        destruct (StreamingMessages.read_loop JSON_parse ea fa s rs f)
          as [s'|s'|s']
    end; cbn [fst snd]; unfold LockReference.messages_lock in *;
      cbn [StreamingMessages.finish StreamingMessages.caught
           StreamingMessages.typingIndicator StreamingMessages.isTyping
           StreamingMessages.sendButtonUpdates StreamingMessages.console] in *;
      injection L as L1 L2 L3 L4; rewrite ?L1, ?L2, ?L3, ?L4; reflexivity.
Qed.

(* --------------------------------------------------------------------- *)
(** ** The modal stack as a counter of unmatched opens                     *)
(* --------------------------------------------------------------------- *)

Section ModalStackCounting.
Import Js ModalStack ModalStackReference.
Local Open Scope Z_scope.

Lemma reports_app (a b : list (level * message)) :
  reports (a ++ b) = reports a + reports b.
Proof. unfold reports. rewrite filter_app, length_app. lia. Qed.

Lemma reports_negative_report (v : script) : reports (negative_report v) = 1.
Proof. destruct v; reflexivity. Qed.

Lemma reports_nonneg l : 0 <= reports l.
Proof. unfold reports. lia. Qed.

Lemma opens_cons c cs :
  opens (c :: cs) = (if is_open c then 1 else 0) + opens cs.
Proof. unfold opens. cbn [filter]. destruct (is_open c); cbn [length]; lia. Qed.

Lemma closes_cons c cs :
  closes (c :: cs) = (if is_open c then 0 else 1) + closes cs.
Proof. unfold closes. cbn [filter]. destruct (is_open c); cbn [negb length]; lia. Qed.

(** Every call moves the counter by one, except a close that is
    reported. *)
Lemma run_accounts (v : script) (cs : list call) :
  forall p, consistent p ->
    count (run v cs p) - reports (console (run v cs p))
    = count p - reports (console p) + opens cs - closes cs.
Proof.
  induction cs as [|c cs IH]; intros p Hp.
  - unfold opens, closes. simpl. lia.
  - cbn [run fold_left]. fold (run v cs (step v p c)).
    rewrite (IH _ (consistent_step v p c Hp)), opens_cons, closes_cons.
    destruct Hp as (D & C & _). destruct c; cbn [step is_open].
    + rewrite (open_spec p D). cbn [count console]. lia.
    + rewrite (close_spec v p D). cbn [count console]. rewrite reports_app.
      destruct (Z.leb_spec (count p) 0).
      * rewrite reports_negative_report. lia.
      * change (reports []) with 0. lia.
Qed.

Lemma run_console_grows (v : script) (cs : list call) :
  forall p, consistent p ->
    (length (console p) <= length (console (run v cs p)))%nat.
Proof.
  induction cs as [|c cs IH]; intros p Hp; [simpl; lia|].
  cbn [run fold_left]. fold (run v cs (step v p c)).
  specialize (IH _ (consistent_step v p c Hp)).
  destruct Hp as (D & C & _).
  assert (L : (length (console p) <= length (console (step v p c)))%nat).
  { destruct c; cbn [step].
    - rewrite (open_spec p D). cbn [console]. lia.
    - rewrite (close_spec v p D). cbn [console]. rewrite length_app. lia. }
  lia.
Qed.

(** The console is left alone exactly when every close finds a modal
    open. *)
Lemma run_console_matched (v : script) (cs : list call) :
  forall p, consistent p ->
    (matched_from (Z.to_nat (count p)) cs = true
     <-> console (run v cs p) = console p).
Proof.
  induction cs as [|c cs IH]; intros p Hp.
  - simpl. split; reflexivity.
  - cbn [run fold_left]. fold (run v cs (step v p c)).
    pose proof (consistent_step v p c Hp) as Hs.
    pose proof (run_console_grows v cs _ Hs) as G.
    specialize (IH _ Hs).
    destruct Hp as (D & C & _). destruct c; cbn [step matched_from] in *.
    + assert (Ec : count (open p) = count p + 1)
        by (rewrite (open_spec p D); reflexivity).
      assert (El : console (open p) = console p)
        by (rewrite (open_spec p D); reflexivity).
      rewrite Ec, El in IH.
      replace (S (Z.to_nat (count p))) with (Z.to_nat (count p + 1)) by lia.
      exact IH.
    + assert (Ec : count (close v p) = Z.max 0 (count p - 1))
        by (rewrite (close_spec v p D); reflexivity).
      assert (El : console (close v p)
                   = console p ++ (if count p <=? 0 then negative_report v else []))
        by (rewrite (close_spec v p D); reflexivity).
      rewrite Ec, El in IH. rewrite El in G.
      destruct (Z.leb_spec (count p) 0).
      * replace (Z.to_nat (count p)) with O by lia.
        split; [discriminate|]. intros E. exfalso.
        rewrite E, length_app in G. destruct v; simpl in G; lia.
      * rewrite app_nil_r in IH.
        destruct (Z.to_nat (count p)) as [|d] eqn:E; [lia|].
        replace (Z.to_nat (Z.max 0 (count p - 1))) with d in IH by lia.
        exact IH.
Qed.

(** Whatever the page was, after [forceReset] it is in the state that
    [open] and [close] maintain. *)
Lemma consistent_forceReset (p : page) :
  debug p = false -> consistent (forceReset p).
Proof. intros D. repeat split; simpl; try lia; exact D. Qed.

End ModalStackCounting.

(** X10. The counter of the modal stack counts the opens that no close has
    matched: after any sequence of calls from the initial object the
    count is the number of opens minus the number of closes plus the
    number of times the counter was reported negative; and nothing is
    reported exactly when every close has an earlier unmatched open, in
    which case the count is opens minus closes and the console is
    empty. *)
Theorem modal_count_is_opens_minus_closes :
  forall (v : script) (cs : list ModalStack.call),
    let p := ModalStack.run v cs ModalStack.init in
    (ModalStack.count p
     = ModalStackReference.opens cs - ModalStackReference.closes cs
       + ModalStackReference.reports (ModalStack.console p))%Z
    /\ (ModalStackReference.matched_from 0 cs = true
        <-> ModalStack.console p = [])
    /\ (ModalStackReference.matched_from 0 cs = true ->
        ModalStack.count p
        = (ModalStackReference.opens cs - ModalStackReference.closes cs)%Z).
Proof.
  intros v cs p.
  pose proof (run_accounts v cs _ consistent_init) as A.
  pose proof (run_console_matched v cs _ consistent_init) as M.
  fold p in A, M. change (ModalStack.count ModalStack.init) with 0%Z in *.
  change (ModalStackReference.reports (ModalStack.console ModalStack.init))
    with 0%Z in *.
  change (Z.to_nat 0) with O in M.
  change (ModalStack.console ModalStack.init) with (@nil (ModalStack.level * ModalStack.message)) in M.
  split; [lia | split; [exact M|]].
  intros H. apply M in H. rewrite H in A.
  change (ModalStackReference.reports []) with 0%Z in A. lia.
Qed.

(** X11. [forceReset] recovers from any state: whatever the counter and the
    overflow styles were, after it the counter is 0 and scrolling is
    unlocked, one warning is logged, and the calls that follow keep the
    counter non-negative and the scroll lock in step with it. *)
Theorem forceReset_recovers :
  forall (v : script) (p : ModalStack.page) (cs : list ModalStack.call),
    ModalStack.debug p = false ->
    let q := ModalStack.forceReset p in
    let q' := ModalStack.run v cs q in
    ModalStack.count q = 0%Z
    /\ ModalStack.scroll_locked q = false
    /\ ModalStack.html_overflow q = []
    /\ ModalStack.body_overflow q = []
    /\ ModalStack.console q
       = ModalStack.console p ++ [(ModalStack.LWarn, ModalStack.MsgForceReset)]
    /\ (0 <= ModalStack.count q')%Z
    /\ ModalStack.scroll_locked q' = (0 <? ModalStack.count q')%Z.
Proof.
  intros v p cs D q q'.
  assert (Hq : ModalStack.consistent q') by
    (apply consistent_run, consistent_forceReset, D).
  destruct Hq as (_ & C & HB & H).
  repeat split; try assumption.
  unfold ModalStack.scroll_locked. rewrite <- HB, H.
  destruct (0 <? ModalStack.count q')%Z; reflexivity.
Qed.

Lemma forceReset_recovers_witness :
  let p := ModalStack.Page (-2) false ModalStack.hidden [] [] in
  let q := ModalStack.forceReset p in
  let q' := ModalStack.run ChatJs [ModalStack.Open; ModalStack.Open; ModalStack.Close] q in
  ModalStack.count q = 0%Z
  /\ ModalStack.scroll_locked q = false
  /\ ModalStack.html_overflow q = []
  /\ ModalStack.body_overflow q = []
  /\ ModalStack.console q
     = ModalStack.console p ++ [(ModalStack.LWarn, ModalStack.MsgForceReset)]
  /\ (0 <= ModalStack.count q')%Z
  /\ ModalStack.scroll_locked q' = (0 <? ModalStack.count q')%Z.
Proof.
  exact (forceReset_recovers ChatJs
           (ModalStack.Page (-2) false ModalStack.hidden [] [])
           [ModalStack.Open; ModalStack.Open; ModalStack.Close] eq_refl).
Defined.

(* --------------------------------------------------------------------- *)
(** ** The deletion countdown                                              *)
(* --------------------------------------------------------------------- *)

Section CountdownFacts.
Import Js Confirm.

(** Once the interval is cleared its ticks do nothing. *)
Lemma ticks_without_timer (n : nat) (u : ui) :
  countdownTimer u = false -> fold_left handle (repeat Tick n) u = u.
Proof.
  intros H. induction n as [|n IH]; [reflexivity|].
  cbn [repeat fold_left handle]. rewrite H. exact IH.
Qed.

Lemma ticks_add (a b : nat) (u : ui) :
  fold_left handle (repeat Tick (a + b)) u
  = fold_left handle (repeat Tick b) (fold_left handle (repeat Tick a) u).
Proof. rewrite repeat_app, fold_left_app. reflexivity. Qed.

End CountdownFacts.

(** X12. The deletion countdown lasts exactly five ticks.  From the click
    that starts it, each of the first four ticks only lowers the number
    on the button ('Undo? 4' down to 'Undo? 1'): the guard stays on,
    nothing is scheduled, the modal and the stack are untouched.  The
    fifth tick clears the interval, turns the guard off, disables the
    button with 'Deleting...', closes the confirmation modal and
    schedules the deletion 300 ms later; further ticks do nothing. *)
Theorem deletion_countdown_takes_five_ticks :
  forall (u : Confirm.ui) (n : nat),
    let ticks k :=
      fold_left Confirm.handle (repeat Confirm.Tick k)
                (Confirm.startDeletionCountdown u) in
    ((n < 5)%nat ->
     Confirm.isCountdownActive (ticks n) = true
     /\ Confirm.countdownTimer (ticks n) = true
     /\ Confirm.buttonText (ticks n) = Confirm.UndoCount (5 - Z.of_nat n)
     /\ Confirm.buttonDisabled (ticks n) = false
     /\ Confirm.timeouts (ticks n) = Confirm.timeouts u
     /\ Confirm.confirmationModal (ticks n) = Confirm.confirmationModal u
     /\ Confirm.stack (ticks n) = Confirm.stack u)
    /\ ((5 <= n)%nat -> ticks n = ticks 5%nat)
    /\ Confirm.isCountdownActive (ticks 5%nat) = false
    /\ Confirm.countdownTimer (ticks 5%nat) = false
    /\ Confirm.buttonText (ticks 5%nat) = Confirm.DeletingText
    /\ Confirm.buttonDisabled (ticks 5%nat) = true
    /\ Confirm.timeouts (ticks 5%nat)
       = Confirm.timeouts u
         ++ [(300%nat, Confirm.FinishClose Confirm.Confirmation);
             (300%nat, Confirm.ClearConversationAndMemory)]
    /\ Confirm.closing (Confirm.confirmationModal (ticks 5%nat)) = true
    /\ Confirm.stack (ticks 5%nat)
       = ModalStack.close ChatJs (Confirm.stack u).
Proof.
  intros u n ticks. split; [|split].
  - intros Hn.
    destruct n as [|[|[|[|[|n]]]]]; [| | | | |lia]; repeat split.
  - intros Hn. replace n with (5 + (n - 5))%nat by lia.
    unfold ticks. rewrite ticks_add. apply ticks_without_timer. reflexivity.
  - unfold ticks. cbn. rewrite <- app_assoc. repeat split.
Qed.

(** X13. Undo really cancels.  A click on the button while the countdown
    runs (after fewer than five ticks) runs the cancel handler: the
    interval is cleared and the guard is off, the button is back to 'Yes,
    Delete Everything' with the handler that starts a countdown attached
    again, the toast 'Deletion cancelled' is shown, nothing has been
    scheduled, and no later tick changes anything, so the deletion never
    happens. *)
Theorem undo_cancels_deletion :
  forall (u : Confirm.ui) (k n : nat),
    let running :=
      fold_left Confirm.handle (repeat Confirm.Tick k)
                (Confirm.startDeletionCountdown u) in
    let undone := Confirm.handle running Confirm.ClickConfirmDeletion in
    (k < 5)%nat ->
    Confirm.isCountdownActive undone = false
    /\ Confirm.countdownTimer undone = false
    /\ Confirm.buttonText undone = Confirm.YesDeleteEverything
    /\ Confirm.buttonDisabled undone = false
    /\ Confirm.cancelHidden undone = false
    /\ Confirm.mainHandlerAttached undone = true
    /\ Confirm.toasts undone = Confirm.toasts u ++ [Js.lit "Deletion cancelled"]
    /\ Confirm.timeouts undone = Confirm.timeouts u
    /\ Confirm.stack undone = Confirm.stack u
    /\ Confirm.confirmationModal undone = Confirm.confirmationModal u
    /\ fold_left Confirm.handle (repeat Confirm.Tick n) undone = undone.
Proof.
  intros u k n running undone Hk.
  assert (T : Confirm.countdownTimer undone = false).
  { destruct k as [|[|[|[|[|k]]]]]; [| | | | |lia]; reflexivity. }
  destruct k as [|[|[|[|[|k]]]]]; [| | | | |lia];
    (repeat split; [apply ticks_without_timer; exact T]).
Qed.

Lemma undo_cancels_deletion_witness :
  let running :=
    fold_left Confirm.handle (repeat Confirm.Tick 3)
              (Confirm.startDeletionCountdown
                 (Confirm.after [Confirm.ClickClear; Confirm.ClickClearAll])) in
  let undone := Confirm.handle running Confirm.ClickConfirmDeletion in
  Confirm.isCountdownActive undone = false
  /\ fold_left Confirm.handle (repeat Confirm.Tick 7) undone = undone.
Proof.
  pose proof (undo_cancels_deletion
                (Confirm.after [Confirm.ClickClear; Confirm.ClickClearAll])
                3 7 ltac:(lia)) as H.
  cbv zeta in H. destruct H as (A & _ & _ & _ & _ & _ & _ & _ & _ & _ & B).
  split; [exact A | exact B].
Defined.

(* --------------------------------------------------------------------- *)
(** ** getCookie reads back what the cookie jar holds                      *)
(* --------------------------------------------------------------------- *)

Section CookieFacts.
Import Js Cookie CookieReference.

Variable decodeURIComponent : jsstring -> option jsstring.

Lemma trimEnd_fixed (s : jsstring) :
  forallb (fun c => negb (isWhiteSpace c)) s = true -> trimEnd s = s.
Proof.
  induction s as [|c s IH]; [reflexivity|]. cbn [forallb trimEnd].
  intros H. apply andb_true_iff in H as [Hc H]. rewrite (IH H).
  apply negb_true_iff in Hc. rewrite Hc. destruct s; reflexivity.
Qed.

Lemma trim_no_white (s : jsstring) :
  forallb (fun c => negb (isWhiteSpace c)) s = true -> trim s = s.
Proof.
  intros H. apply trim_fixed; [apply trimEnd_fixed, H|].
  destruct s as [|c s]; [exact I|]. cbn [forallb] in H.
  apply andb_true_iff in H as [Hc _]. apply negb_true_iff, Hc.
Qed.

Lemma pair_no_white (k v : jsstring) :
  forallb name_unit k = true -> forallb value_unit v = true ->
  forallb (fun c => negb (isWhiteSpace c)) (pair_text (k, v)) = true.
Proof.
  intros Hk Hv. unfold pair_text. cbn [fst snd]. rewrite !forallb_app.
  rewrite (forallb_weaken name_unit _ k), (forallb_weaken value_unit _ v);
    try assumption; try reflexivity.
  - intros c H. unfold value_unit in H. apply andb_true_iff in H as [H _]. exact H.
  - intros c H. unfold name_unit in H.
    apply andb_true_iff in H as [H _]. apply andb_true_iff in H as [H _]. exact H.
Qed.

Lemma pair_no_semicolon (k v : jsstring) :
  forallb name_unit k = true -> forallb value_unit v = true ->
  forallb (except 59%N) (pair_text (k, v)) = true.
Proof.
  intros Hk Hv. unfold pair_text. cbn [fst snd]. rewrite !forallb_app.
  rewrite (forallb_weaken name_unit _ k), (forallb_weaken value_unit _ v);
    try assumption; try reflexivity.
  - intros c H. unfold value_unit in H. apply andb_true_iff in H as [_ H]. exact H.
  - intros c H. unfold name_unit in H.
    apply andb_true_iff in H as [H _]. apply andb_true_iff in H as [_ H]. exact H.
Qed.

(** Splitting at a separator that the first piece does not hold. *)
Lemma split_app_sep (sep : char16) (a rest : jsstring) :
  forallb (except sep) a = true ->
  split sep (a ++ sep :: rest) = a :: split sep rest.
Proof.
  induction a as [|c a IH]; intros H.
  - cbn [app split]. rewrite N.eqb_refl. reflexivity.
  - cbn [forallb] in H. apply andb_true_iff in H as [Hc H].
    unfold except in Hc. apply negb_true_iff in Hc.
    cbn [app split]. rewrite Hc, (IH H). reflexivity.
Qed.

Lemma render_cons (kv kv' : jsstring * jsstring)
    (jar : list (jsstring * jsstring)) :
  render (kv :: kv' :: jar)
  = pair_text kv ++ 59%N :: 32%N :: render (kv' :: jar).
Proof. reflexivity. Qed.

(** The pieces of a rendered jar: the first pair, then each further
    pair after a space. *)
Lemma split_render (pre : jsstring) (kv : jsstring * jsstring)
    (jar : list (jsstring * jsstring)) :
  forallb (except 59%N) pre = true ->
  well_formed (kv :: jar) = true ->
  split 59%N (pre ++ render (kv :: jar))
  = (pre ++ pair_text kv) :: map (fun x => 32%N :: pair_text x) jar.
Proof.
  revert pre kv. induction jar as [|kv' jar IH]; intros pre [k v] Hpre Hw.
  - cbn [well_formed forallb fst snd] in Hw. rewrite andb_true_r in Hw.
    apply andb_true_iff in Hw as [Hk Hv].
    unfold render. cbn [map join]. apply split_none.
    rewrite forallb_app, Hpre. exact (pair_no_semicolon k v Hk Hv).
  - cbn [well_formed forallb] in Hw. apply andb_true_iff in Hw as [Hkv Hw].
    cbn [fst snd] in Hkv. apply andb_true_iff in Hkv as [Hk Hv].
    rewrite render_cons, app_assoc.
    rewrite split_app_sep
      by (rewrite forallb_app, Hpre; exact (pair_no_semicolon k v Hk Hv)).
    f_equal.
    exact (IH [32%N] kv' eq_refl Hw).
Qed.

(** A cookie starts with the name and an equals sign exactly when its
    name is that name. *)
Lemma firstn_name (name k v : jsstring) :
  forallb (except 61%N) name = true ->
  forallb (except 61%N) k = true ->
  str_eqb (firstn (length name + 1) (k ++ lit "=" ++ v)) (name ++ lit "=")
  = str_eqb k name.
Proof.
  revert k. induction name as [|a name IH]; intros k Hn Hk.
  - destruct k as [|b k].
    + reflexivity.
    + cbn [forallb] in Hk. apply andb_true_iff in Hk as [Hb _].
      unfold except in Hb. apply negb_true_iff in Hb.
      cbn [length Nat.add firstn app].
      unfold str_eqb.
      destruct (list_eq_dec N.eq_dec [b] (lit "=")) as [E|E];
        destruct (list_eq_dec N.eq_dec (b :: k) []) as [E'|E'];
        try reflexivity; try discriminate.
      injection E as ->. discriminate Hb.
  - cbn [forallb] in Hn. apply andb_true_iff in Hn as [Ha Hn].
    unfold except in Ha. apply negb_true_iff in Ha.
    destruct k as [|b k].
    + cbn [length Nat.add firstn app]. unfold str_eqb.
      destruct (list_eq_dec N.eq_dec _ _) as [E|E];
        destruct (list_eq_dec N.eq_dec [] (a :: name)) as [E'|E'];
        try reflexivity; try discriminate.
      exfalso. change (lit "=" ++ v) with (61%N :: v) in E.
      cbn [firstn] in E. injection E as E _. subst a. discriminate Ha.
    + cbn [forallb] in Hk. apply andb_true_iff in Hk as [_ Hk].
      specialize (IH k Hn Hk).
      cbn [length Nat.add firstn app]. unfold str_eqb in *.
      destruct (list_eq_dec N.eq_dec (b :: firstn (length name + 1) (k ++ lit "=" ++ v))
                  (a :: name ++ lit "=")) as [E|E];
        destruct (list_eq_dec N.eq_dec (b :: k) (a :: name)) as [E'|E'];
        try reflexivity.
      * exfalso. injection E as -> E.
        destruct (list_eq_dec N.eq_dec (firstn (length name + 1) (k ++ lit "=" ++ v))
                    (name ++ lit "=")); [|contradiction].
        destruct (list_eq_dec N.eq_dec k name) as [->|]; [|discriminate IH].
        apply E'. reflexivity.
      * exfalso. injection E' as -> ->.
        destruct (list_eq_dec N.eq_dec name name); [|contradiction].
        destruct (list_eq_dec N.eq_dec (firstn (length name + 1) (name ++ lit "=" ++ v))
                    (name ++ lit "=")) as [E2|]; [|discriminate IH].
        apply E. rewrite E2. reflexivity.
Qed.

Lemma skipn_name (k v : jsstring) :
  skipn (length k + 1) (k ++ lit "=" ++ v) = v.
Proof. induction k as [|b k IH]; [reflexivity | exact IH]. Qed.

Lemma name_unit_no_equals (k : jsstring) :
  forallb name_unit k = true -> forallb (except 61%N) k = true.
Proof.
  apply forallb_weaken. intros c H. unfold name_unit in H.
  apply andb_true_iff in H as [_ H]. exact H.
Qed.

(** The loop over the trimmed pieces finds the first pair with the
    name. *)
Lemma scan_pieces (name : jsstring) (jar : list (jsstring * jsstring)) :
  forallb (except 61%N) name = true ->
  well_formed jar = true ->
  forall pres,
    length pres = length jar ->
    Forall (fun pre => pre = [] \/ pre = [32%N]) pres ->
    scan decodeURIComponent name
      (map (fun x => fst x ++ pair_text (snd x)) (combine pres jar))
    = match assoc name jar with
      | Some v =>
          match decodeURIComponent v with
          | Some x => Value (Some x)
          | None => URIError
          end
      | None => Value None
      end.
Proof.
  intros Hn. induction jar as [|[k v] jar IH]; intros Hw pres Hl Hp.
  - destruct pres; [reflexivity | discriminate].
  - destruct pres as [|pre pres]; [discriminate|].
    cbn [well_formed forallb fst snd] in Hw.
    apply andb_true_iff in Hw as [Hkv Hw]. apply andb_true_iff in Hkv as [Hk Hv].
    inversion Hp as [|? ? Hpre Hp']; subst.
    cbn [combine map scan assoc fst snd].
    match goal with
    | |- context [trim ?x] => assert (T : trim x = pair_text (k, v))
    end.
    { destruct Hpre as [-> | ->].
      - apply trim_no_white, pair_no_white; assumption.
      - unfold trim. cbn [app trimStart isWhiteSpace].
        change (trimEnd (trimStart (pair_text (k, v)))) with (trim (pair_text (k, v))).
        apply trim_no_white, pair_no_white; assumption. }
    rewrite T. unfold pair_text at 1 2. cbn [fst snd].
    rewrite (firstn_name name k v Hn (name_unit_no_equals k Hk)).
    destruct (str_eqb k name) eqn:E.
    + apply str_eqb_eq in E. subst k. rewrite skipn_name. reflexivity.
    + apply IH; [exact Hw | | exact Hp'].
      injection Hl as Hl. exact Hl.
Qed.

End CookieFacts.

(** X14. [getCookie] reads back what the jar holds.  For a jar of
    name=value pairs serialised as the browser does (joined by a
    semicolon and a space; names without white space, semicolon or equals
    sign, values without white space or semicolon) and a name without an
    equals sign, [getCookie] returns the decoded value of the first pair
    with that name, null when there is none -- in particular on the empty
    cookie string -- and it throws only when [decodeURIComponent] throws
    on that value.  [getCSRFToken] prefers a non-empty form field and
    otherwise reads the csrftoken cookie. *)
Theorem getCookie_reads_back :
  forall (decodeURIComponent : Js.jsstring -> option Js.jsstring)
         (jar : list (Js.jsstring * Js.jsstring)) (name : Js.jsstring),
    CookieReference.well_formed jar = true ->
    forallb (Js.except 61%N) name = true ->
    let found (n : Js.jsstring) :=
      match CookieReference.assoc n jar with
      | Some v =>
          match decodeURIComponent v with
          | Some x => Cookie.Value (Some x)
          | None => Cookie.URIError
          end
      | None => Cookie.Value None
      end in
    Cookie.getCookie decodeURIComponent (CookieReference.render jar) name
    = found name
    /\ Cookie.getCookie decodeURIComponent [] name = Cookie.Value None
    /\ (forall field,
          Cookie.getCSRFToken decodeURIComponent field (CookieReference.render jar)
          = match field with
            | Some (c :: v) => Cookie.Value (Some (c :: v))
            | _ => found (Js.lit "csrftoken")
            end).
Proof.
  intros decode jar name Hw Hn found.
  assert (G : forall n, forallb (Js.except 61%N) n = true ->
                Cookie.getCookie decode (CookieReference.render jar) n = found n).
  { intros n Hn'. unfold Cookie.getCookie.
    destruct jar as [|kv jar]; [reflexivity|].
    destruct (CookieReference.render (kv :: jar)) as [|c r] eqn:Er.
    - exfalso. unfold CookieReference.render in Er. destruct kv as [k v].
      cbn [map] in Er. unfold CookieReference.pair_text at 1 in Er.
      cbn [fst snd] in Er.
      destruct jar; cbn [map Js.join] in Er;
        destruct k; discriminate Er.
    - rewrite <- Er.
      pose proof (split_render [] kv jar eq_refl Hw) as S. cbn [app] in S.
      rewrite S.
      pose proof (scan_pieces decode n (kv :: jar) Hn' Hw
                    ([] :: map (fun _ => [32%N]) jar)) as P.
      cbn [combine map app] in P.
      replace (map (fun x => 32%N :: CookieReference.pair_text x) jar)
        with (map (fun x : Js.jsstring * (Js.jsstring * Js.jsstring) =>
                     fst x ++ CookieReference.pair_text (snd x))
                (combine (map (fun _ => [32%N]) jar) jar)).
      + apply P.
        * cbn [length]. rewrite length_map. reflexivity.
        * constructor; [left; reflexivity|].
          apply Forall_forall. intros x Hx. apply in_map_iff in Hx.
          destruct Hx as (y & <- & _). right. reflexivity.
      + clear. induction jar as [|x jar IH]; [reflexivity|].
        cbn [map combine fst snd app]. rewrite IH. reflexivity. }
  split; [exact (G name Hn) | split; [reflexivity|]].
  intros field. unfold Cookie.getCSRFToken.
  destruct field as [[|c v]|]; try reflexivity; apply G; reflexivity.
Qed.

Lemma getCookie_reads_back_witness :
  Cookie.getCookie (fun v => Some v)
    (Js.lit "sessionid=abc123; csrftoken=tok-42; theme=dark")
    (Js.lit "csrftoken")
  = Cookie.Value (Some (Js.lit "tok-42")).
Proof.
  exact (proj1 (getCookie_reads_back (fun v => Some v)
                  [(Js.lit "sessionid", Js.lit "abc123");
                   (Js.lit "csrftoken", Js.lit "tok-42");
                   (Js.lit "theme", Js.lit "dark")]
                  (Js.lit "csrftoken") eq_refl eq_refl)).
Defined.

(* --------------------------------------------------------------------- *)
(** ** The countdown timer of the message limit                           *)
(* --------------------------------------------------------------------- *)

Section LimitTimerFacts.
Import Js LimitTimer.

Lemma clearInterval_single (id : nat) : clearInterval id [id] = [].
Proof. unfold clearInterval. cbn [filter]. rewrite Nat.eqb_refl. reflexivity. Qed.

Lemma live_cleared (p : page) :
  single p ->
  match timerInterval p with
  | Some id => clearInterval id (live p)
  | None => live p
  end = [].
Proof.
  intros [L _]. destruct (timerInterval p) as [id|]; rewrite L;
    [apply clearInterval_single | reflexivity].
Qed.

Lemma single_start (p : page) : single p -> single (startCountdownTimer p).
Proof.
  intros S. unfold startCountdownTimer.
  destruct (timerElement p) as [el|]; [|exact S].
  destruct (timerText p) as [t|]; [|exact S].
  unfold single. cbn [live timerInterval next]. rewrite (live_cleared p S).
  split; [reflexivity | lia].
Qed.

Lemma single_stop (p : page) : single p -> single (stopCountdownTimer p).
Proof.
  intros S. unfold stopCountdownTimer.
  destruct (timerElement p) as [el|]; unfold single;
    cbn [live timerInterval next]; rewrite (live_cleared p S); split; auto.
Qed.

Lemma single_tick (p : page) : single p -> single (tick p).
Proof.
  intros S. unfold tick. destruct (0 <? timeRemaining p)%Z; [exact S|].
  exact (single_stop p S).
Qed.

Lemma single_handle (p : page) (e : event) : single p -> single (handle p e).
Proof.
  intros S. destruct e as [| |id|c t u]; cbn [handle].
  - apply single_start, S.
  - apply single_stop, S.
  - destruct (existsb (Nat.eqb id) (live p)); [apply single_tick, S | exact S].
  - unfold limitReceived. destruct (negb u); [exact S|].
    destruct (negb c && (0 <? t)%Z); [apply single_start | apply single_stop];
      exact S.
Qed.

Lemma single_run (es : list event) :
  forall p, single p -> single (fold_left handle es p).
Proof.
  induction es as [|e es IH]; intros p S; [exact S|].
  cbn [fold_left]. apply IH, single_handle, S.
Qed.

End LimitTimerFacts.

(** X15. At most one countdown interval is alive.  After any sequence of
    starts, stops, interval firings and limit replies (handled to the
    end or cut short by an exception), on a page with or without the
    timer elements, the intervals that are set and not
    cleared are exactly the one stored in [timerInterval]: none when it
    is null, so [stopCountdownTimer] always ends the ticking and the
    countdown never runs at double speed. *)
Theorem countdown_has_one_interval :
  forall (el : option LimitTimer.timerStyle) (text : option Js.jsstring)
         (es : list LimitTimer.event),
    let p := fold_left LimitTimer.handle es (LimitTimer.init el text) in
    LimitTimer.live p
    = match LimitTimer.timerInterval p with Some id => [id] | None => [] end
    /\ LimitTimer.live (LimitTimer.stopCountdownTimer p) = []
    /\ (length (LimitTimer.live (LimitTimer.startCountdownTimer p)) <= 1)%nat.
Proof.
  intros el text es p.
  assert (S : LimitTimer.single p).
  { apply single_run. split; [reflexivity | exact I]. }
  split; [exact (proj1 S) | split].
  - destruct (single_stop p S) as [L _].
    rewrite L. unfold LimitTimer.stopCountdownTimer.
    destruct (LimitTimer.timerElement p); reflexivity.
  - destruct (single_start p S) as [L _]. rewrite L.
    destruct (LimitTimer.timerInterval (LimitTimer.startCountdownTimer p));
      simpl; lia.
Qed.

Section LimitTimerRun.
Import Js LimitTimer.

Lemma fire_live (id : nat) (p : page) :
  live p = [id] -> handle p (Fire id) = tick p.
Proof. intros L. cbn [handle]. rewrite L. cbn [existsb]. rewrite Nat.eqb_refl. reflexivity. Qed.

Lemma fire_dead (id : nat) (k : nat) (p : page) :
  live p = [] -> fold_left handle (repeat (Fire id) k) p = p.
Proof.
  intros L. induction k as [|k IH]; [reflexivity|].
  cbn [repeat fold_left handle]. rewrite L. exact IH.
Qed.

(** While time remains, each firing takes one second off and shows it. *)
Lemma fire_running (id : nat) (k : nat) :
  forall p,
    live p = [id] ->
    timerText p = Some (Limit.formatTime (timeRemaining p)) ->
    (Z.of_nat k <= timeRemaining p < two53)%Z ->
    fold_left handle (repeat (Fire id) k) p
    = Page (timeRemaining p - Z.of_nat k) (timerInterval p) (live p) (next p)
           (timerElement p)
           (Some (Limit.formatTime (timeRemaining p - Z.of_nat k)))
           (timeouts p) (fetches p) (toasts p).
Proof.
  induction k as [|k IH]; intros p L T H.
  - cbn [repeat fold_left]. change (Z.of_nat 0) with 0%Z. rewrite Z.sub_0_r.
    rewrite <- T. destruct p; reflexivity.
  - cbn [repeat fold_left]. rewrite (fire_live id p L). unfold tick.
    destruct (Z.ltb_spec 0 (timeRemaining p)) as [P|P]; [|lia].
    rewrite (to_double_safe (timeRemaining p - 1)) by lia.
    rewrite T. rewrite IH; cbn [timeRemaining live timerText timerInterval next
                                timerElement timeouts fetches toasts];
      [|exact L | reflexivity | lia].
    replace (timeRemaining p - 1 - Z.of_nat k)%Z
      with (timeRemaining p - Z.of_nat (S k))%Z by lia.
    reflexivity.
Qed.

End LimitTimerRun.

(** X16. The countdown counts down to zero and then stops itself.  On a
    page that has the two timer elements, after [startCountdownTimer]
    with t seconds remaining (0 <= t < 2^53, the integers that a number
    holds exactly): the first k firings of its
    interval, for k <= t, leave t - k seconds and show [formatTime] of
    that, with nothing fetched and no toast; the firing after that finds
    zero, clears the interval, calls [fetchMessageLimit] once and shows
    the toast 'Message limit has been reset!'; and no later firing does
    anything. *)
Theorem countdown_runs_to_zero :
  forall (p : LimitTimer.page) (el : LimitTimer.timerStyle) (text : Js.jsstring)
         (k : nat),
    LimitTimer.timerElement p = Some el ->
    LimitTimer.timerText p = Some text ->
    LimitTimer.single p ->
    (0 <= LimitTimer.timeRemaining p < 2 ^ 53)%Z ->
    let t := LimitTimer.timeRemaining p in
    let id := LimitTimer.next p in
    let after n :=
      fold_left LimitTimer.handle (repeat (LimitTimer.Fire id) n)
                (LimitTimer.startCountdownTimer p) in
    ((Z.of_nat k <= t)%Z ->
     LimitTimer.timeRemaining (after k) = (t - Z.of_nat k)%Z
     /\ LimitTimer.timerText (after k)
        = Some (Limit.formatTime (t - Z.of_nat k))
     /\ LimitTimer.timerInterval (after k) = Some id
     /\ LimitTimer.fetches (after k) = LimitTimer.fetches p
     /\ LimitTimer.toasts (after k) = LimitTimer.toasts p)
    /\ ((t < Z.of_nat k)%Z ->
        LimitTimer.timeRemaining (after k) = 0%Z
        /\ LimitTimer.timerText (after k) = Some (Js.lit "00:00:00")
        /\ LimitTimer.timerInterval (after k) = None
        /\ LimitTimer.live (after k) = []
        /\ LimitTimer.fetches (after k) = S (LimitTimer.fetches p)
        /\ LimitTimer.toasts (after k)
           = LimitTimer.toasts p
             ++ [(Js.lit "Message limit has been reset!", Js.lit "success")]).
Proof.
  intros p el text k He Ht S H0 t id after.
  set (q := LimitTimer.startCountdownTimer p).
  assert (Q : q = LimitTimer.Page t (Some id) [id] (Datatypes.S id)
                    (Some (LimitTimer.Style (Js.lit "flex") (LimitTimer.opacity el)))
                    (Some (Limit.formatTime t))
                    (LimitTimer.timeouts p ++ [(10%nat, LimitTimer.FadeIn)])
                    (LimitTimer.fetches p) (LimitTimer.toasts p)).
  { unfold q, LimitTimer.startCountdownTimer. rewrite He, Ht.
    rewrite (live_cleared p S). reflexivity. }
  assert (R : forall n, (Z.of_nat n <= t)%Z ->
                after n
                = LimitTimer.Page (t - Z.of_nat n) (Some id) [id] (Datatypes.S id)
                    (Some (LimitTimer.Style (Js.lit "flex") (LimitTimer.opacity el)))
                    (Some (Limit.formatTime (t - Z.of_nat n)))
                    (LimitTimer.timeouts p ++ [(10%nat, LimitTimer.FadeIn)])
                    (LimitTimer.fetches p) (LimitTimer.toasts p)).
  { intros n Hn. unfold after. fold q.
    rewrite (fire_running id n q); rewrite Q;
      cbn [LimitTimer.timeRemaining LimitTimer.live LimitTimer.timerText
           LimitTimer.timerInterval LimitTimer.next LimitTimer.timerElement
           LimitTimer.timeouts LimitTimer.fetches LimitTimer.toasts];
      try reflexivity.
    change Js.two53 with (2 ^ 53)%Z. fold t. lia. }
  split.
  - intros Hk. rewrite (R k Hk). repeat split.
  - intros Hk.
    set (n := Z.to_nat t).
    assert (En : Z.of_nat n = t) by (unfold n; lia).
    replace k with (n + (1 + (k - n - 1)))%nat by lia.
    unfold after. rewrite !repeat_app, !fold_left_app.
    fold (after n). rewrite (R n ltac:(lia)). rewrite En, Z.sub_diag.
    cbn [repeat fold_left LimitTimer.handle LimitTimer.live existsb].
    rewrite Nat.eqb_refl. cbn [orb].
    unfold LimitTimer.tick.
    cbn [LimitTimer.timeRemaining Z.ltb Z.compare LimitTimer.stopCountdownTimer
         LimitTimer.timerInterval LimitTimer.live LimitTimer.timerElement
         LimitTimer.next LimitTimer.timerText LimitTimer.timeouts
         LimitTimer.fetches LimitTimer.toasts].
    rewrite clearInterval_single.
    rewrite fire_dead by reflexivity.
    repeat split.
Qed.

Lemma countdown_runs_to_zero_witness :
  let p := LimitTimer.Page 2 None [] 1
             (Some (LimitTimer.Style (Js.lit "none") (Js.lit "0"))) (Some [])
             [] 0 [] in
  let after n :=
    fold_left LimitTimer.handle (repeat (LimitTimer.Fire 1) n)
              (LimitTimer.startCountdownTimer p) in
  LimitTimer.timerText (after 1%nat) = Some (Js.lit "00:00:01")
  /\ LimitTimer.fetches (after 5%nat) = 1%nat.
Proof.
  cbv zeta.
  split.
  - apply (countdown_runs_to_zero
             (LimitTimer.Page 2 None [] 1
                (Some (LimitTimer.Style (Js.lit "none") (Js.lit "0"))) (Some [])
                [] 0 [])
             (LimitTimer.Style (Js.lit "none") (Js.lit "0")) [] 1
             eq_refl eq_refl (conj eq_refl I) ltac:(cbn; split; [lia | reflexivity])).
    cbn. lia.
  - apply (countdown_runs_to_zero
             (LimitTimer.Page 2 None [] 1
                (Some (LimitTimer.Style (Js.lit "none") (Js.lit "0"))) (Some [])
                [] 0 [])
             (LimitTimer.Style (Js.lit "none") (Js.lit "0")) [] 5
             eq_refl eq_refl (conj eq_refl I) ltac:(cbn; split; [lia | reflexivity])).
    cbn. lia.
Defined.

(* --------------------------------------------------------------------- *)
(** ** The level classes of the message counter                            *)
(* --------------------------------------------------------------------- *)

Section CounterClassFacts.
Import Js Limit LimitReference.

Lemma str_eqb_refl (a : jsstring) : str_eqb a a = true.
Proof. apply str_eqb_eq. reflexivity. Qed.

Lemma mem_filter (c : jsstring) (f : jsstring -> bool) (l : list jsstring) :
  existsb (str_eqb c) (filter f l) = existsb (str_eqb c) l && f c.
Proof.
  induction l as [|x l IH]; [reflexivity|]. cbn [filter existsb].
  destruct (str_eqb c x) eqn:E.
  - apply str_eqb_eq in E. subst x.
    destruct (f c); cbn [existsb orb andb].
    + rewrite str_eqb_refl. reflexivity.
    + rewrite IH. rewrite andb_false_r. reflexivity.
  - destruct (f x); cbn [existsb orb]; rewrite ?E; exact IH.
Qed.

Lemma mem_class_add (c n : jsstring) (l : list jsstring) :
  existsb (str_eqb c) (class_add n l) = str_eqb c n || existsb (str_eqb c) l.
Proof.
  unfold class_add. destruct (existsb (str_eqb n) l) eqn:E.
  - destruct (str_eqb c n) eqn:Ec; [|reflexivity].
    apply str_eqb_eq in Ec. subst c. rewrite E. reflexivity.
  - rewrite existsb_app. cbn [existsb]. rewrite orb_false_r. apply orb_comm.
Qed.

Lemma updateMessageLimitUI_counter (localTime : Z -> Z * Z) (v : script)
    (st : messageLimitState) (d d1 : dom) :
  updateCounter st d = Returned d1 ->
  messageCounter (dom_of (updateMessageLimitUI localTime v st d))
  = messageCounter d1
  /\ messagesLeft (dom_of (updateMessageLimitUI localTime v st d))
     = messagesLeft d1.
Proof.
  intros E. unfold updateMessageLimitUI. rewrite E.
  destruct (negb (canSend st)).
  - destruct (sendButton d1); [|split; reflexivity].
    cbn [messageInput]. destruct (messageInput d1); split; reflexivity.
  - destruct (messageInput d1); split; reflexivity.
Qed.

End CounterClassFacts.

(** X17. The message counter carries at most one level class, chosen by
    the remaining count alone.  On a page that has the counter and its
    number, after [updateMessageLimitUI] (whether it returns or throws
    later on a missing control) the number shows the decimal numeral of
    the remaining count when that is below 2^53 in absolute value (the
    integers that a number holds exactly),
    and the counter has 'counter-zero' exactly when the count is 0,
    'counter-low' exactly when it is not 0 and at most 3 (a negative
    count included), 'counter-half' exactly when it is above 3 and at
    most half the total; every other class of the counter is kept. *)
Theorem counter_has_one_level_class :
  forall (localTime : Z -> Z * Z) (v : script) (st : Limit.messageLimitState)
         (d : Limit.dom) (ml mc : Limit.element),
    Limit.messagesLeft d = Some ml ->
    Limit.messageCounter d = Some mc ->
    let d' := Limit.dom_of (Limit.updateMessageLimitUI localTime v st d) in
    let r := Limit.remaining st in
    exists ml' mc',
      Limit.messagesLeft d' = Some ml'
      /\ Limit.messageCounter d' = Some mc'
      /\ ((Z.abs r < 2 ^ 53)%Z -> Limit.textContent ml' = Js.String_of_Z r)
      /\ LimitReference.has_class (Js.lit "counter-zero") mc' = (r =? 0)%Z
      /\ LimitReference.has_class (Js.lit "counter-low") mc'
         = (negb (r =? 0)%Z && (r <=? 3)%Z)
      /\ LimitReference.has_class (Js.lit "counter-half") mc'
         = ((3 <? r)%Z && (2 * r <=? Limit.total st)%Z)
      /\ (forall name,
            LimitReference.is_counter_class name = false ->
            LimitReference.has_class name mc' = LimitReference.has_class name mc).
Proof.
  intros localTime v st d ml mc Hml Hmc d' r.
  assert (E : exists cl,
             Limit.updateCounter st d
             = Limit.Returned
                 (Limit.Dom
                    (Some (Limit.Element (Js.Number_toString r) (Limit.classList ml)
                             (Limit.disabled ml) (Limit.placeholder ml)))
                    (Limit.sendButton d) (Limit.messageInput d)
                    (Some (Limit.Element (Limit.textContent mc) cl
                             (Limit.disabled mc) (Limit.placeholder mc))))
             /\ cl = (let base := Limit.class_remove Limit.counter_classes
                                    (Limit.classList mc) in
                      if (r =? 0)%Z then Limit.class_add (Js.lit "counter-zero") base
                      else if (r <=? 3)%Z then Limit.class_add (Js.lit "counter-low") base
                      else if (2 * r <=? Limit.total st)%Z
                           then Limit.class_add (Js.lit "counter-half") base
                      else base)).
  { eexists. split; [|reflexivity].
    unfold Limit.updateCounter. rewrite Hml. cbn [Limit.messageCounter].
    rewrite Hmc. reflexivity. }
  destruct E as (cl & E & Hcl).
  destruct (updateMessageLimitUI_counter localTime v st d _ E) as [Ec El].
  fold d' in Ec, El. cbn [Limit.messageCounter Limit.messagesLeft] in Ec, El.
  eexists. eexists. split; [exact El|]. split; [exact Ec|].
  cbn [Limit.textContent]. split; [apply Number_toString_safe|].
  unfold LimitReference.has_class. cbn [Limit.classList].
  assert (B : forall name,
             existsb (Js.str_eqb name)
               (Limit.class_remove Limit.counter_classes (Limit.classList mc))
             = existsb (Js.str_eqb name) (Limit.classList mc)
               && negb (LimitReference.is_counter_class name)).
  { intros name. unfold Limit.class_remove. apply mem_filter. }
  cbv zeta in Hcl. subst cl.
  destruct (Z.eqb_spec r 0) as [R0|R0];
    [|destruct (Z.leb_spec r 3) as [R3|R3];
      [|destruct (Z.leb_spec (2 * r) (Limit.total st)) as [RH|RH]]];
    rewrite ?mem_class_add, ?B;
    (repeat split;
     [ .. | intros name Hn; rewrite ?mem_class_add, B, Hn, andb_true_r;
            unfold LimitReference.is_counter_class, Limit.counter_classes in Hn;
            cbn [existsb] in Hn;
            apply orb_false_iff in Hn as [H1 Hn];
            apply orb_false_iff in Hn as [H2 Hn];
            apply orb_false_iff in Hn as [H3 _];
            rewrite ?H1, ?H2, ?H3; reflexivity ]);
    try (cbn [negb andb]; rewrite ?andb_false_r; cbn; reflexivity);
    try (destruct (Z.ltb_spec 3 r); [lia|]);
    try (destruct (Z.ltb_spec 3 r); [|lia]);
    try (cbn [negb andb]; rewrite ?andb_false_r; cbn; reflexivity).
Qed.

Lemma counter_has_one_level_class_witness :
  exists mc',
    Limit.messageCounter
      (Limit.dom_of
         (Limit.updateMessageLimitUI Scenario.clock_6am ChatJs
            (Limit.LimitState 15 2 true 0 None None) Scenario.chat_page))
    = Some mc'
    /\ LimitReference.has_class (Js.lit "counter-low") mc' = true
    /\ LimitReference.has_class (Js.lit "counter-zero") mc' = false.
Proof.
  destruct (counter_has_one_level_class Scenario.clock_6am ChatJs
              (Limit.LimitState 15 2 true 0 None None) Scenario.chat_page
              Scenario.plain Scenario.plain eq_refl eq_refl)
    as (ml' & mc' & _ & Hc & _ & Hz & Hl & _).
  exists mc'. split; [exact Hc|]. split; [exact Hl | exact Hz].
Defined.

(* --------------------------------------------------------------------- *)
(** ** formatTimestamp by the age of the message                           *)
(* --------------------------------------------------------------------- *)

(** X18. [formatTimestamp] by the age of the message in milliseconds.  For
    a valid date it always returns a string: 'Just now' below 10 s (a
    date in the future included), the whole seconds below one minute
    (always in the plural), the whole minutes below one hour, the whole
    hours below one day, 'Yesterday' with the time from one day up to
    two, and the date with the time from two days on, the year shown
    when it differs from the current one.  It returns undefined exactly
    for an Invalid Date. *)
Theorem formatTimestamp_by_age :
  forall (toLocaleTimeString : Z -> Js.jsstring)
         (toLocaleDateString : Z -> bool -> Js.jsstring)
         (getFullYear : Z -> Z) (now date : Z),
    let age := (now - date)%Z in
    let f := Timestamp.formatTimestamp toLocaleTimeString toLocaleDateString
               getFullYear in
    f now (Some date)
    = Some
        (if (age <? 10000)%Z then Js.lit "Just now"
         else if (age <? 60000)%Z
         then Js.String_of_Z (age / 1000) ++ Js.lit " seconds ago"
         else if (age <? 3600000)%Z
         then Timestamp.ago (age / 60000) (Js.lit "minute") (Js.lit "minutes")
         else if (age <? 86400000)%Z
         then Timestamp.ago (age / 3600000) (Js.lit "hour") (Js.lit "hours")
         else if (age <? 172800000)%Z
         then Js.lit "Yesterday " ++ toLocaleTimeString date
         else toLocaleDateString date
                (negb (getFullYear now =? getFullYear date)%Z)
              ++ Js.lit " " ++ toLocaleTimeString date)
    /\ f now None = None.
Proof.
  intros time dateStr year now date age f. split; [|reflexivity].
  unfold f, Timestamp.formatTimestamp. fold age.
  assert (M : (age / 1000 / 60 = age / 60000)%Z)
    by (rewrite Z.div_div by lia; reflexivity).
  assert (H : (age / 1000 / 60 / 60 = age / 3600000)%Z)
    by (rewrite M, Z.div_div by lia; reflexivity).
  assert (D : (age / 1000 / 60 / 60 / 24 = age / 86400000)%Z)
    by (rewrite H, Z.div_div by lia; reflexivity).
  rewrite D, H, M.
  pose proof (Z.div_mod age 1000 ltac:(lia)) as E1.
  pose proof (Z.mod_pos_bound age 1000 ltac:(lia)) as B1.
  pose proof (Z.div_mod age 60000 ltac:(lia)) as E2.
  pose proof (Z.mod_pos_bound age 60000 ltac:(lia)) as B2.
  pose proof (Z.div_mod age 3600000 ltac:(lia)) as E3.
  pose proof (Z.mod_pos_bound age 3600000 ltac:(lia)) as B3.
  pose proof (Z.div_mod age 86400000 ltac:(lia)) as E4.
  pose proof (Z.mod_pos_bound age 86400000 ltac:(lia)) as B4.
  destruct (Z.ltb_spec age 10000).
  { destruct (Z.ltb_spec (age / 1000) 10); [reflexivity | lia]. }
  destruct (Z.ltb_spec (age / 1000) 10); [lia|].
  destruct (Z.ltb_spec age 60000).
  { destruct (Z.ltb_spec (age / 1000) 60); [|lia].
    unfold Timestamp.ago.
    destruct (Z.eqb_spec (age / 1000) 1); [lia|]. reflexivity. }
  destruct (Z.ltb_spec (age / 1000) 60); [lia|].
  destruct (Z.ltb_spec age 3600000).
  { destruct (Z.ltb_spec (age / 60000) 60); [reflexivity | lia]. }
  destruct (Z.ltb_spec (age / 60000) 60); [lia|].
  destruct (Z.ltb_spec age 86400000).
  { destruct (Z.ltb_spec (age / 3600000) 24); [reflexivity | lia]. }
  destruct (Z.ltb_spec (age / 3600000) 24); [lia|].
  destruct (Z.ltb_spec age 172800000).
  { destruct (Z.eqb_spec (age / 86400000) 1); [reflexivity | lia]. }
  destruct (Z.eqb_spec (age / 86400000) 1); [lia|].
  destruct (Z.ltb_spec 1 (age / 86400000)); [reflexivity | lia].
Qed.

(* --------------------------------------------------------------------- *)
(** ** The typing animation                                                *)
(* --------------------------------------------------------------------- *)

Section TypingFacts.
Import Js Typing.

Variable raw : jsstring.
Variable callback : bool.

(** While the text is being typed, the n-th firing shows one more code
    unit. *)
Lemma typing_steps (n : nat) :
  forall st,
    pending st = true ->
    (currentIndex st + n <= length (Clean.cleanMessageText raw))%nat ->
    contentDiv st = Some (firstn (currentIndex st) (Clean.cleanMessageText raw)) ->
    Nat.iter n (fire raw callback) st
    = State (Some (firstn (currentIndex st + n) (Clean.cleanMessageText raw)))
            (currentIndex st + n) true (isTyping st) (sendButtonUpdates st)
            (callbacks st) (warnings st).
Proof.
  induction n as [|n IH]; intros st P L C.
  - cbn [Nat.iter]. rewrite Nat.add_0_r, <- C, <- P. destruct st; reflexivity.
  - rewrite Nat.iter_succ, (IH st P ltac:(lia) C).
    unfold fire. cbn [pending]. unfold typeCharacter. cbn [currentIndex].
    destruct (Nat.ltb_spec (currentIndex st + n)
                (length (Clean.cleanMessageText raw))); [|lia].
    cbn [isTyping sendButtonUpdates callbacks warnings].
    replace (currentIndex st + n + 1)%nat with (currentIndex st + S n)%nat by lia.
    replace (S (currentIndex st + n)) with (currentIndex st + S n)%nat by lia.
    reflexivity.
Qed.

Lemma idle_fire (n : nat) (st : state) :
  pending st = false -> Nat.iter n (fire raw callback) st = st.
Proof.
  intros P. induction n as [|n IH]; [reflexivity|].
  rewrite Nat.iter_succ, IH. unfold fire. rewrite P. reflexivity.
Qed.

End TypingFacts.

(** X19. The typing animation of [appendMessageWithTyping] shows the
    cleaned text one code unit at a time and then releases the typing
    lock.  When the cleaned text t is not empty: after the call and n
    firings of the timer, for n below the length of t, the message shows
    the first n + 1 code units of t, the lock and the callback are
    untouched and a firing is due; from the firing number length t on,
    the message shows t, [isTyping] is false, the send button has been
    updated once, the callback has run once, and nothing is due.  When
    nothing is left after cleaning, no message is appended, a warning is
    logged, the callback runs at once and [isTyping] is left as it
    was. *)
Theorem typing_animation_completes :
  forall (raw : Js.jsstring) (callback : bool) (st : Typing.state) (n : nat),
    let t := Clean.cleanMessageText raw in
    let s := Nat.iter n (Typing.fire raw callback)
               (Typing.appendMessageWithTyping raw callback st) in
    match t with
    | [] =>
        s = Typing.State None (Typing.currentIndex st) false (Typing.isTyping st)
              (Typing.sendButtonUpdates st)
              (Typing.call callback (Typing.callbacks st))
              (S (Typing.warnings st))
    | _ =>
        if (n <? length t)%nat then
          s = Typing.State (Some (firstn (n + 1) t)) (n + 1) true
                (Typing.isTyping st) (Typing.sendButtonUpdates st)
                (Typing.callbacks st) (Typing.warnings st)
        else
          s = Typing.State (Some t) (length t) false false
                (S (Typing.sendButtonUpdates st))
                (Typing.call callback (Typing.callbacks st))
                (Typing.warnings st)
    end.
Proof.
  intros raw callback st n t s.
  destruct t as [|c t'] eqn:Et.
  - subst s. unfold Typing.appendMessageWithTyping. fold t. rewrite Et.
    apply idle_fire. reflexivity.
  - set (s1 := Typing.State (Some (firstn 1 (c :: t'))) 1 true (Typing.isTyping st)
                 (Typing.sendButtonUpdates st) (Typing.callbacks st)
                 (Typing.warnings st)).
    assert (E0 : Typing.appendMessageWithTyping raw callback st = s1).
    { unfold Typing.appendMessageWithTyping. fold t. rewrite Et. reflexivity. }
    subst s. rewrite E0.
    assert (T : forall k, (1 + k <= length (c :: t'))%nat ->
                  Nat.iter k (Typing.fire raw callback) s1
                  = Typing.State (Some (firstn (1 + k) (c :: t'))) (1 + k) true
                      (Typing.isTyping st) (Typing.sendButtonUpdates st)
                      (Typing.callbacks st) (Typing.warnings st)).
    { intros k Hk.
      pose proof (typing_steps raw callback k s1 eq_refl) as T.
      fold t in T. rewrite Et in T. apply T; [exact Hk | reflexivity]. }
    destruct (Nat.ltb_spec n (length (c :: t'))) as [L|L].
    + rewrite (T n L). replace (1 + n)%nat with (n + 1)%nat by lia. reflexivity.
    + replace n with (S (n - length (c :: t')) + length t')%nat
        by (cbn [length] in *; lia).
      rewrite Nat.iter_add, (T (length t') (Nat.le_refl _)).
      rewrite Nat.iter_succ_r.
      unfold Typing.fire at 2. cbn [Typing.pending].
      fold t. rewrite Et. unfold Typing.typeCharacter.
      cbn [Typing.currentIndex].
      destruct (Nat.ltb_spec (1 + length t') (length (c :: t')));
        [cbn [length] in *; lia|].
      cbn [Typing.contentDiv Typing.isTyping Typing.sendButtonUpdates
           Typing.callbacks Typing.warnings].
      rewrite idle_fire by reflexivity.
      replace (firstn (1 + length t') (c :: t')) with (c :: t')
        by (symmetry; exact (firstn_all (c :: t'))).
      reflexivity.
Qed.

(* --------------------------------------------------------------------- *)
(** ** fixBulletListSpacing                                                *)
(* --------------------------------------------------------------------- *)

Section SplitJoinFacts.
Import Js.

Variable sep : char16.

Lemma split_nonempty (s : jsstring) : split sep s <> [].
Proof.
  destruct s as [|c s]; [discriminate|]. cbn [split].
  destruct (c =? sep)%N; [discriminate|]. destruct (split sep s); discriminate.
Qed.

Lemma split_pieces (s : jsstring) :
  Forall (fun l => forallb (except sep) l = true) (split sep s).
Proof.
  induction s as [|c s IH]; [repeat constructor|]. cbn [split].
  destruct (c =? sep)%N eqn:E; [constructor; [reflexivity | exact IH]|].
  destruct (split sep s) as [|l ls]; [repeat constructor; cbn; unfold except; rewrite E; reflexivity|].
  inversion IH as [|? ? Hl Hls]; subst. constructor; [|exact Hls].
  cbn [forallb]. unfold except at 1. rewrite E. exact Hl.
Qed.

Lemma join_split (s : jsstring) : join [sep] (split sep s) = s.
Proof.
  induction s as [|c s IH]; [reflexivity|]. cbn [split].
  pose proof (split_nonempty s) as Hn.
  destruct (split sep s) as [|l ls] eqn:E; [contradiction|].
  destruct (N.eqb_spec c sep) as [->|N].
  - change (join [sep] ([] :: l :: ls)) with (sep :: join [sep] (l :: ls)).
    rewrite IH. reflexivity.
  - destruct ls as [|l' ls].
    + cbn [join] in *. rewrite IH. reflexivity.
    + change (join [sep] ((c :: l) :: l' :: ls))
        with (c :: join [sep] (l :: l' :: ls)).
      rewrite IH. reflexivity.
Qed.

Lemma split_join (ls : list jsstring) :
  ls <> [] ->
  Forall (fun l => forallb (except sep) l = true) ls ->
  split sep (join [sep] ls) = ls.
Proof.
  induction ls as [|l ls IH]; intros Hn Hp; [contradiction|].
  inversion Hp as [|? ? Hl Hls]; subst.
  destruct ls as [|l' ls].
  - cbn [join]. apply split_none, Hl.
  - change (join [sep] (l :: l' :: ls)) with (l ++ sep :: join [sep] (l' :: ls)).
    rewrite (split_app_sep sep l _ Hl), (IH ltac:(discriminate) Hls).
    reflexivity.
Qed.

End SplitJoinFacts.

Section BulletFacts.
Import Js Clean BulletReference.

Lemma last_nonblank_snoc (ls : list jsstring) (l : jsstring) :
  last_nonblank (ls ++ [l]) = nonblank l.
Proof.
  unfold last_nonblank. rewrite last_last.
  destruct ls; reflexivity.
Qed.

Lemma item_blank (l : jsstring) : nonblank l = false -> item l = false.
Proof.
  unfold nonblank, item. destruct (trim l); [reflexivity | discriminate].
Qed.

(** One line of the loop, with the two conditions written out. *)
Lemma emit_cons ln b (line : jsstring) (rest : list jsstring) :
  emit ln b (line :: rest)
  = (if (item line && negb b || negb (item line) && b && nonblank line) && ln
     then [[]] else [])
    ++ line :: emit (nonblank line) (item line || b && negb (nonblank line)) rest.
Proof.
  cbn [emit]. destruct (item line), b, (nonblank line); reflexivity.
Qed.

Lemma emit_blank ln b (rest : list jsstring) :
  emit ln b ([] :: rest) = [] :: emit false b rest.
Proof.
  rewrite emit_cons. change (item []) with false. change (nonblank []) with false.
  destruct b; reflexivity.
Qed.

(** The loop, from any state in which the index is 0 only while nothing
    has been appended. *)
Lemma bullet_fold (lines : list jsstring) :
  forall i fixedLines inList,
    (fixedLines = [] \/ (0 < i)%nat) ->
    snd (fst (fold_left bullet_step lines (i, fixedLines, inList)))
    = fixedLines ++ emit (last_nonblank fixedLines) inList lines.
Proof.
  induction lines as [|line rest IH]; intros i fixed inList Hi.
  - cbn. rewrite app_nil_r. reflexivity.
  - cbn [fold_left emit].
    assert (G : (0 <? i)%nat && last_nonblank fixed = last_nonblank fixed).
    { destruct Hi as [-> | Hi]; [rewrite andb_false_r; reflexivity|].
      destruct (Nat.ltb_spec 0 i); [reflexivity | lia]. }
    unfold bullet_step at 2. fold (item line). rewrite G.
    destruct (item line) eqn:It; destruct inList; cbn [negb andb orb];
      destruct (nonblank line) eqn:Nb; cbn [negb andb orb];
      try (rewrite (item_blank line Nb) in It; discriminate It);
      destruct (last_nonblank fixed) eqn:Ln; cbn [negb andb orb];
      rewrite ?last_nonblank_snoc; cbn [andb];
      rewrite IH by (right; lia);
      rewrite ?last_nonblank_snoc, ?Nb, <- ?app_assoc; reflexivity.
Qed.

Lemma fixBullet_emit (c : char16) (s : jsstring) :
  fixBulletListSpacing (c :: s)
  = join [c_newline] (emit false false (split c_newline (c :: s))).
Proof.
  unfold fixBulletListSpacing.
  pose proof (bullet_fold (split c_newline (c :: s)) 0 [] false
                (or_introl eq_refl)) as B.
  destruct (fold_left bullet_step (split c_newline (c :: s)) (0%nat, [], false))
    as [[i fixed] b].
  cbn [fst snd app] in B. rewrite B. reflexivity.
Qed.

Lemma emit_nonempty ln b (lines : list jsstring) :
  lines <> [] -> emit ln b lines <> [].
Proof.
  destruct lines as [|l r]; [contradiction|]. intros _. rewrite emit_cons.
  destruct ((_ || _) && ln); discriminate.
Qed.

Lemma emit_pieces (sep : char16) ln b (lines : list jsstring) :
  Forall (fun l => forallb (except sep) l = true) lines ->
  Forall (fun l => forallb (except sep) l = true) (emit ln b lines).
Proof.
  revert ln b. induction lines as [|l r IH]; intros ln b H; [constructor|].
  inversion H as [|? ? Hl Hr]; subst. rewrite emit_cons.
  destruct ((_ || _) && ln); cbn [app]; repeat constructor;
    try exact Hl; apply IH, Hr.
Qed.

(** Appending is idempotent: the blank lines are already there. *)
Lemma emit_idem (lines : list jsstring) :
  forall ln b, emit ln b (emit ln b lines) = emit ln b lines.
Proof.
  induction lines as [|line rest IH]; intros ln b; [reflexivity|].
  rewrite emit_cons.
  destruct ((item line && negb b || negb (item line) && b && nonblank line) && ln)
    eqn:Bl; cbn [app].
  - rewrite emit_blank, emit_cons, andb_false_r. cbn [app]. rewrite IH.
    reflexivity.
  - rewrite emit_cons, Bl. cbn [app]. rewrite IH. reflexivity.
Qed.

(** Only empty lines are added. *)
Lemma emit_keeps (lines : list jsstring) :
  forall ln b, filter nonempty (emit ln b lines) = filter nonempty lines.
Proof.
  induction lines as [|line rest IH]; intros ln b; [reflexivity|].
  rewrite emit_cons, filter_app.
  destruct ((_ || _) && ln); cbn [filter nonempty app];
    rewrite IH; reflexivity.
Qed.

(** Without list items nothing is added. *)
Lemma emit_no_items (lines : list jsstring) :
  forallb (fun l => negb (item l)) lines = true ->
  forall ln, emit ln false lines = lines.
Proof.
  induction lines as [|line rest IH]; intros H ln; [reflexivity|].
  cbn [forallb] in H. apply andb_true_iff in H as [Hi H].
  apply negb_true_iff in Hi. rewrite emit_cons, Hi.
  cbn [negb andb orb app]. rewrite (IH H). reflexivity.
Qed.

(** What is appended keeps list items apart from other text. *)
Lemma emit_separated (lines : list jsstring) :
  forall prev b,
    (nonblank prev = true -> b = item prev) ->
    separated (prev :: emit (nonblank prev) b lines) = true.
Proof.
  induction lines as [|line rest IH]; intros prev b Hb; [reflexivity|].
  rewrite emit_cons.
  assert (H2 : nonblank line = true ->
               (item line || b && negb (nonblank line)) = item line).
  { intros ->. rewrite andb_false_r, orb_false_r. reflexivity. }
  specialize (IH line _ H2).
  destruct ((item line && negb b || negb (item line) && b && nonblank line)
            && nonblank prev) eqn:Bl; cbn [app].
  - change (separated (prev :: [] :: line :: ?x))
      with (negb (nonblank prev && nonblank [] && xorb (item prev) (item []))
            && (negb (nonblank [] && nonblank line && xorb (item []) (item line))
                && separated (line :: x))).
    change (nonblank []) with false. rewrite andb_false_r. cbn [andb negb].
    exact IH.
  - change (separated (prev :: line :: ?x))
      with (negb (nonblank prev && nonblank line && xorb (item prev) (item line))
            && separated (line :: x)).
    rewrite IH, andb_true_r. apply negb_true_iff.
    destruct (nonblank prev) eqn:Np; [|reflexivity].
    destruct (nonblank line) eqn:Nl; [|reflexivity].
    rewrite andb_true_r in Bl. specialize (Hb eq_refl). subst b.
    destruct (item line), (item prev); try reflexivity; discriminate.
Qed.

End BulletFacts.

(** X20. [fixBulletListSpacing] keeps list items apart from other text: in
    its result no list item stands right next to a line that is neither
    blank nor a list item.  (A list item is a line whose trimmed text
    starts with a hyphen, a bullet or an asterisk and white space, or
    with digits, a dot and white space.) *)
Theorem fixBulletListSpacing_separates_lists :
  forall text : Js.jsstring,
    BulletReference.separated
      (Js.split Js.c_newline (Clean.fixBulletListSpacing text)) = true.
Proof.
  intros [|c s]; [reflexivity|].
  rewrite fixBullet_emit.
  rewrite split_join.
  - pose proof (emit_separated (Js.split Js.c_newline (c :: s)) [] false
                  ltac:(discriminate)) as H.
    change (Clean.nonblank []) with false in H.
    cbn [BulletReference.separated] in H.
    destruct (BulletReference.emit false false (Js.split Js.c_newline (c :: s)));
      [reflexivity|].
    apply andb_true_iff in H as [_ H]. exact H.
  - apply emit_nonempty, split_nonempty.
  - apply emit_pieces, split_pieces.
Qed.

(** X21. [fixBulletListSpacing] is idempotent: the blank lines it adds are
    not added twice. *)
Theorem fixBulletListSpacing_idempotent :
  forall text : Js.jsstring,
    Clean.fixBulletListSpacing (Clean.fixBulletListSpacing text)
    = Clean.fixBulletListSpacing text.
Proof.
  intros [|c s]; [reflexivity|].
  rewrite fixBullet_emit.
  set (E := BulletReference.emit false false (Js.split Js.c_newline (c :: s))).
  destruct (Js.join [Js.c_newline] E) as [|d r] eqn:J; [reflexivity|].
  rewrite fixBullet_emit, <- J.
  rewrite split_join;
    [ | apply emit_nonempty, split_nonempty | apply emit_pieces, split_pieces].
  unfold E. rewrite emit_idem. reflexivity.
Qed.

(** X22. [fixBulletListSpacing] only adds empty lines: the non-empty lines
    of the result are those of the text, in the same order; and a text
    none of whose lines is a list item is returned unchanged. *)
Theorem fixBulletListSpacing_adds_only_empty_lines :
  forall text : Js.jsstring,
    filter BulletReference.nonempty
      (Js.split Js.c_newline (Clean.fixBulletListSpacing text))
    = filter BulletReference.nonempty (Js.split Js.c_newline text)
    /\ (forallb (fun l => negb (BulletReference.item l))
          (Js.split Js.c_newline text) = true ->
        Clean.fixBulletListSpacing text = text).
Proof.
  intros [|c s]; [split; reflexivity|].
  rewrite fixBullet_emit. split.
  - rewrite split_join;
      [ | apply emit_nonempty, split_nonempty | apply emit_pieces, split_pieces].
    apply emit_keeps.
  - intros H. rewrite (emit_no_items _ H). apply join_split.
Qed.

(* --------------------------------------------------------------------- *)
(** ** What a match takes from the text                                    *)
(* --------------------------------------------------------------------- *)

Section MatchPrefix.
Import Js MatchReference.

Lemma push_splits (m : jsstring) r ms rest (s : jsstring) :
  push m r = Some (ms, rest) ->
  (forall ms' rest', r = Some (ms', rest') -> s = concat ms' ++ rest') ->
  m ++ s = concat ms ++ rest.
Proof.
  destruct r as [[ms' rest']|]; [|discriminate]. cbn [push].
  intros [= <- <-] H. cbn [concat]. rewrite <- app_assoc, (H _ _ eq_refl).
  reflexivity.
Qed.

Lemma grow_splits (c : char16) r ms rest (s : jsstring) :
  grow c r = Some (ms, rest) ->
  (forall ms' rest', r = Some (ms', rest') -> s = concat ms' ++ rest') ->
  c :: s = concat ms ++ rest.
Proof.
  destruct r as [[[|m ms'] rest']|]; try discriminate. cbn [grow].
  intros [= <- <-] H. cbn [concat app]. rewrite (H _ _ eq_refl). reflexivity.
Qed.

Lemma star_splits (p : char16 -> bool) k : splits k -> splits (star p k).
Proof.
  intros Hk s. induction s as [|c s IH]; intros ms rest; cbn [star].
  - intros H. apply (push_splits [] _ _ _ [] H). intros ms' rest' E.
    apply (Hk [] _ _ E).
  - destruct (p c).
    + destruct (star p k s) as [[ms0 rest0]|] eqn:E.
      * intros H. apply (grow_splits c _ _ _ s H).
        intros ms' rest' [= <- <-]. apply (IH _ _ eq_refl).
      * intros H. apply (push_splits [] _ _ _ (c :: s) H). apply Hk.
    + intros H. apply (push_splits [] _ _ _ (c :: s) H). apply Hk.
Qed.

Lemma lazy_splits (p : char16 -> bool) k : splits k -> splits (lazy p k).
Proof.
  intros Hk s. induction s as [|c s IH]; intros ms rest; cbn [lazy].
  - destruct (k []) as [r|] eqn:E; [|discriminate].
    intros H. apply (push_splits [] _ _ _ [] H). intros ms' rest' [= ->].
    apply (Hk [] _ _ E).
  - destruct (k (c :: s)) as [r|] eqn:E.
    + intros H. apply (push_splits [] _ _ _ (c :: s) H). intros ms' rest' [= ->].
      apply (Hk _ _ _ E).
    + destruct (p c); [|discriminate].
      intros H. apply (grow_splits c _ _ _ s H). apply IH.
Qed.

Lemma match_atoms_splits (r : list atom) (e : bool) : splits (match_atoms r e).
Proof.
  induction r as [|a r IH]; intros s ms rest.
  - cbn [match_atoms]. destruct e.
    + destruct s; [|discriminate]. intros [= <- <-]. reflexivity.
    + intros [= <- <-]. reflexivity.
  - cbn [match_atoms]. destruct (qnt a).
    + destruct s as [|c s]; [discriminate|]. destruct (cls a c); [|discriminate].
      intros H. apply (push_splits [c] _ _ _ s H). apply IH.
    + destruct s as [|c s]; [discriminate|]. destruct (cls a c); [|discriminate].
      intros H. apply (grow_splits c _ _ _ s H).
      apply (star_splits (cls a) _ IH).
    + apply (star_splits (cls a) _ IH).
    + apply (lazy_splits (cls a) _ IH).
    + destruct s as [|c s].
      * intros H. apply (push_splits [] _ _ _ [] H). apply IH.
      * destruct (cls a c).
        -- destruct (match_atoms r e s) as [x|] eqn:E.
           ++ intros H. apply (push_splits [c] _ _ _ s H).
              intros ms' rest' [= ->]. apply (IH _ _ _ E).
           ++ intros H. apply (push_splits [] _ _ _ (c :: s) H). apply IH.
        -- intros H. apply (push_splits [] _ _ _ (c :: s) H). apply IH.
Qed.

Lemma match_first_splits (rs : list (list atom)) : splits (match_first rs).
Proof.
  induction rs as [|r rs IH]; intros s ms rest; cbn [match_first];
    [discriminate|].
  destruct (match_atoms r false s) as [x|] eqn:E; [|apply IH].
  intros [= ->]. apply (match_atoms_splits r false _ _ _ E).
Qed.

Lemma search_splits (r : list atom) (e : bool) (s : jsstring) :
  forall pre ms rest,
    search r e s = Some (pre, ms, rest) -> s = pre ++ concat ms ++ rest.
Proof.
  induction s as [|c s IH]; intros pre ms rest; cbn [search].
  - destruct (match_atoms r e []) as [[ms' rest']|] eqn:E; [|discriminate].
    intros [= <- <- <-]. apply (match_atoms_splits r e _ _ _ E).
  - destruct (match_atoms r e (c :: s)) as [[ms' rest']|] eqn:E.
    + intros [= <- <- <-]. apply (match_atoms_splits r e _ _ _ E).
    + destruct (search r e s) as [[[pre' ms'] rest']|]; [|discriminate].
      intros [= <- <- <-]. cbn [app]. rewrite (IH _ _ _ eq_refl). reflexivity.
Qed.

End MatchPrefix.

Section ReplaceForall.
Import Js MatchReference.

Variable P : char16 -> bool.
Variable m : jsstring -> option (list jsstring * jsstring).
Variable f : list jsstring -> jsstring.
Hypothesis m_splits : splits m.
Hypothesis f_keeps : forall ms, forallb P (concat ms) = true -> forallb P (f ms) = true.

Lemma forallb_skipn (n : nat) (s : jsstring) :
  forallb P s = true -> forallb P (skipn n s) = true.
Proof.
  revert s. induction n as [|n IH]; intros s H; [exact H|].
  destruct s as [|c s]; [reflexivity|]. cbn [skipn]. apply IH.
  cbn [forallb] in H. apply andb_true_iff in H as [_ H]. exact H.
Qed.

(** A global replacement keeps a property of the code units when the
    replacement text has it whenever the matched text has it. *)
Lemma replace_go_forallb_bounded (n : nat) :
  forall s, (length s <= n)%nat -> forallb P s = true ->
    forallb P (replace_go m f 0 s) = true.
Proof.
  induction n as [|n IH]; intros s Hn Hs.
  - destruct s; [|simpl in Hn; lia]. cbn [replace_go].
    destruct (m []) as [[ms rest]|] eqn:E; [|reflexivity].
    rewrite app_nil_r. apply f_keeps.
    pose proof (m_splits _ _ _ E) as S. symmetry in S.
    apply app_eq_nil in S as [-> _]. reflexivity.
  - destruct s as [|c s].
    + apply IH; [simpl; lia | reflexivity].
    + cbn [replace_go]. cbn [forallb] in Hs. pose proof Hs as Hcs.
      apply andb_true_iff in Hs as [Hc Hs]. cbn [length] in Hn.
      destruct (m (c :: s)) as [[ms rest]|] eqn:E.
      * pose proof (m_splits _ _ _ E) as S.
        assert (Hms : forallb P (concat ms) = true).
        { change (forallb P (c :: s) = true) in Hcs. rewrite S, forallb_app in Hcs.
          apply andb_true_iff in Hcs as [H _]. exact H. }
        rewrite forallb_app, (f_keeps ms Hms). cbn [andb].
        destruct (length (concat ms)) as [|k] eqn:L.
        -- cbn [forallb]. rewrite Hc. apply IH; [lia | exact Hs].
        -- assert (Hk : (k <= length s)%nat).
           { apply (f_equal (@length char16)) in S.
             rewrite length_app, L in S. cbn [length] in S. lia. }
           rewrite (replace_go_skip m f k s Hk).
           apply IH; [rewrite length_skipn; lia | apply forallb_skipn, Hs].
      * cbn [forallb]. rewrite Hc. apply IH; [lia | exact Hs].
Qed.

Lemma replace_go_forallb (s : jsstring) :
  forallb P s = true -> forallb P (replace_go m f 0 s) = true.
Proof. apply (replace_go_forallb_bounded (length s)). lia. Qed.

End ReplaceForall.

(* --------------------------------------------------------------------- *)
(** ** cleanMessageText never shows the cross mark                         *)
(* --------------------------------------------------------------------- *)

Section CrossLineFacts.
Import Js Clean.

Lemma cross_line_unfold (c : char16) (s : jsstring) :
  match_atoms cross_line false (c :: s)
  = if (c =? c_cross)%N
    then push [c] (star (except c_newline)
                     (match_atoms [Atom (only c_newline) Opt] false) s)
    else None.
Proof. reflexivity. Qed.

Lemma cross_line_matches (s : jsstring) :
  exists ms rest,
    match_atoms cross_line false (c_cross :: s) = Some ([c_cross] :: ms, rest).
Proof.
  rewrite cross_line_unfold, N.eqb_refl.
  assert (S : star (except c_newline)
                (match_atoms [Atom (only c_newline) Opt] false) s <> None).
  { apply star_some. exists [], s. split; [reflexivity|]. split; [reflexivity|].
    destruct s as [|d s]; cbn [match_atoms qnt cls]; [discriminate|].
    destruct (only c_newline d); discriminate. }
  destruct (star _ _ s) as [[ms rest]|]; [|contradiction].
  exists ms, rest. reflexivity.
Qed.

(** After the second replacement no cross mark is left. *)
Lemma cross_line_clears_bounded (n : nat) :
  forall s, (length s <= n)%nat ->
    forallb (except c_cross) (replace_all cross_line (fun _ => []) s) = true.
Proof.
  unfold replace_all. induction n as [|n IH]; intros s Hn.
  - destruct s; [reflexivity | simpl in Hn; lia].
  - destruct s as [|c s]; [reflexivity|]. cbn [length] in Hn.
    destruct (N.eqb_spec c c_cross) as [->|N].
    + destruct (cross_line_matches s) as (ms & rest & E).
      pose proof (match_atoms_splits _ _ _ _ _ E) as S.
      cbn [concat app] in S. injection S as S.
      rewrite (replace_go_match _ _ _ _ _ _ (length (concat ms)) E);
        [ | reflexivity | rewrite S, length_app; lia].
      cbn [app]. apply IH. rewrite length_skipn. lia.
    + rewrite replace_go_nomatch.
      * cbn [forallb]. unfold except at 1.
        apply N.eqb_neq in N. rewrite N. cbn [negb andb]. apply IH. lia.
      * rewrite cross_line_unfold. apply N.eqb_neq in N. rewrite N. reflexivity.
Qed.

Lemma cross_line_clears (s : jsstring) :
  forallb (except c_cross) (replace_all cross_line (fun _ => []) s) = true.
Proof. apply (cross_line_clears_bounded (length s)). lia. Qed.

End CrossLineFacts.

Section AlphabetFacts.
Import Js Clean.

(** A property of code units that the text inserted by the later steps
    has: the two quotes, the space, the line feed, the placeholder and
    the four punctuation marks. *)
Variable P : char16 -> bool.
Hypothesis P_squote : P c_squote = true.
Hypothesis P_dquote : P c_dquote = true.
Hypothesis P_space : P c_space = true.
Hypothesis P_newline : P c_newline = true.
Hypothesis P_placeholder : forallb P placeholder = true.
Hypothesis P_marks :
  P 46%N = true /\ P 63%N = true /\ P 33%N = true /\ P 44%N = true.

Lemma forallb_replace_all (r : list atom) (f : list jsstring -> jsstring)
    (s : jsstring) :
  (forall ms, forallb P (concat ms) = true -> forallb P (f ms) = true) ->
  forallb P s = true -> forallb P (replace_all r f s) = true.
Proof.
  intros Hf. apply replace_go_forallb; [apply match_atoms_splits | exact Hf].
Qed.

Lemma forallb_replace_all_alt (rs : list (list atom))
    (f : list jsstring -> jsstring) (s : jsstring) :
  (forall ms, forallb P (concat ms) = true -> forallb P (f ms) = true) ->
  forallb P s = true -> forallb P (replace_all_alt rs f s) = true.
Proof.
  intros Hf. apply replace_go_forallb; [apply match_first_splits | exact Hf].
Qed.

Lemma forallb_quote_span (ms : list jsstring) :
  forallb P (concat ms) = true -> forallb P (quote_span ms) = true.
Proof.
  intros H. unfold quote_span.
  destruct ms as [|a [|content [|b [|x ms]]]]; try exact H.
  assert (Hc : forallb P content = true).
  { cbn [concat] in H. rewrite !forallb_app in H.
    apply andb_true_iff in H as [_ H]. apply andb_true_iff in H as [H _]. exact H. }
  destruct (wordCount content <=? 2)%nat; rewrite !forallb_app, Hc;
    cbn [forallb]; rewrite ?P_squote, ?P_dquote; reflexivity.
Qed.

Lemma forallb_replaceAsterisksInText (s : jsstring) :
  forallb P s = true -> forallb P (replaceAsterisksInText s) = true.
Proof. apply forallb_replace_all, forallb_quote_span. Qed.

Lemma forallb_getSubstitution_bounded (matched before after : jsstring) (n : nat) :
  forallb P matched = true -> forallb P before = true -> forallb P after = true ->
  forall repl, (length repl <= n)%nat -> forallb P repl = true ->
    forallb P (getSubstitution matched before after repl) = true.
Proof.
  intros Hm Hb Ha. induction n as [|n IH]; intros repl Hn Hr.
  - destruct repl; [reflexivity | simpl in Hn; lia].
  - destruct repl as [|c repl]; [reflexivity|]. cbn [length] in Hn.
    cbn [forallb] in Hr. apply andb_true_iff in Hr as [Hc Hr].
    cbn [getSubstitution].
    assert (Hrest : forallb P (getSubstitution matched before after repl) = true)
      by (apply IH; [lia | exact Hr]).
    destruct (c =? 36)%N; [|cbn [forallb]; rewrite Hc; exact Hrest].
    destruct repl as [|d repl]; [cbn [forallb]; rewrite Hc; reflexivity|].
    cbn [forallb] in Hr. apply andb_true_iff in Hr as [Hd Hr'].
    cbn [length] in Hn.
    assert (Hrest' : forallb P (getSubstitution matched before after repl) = true)
      by (apply IH; [lia | exact Hr']).
    destruct (N.eqb_spec d 36) as [->|_];
      [cbn [forallb]; rewrite Hd; exact Hrest'|].
    destruct (d =? 38)%N; [rewrite forallb_app, Hm; exact Hrest'|].
    destruct (d =? 96)%N; [rewrite forallb_app, Hb; exact Hrest'|].
    destruct (d =? 39)%N; [rewrite forallb_app, Ha; exact Hrest'|].
    cbn [forallb]. rewrite Hc. exact Hrest.
Qed.

Lemma find_str_parts (pat : jsstring) (s : jsstring) :
  forall pre post, find_str pat s = Some (pre, post) ->
    forallb P s = true -> forallb P pre = true /\ forallb P post = true.
Proof.
  induction s as [|c s IH]; intros pre post; cbn [find_str].
  - destruct (startsWith [] pat); [|discriminate].
    intros [= <- <-] _. split; [reflexivity|]. destruct (length pat); reflexivity.
  - destruct (startsWith (c :: s) pat).
    + intros [= <- <-] H. split; [reflexivity | apply forallb_skipn, H].
    + destruct (find_str pat s) as [[pre' post']|]; [|discriminate].
      intros [= <- <-] H. cbn [forallb] in H. apply andb_true_iff in H as [Hc H].
      destruct (IH _ _ eq_refl H) as [H1 H2]. cbn [forallb].
      rewrite Hc, H1. split; [reflexivity | exact H2].
Qed.

Lemma forallb_replace_str (pat repl s : jsstring) :
  forallb P pat = true -> forallb P repl = true -> forallb P s = true ->
  forallb P (replace_str pat repl s) = true.
Proof.
  intros Hp Hr Hs. unfold replace_str.
  destruct (find_str pat s) as [[pre post]|] eqn:E; [|exact Hs].
  destruct (find_str_parts pat s pre post E Hs) as [H1 H2].
  rewrite !forallb_app, H1, H2, andb_true_r. cbn [andb].
  apply (forallb_getSubstitution_bounded pat pre post (length repl));
    try assumption. lia.
Qed.

Lemma forallb_replaceAsterisksWithQuotes (s : jsstring) :
  forallb P s = true -> forallb P (replaceAsterisksWithQuotes s) = true.
Proof.
  intros Hs. unfold replaceAsterisksWithQuotes.
  destruct s as [|c s]; [reflexivity|].
  destruct (negb (includes (c :: s) [c_star])); [exact Hs|].
  destruct (search disclaimerPattern false (c :: s)) as [[[pre ms] rest]|] eqn:E;
    [|apply forallb_replaceAsterisksInText, Hs].
  pose proof (search_splits _ _ _ _ _ _ E) as S.
  assert (Hd : forallb P (concat ms) = true).
  { rewrite S, !forallb_app in Hs. apply andb_true_iff in Hs as [_ Hs].
    apply andb_true_iff in Hs as [Hs _]. exact Hs. }
  apply forallb_replace_str; [exact P_placeholder | exact Hd |].
  apply forallb_replaceAsterisksInText.
  apply forallb_replace_str; [exact Hd | exact P_placeholder | exact Hs].
Qed.

Lemma forallb_removelast (s : jsstring) :
  forallb P s = true -> forallb P (removelast s) = true.
Proof.
  induction s as [|c s IH]; [reflexivity|]. intros H. cbn [forallb] in H.
  apply andb_true_iff in H as [Hc H]. cbn [removelast].
  destruct s; [reflexivity|]. cbn [forallb]. rewrite Hc. apply IH, H.
Qed.

Lemma forallb_stripParens (s : jsstring) :
  forallb P s = true -> forallb P (stripParens s) = true.
Proof.
  intros H. unfold stripParens.
  destruct (startsWith s [c_lparen] && endsWith s [c_rparen]); [|exact H].
  destruct (negb (is_disclaimer s)); [|exact H].
  apply forallb_trim. unfold slice_1_m1. apply forallb_removelast.
  destruct s; [reflexivity|]. cbn [tl]. cbn [forallb] in H.
  apply andb_true_iff in H as [_ H]. exact H.
Qed.

Lemma forallb_split (sep : char16) (s : jsstring) :
  forallb P s = true ->
  Forall (fun l => forallb P l = true) (split sep s).
Proof.
  induction s as [|c s IH]; intros H; [repeat constructor|].
  cbn [forallb] in H. apply andb_true_iff in H as [Hc H]. specialize (IH H).
  cbn [split]. destruct (c =? sep)%N; [constructor; [reflexivity | exact IH]|].
  destruct (split sep s) as [|l ls];
    [repeat constructor; cbn [forallb]; rewrite Hc; reflexivity|].
  inversion IH as [|? ? Hl Hls]; subst. constructor; [|exact Hls].
  cbn [forallb]. rewrite Hc. exact Hl.
Qed.

Lemma forallb_join (sep : jsstring) (ls : list jsstring) :
  forallb P sep = true ->
  Forall (fun l => forallb P l = true) ls ->
  forallb P (join sep ls) = true.
Proof.
  intros Hsep. induction ls as [|l ls IH]; intros H; [reflexivity|].
  inversion H as [|? ? Hl Hls]; subst.
  destruct ls as [|l' ls]; [exact Hl|].
  change (join sep (l :: l' :: ls)) with (l ++ sep ++ join sep (l' :: ls)).
  rewrite !forallb_app, Hl, Hsep. apply IH, Hls.
Qed.

Lemma forallb_line_steps (lines : list jsstring) :
  forall st,
    Forall (fun l => forallb P l = true) lines ->
    Forall (fun l => forallb P l = true) (fst st) ->
    Forall (fun l => forallb P l = true) (fst (fold_left line_step lines st)).
Proof.
  induction lines as [|line rest IH]; intros [cleaned k] Hl Hc; [exact Hc|].
  inversion Hl as [|? ? Hline Hrest]; subst.
  cbn [fold_left]. apply IH; [exact Hrest|].
  unfold line_step. destruct (trim line) as [|a t] eqn:E.
  - destruct (S k <=? 1)%nat; cbn [fst]; [|exact Hc].
    apply Forall_app. split; [exact Hc | repeat constructor].
  - cbn [fst]. apply Forall_app. split; [exact Hc|].
    constructor; [|constructor].
    apply forallb_replace_all.
    + intros ms _. cbn [forallb]. rewrite P_space. reflexivity.
    + rewrite <- E. apply forallb_trim, Hline.
Qed.

Lemma forallb_cleanLines (s : jsstring) :
  forallb P s = true -> forallb P (cleanLines s) = true.
Proof.
  intros H. unfold cleanLines. apply forallb_join.
  - cbn [forallb]. rewrite P_newline. reflexivity.
  - apply forallb_line_steps; [apply forallb_split, H | constructor].
Qed.

Lemma forallb_emit ln b (lines : list jsstring) :
  Forall (fun l => forallb P l = true) lines ->
  Forall (fun l => forallb P l = true) (BulletReference.emit ln b lines).
Proof.
  revert ln b. induction lines as [|l r IH]; intros ln b H; [constructor|].
  inversion H as [|? ? Hl Hr]; subst. rewrite emit_cons.
  destruct ((_ || _) && ln); cbn [app]; repeat constructor;
    try exact Hl; apply IH, Hr.
Qed.

Lemma forallb_fixBulletListSpacing (s : jsstring) :
  forallb P s = true -> forallb P (fixBulletListSpacing s) = true.
Proof.
  intros H. destruct s as [|c s]; [reflexivity|].
  rewrite fixBullet_emit. apply forallb_join.
  - cbn [forallb]. rewrite P_newline. reflexivity.
  - apply forallb_emit, forallb_split, H.
Qed.

Lemma forallb_fixPunctuation_any (s : jsstring) :
  forallb P s = true -> forallb P (fixPunctuation s) = true.
Proof.
  intros H. unfold fixPunctuation.
  destruct P_marks as (M1 & M2 & M3 & M4).
  repeat (apply forallb_replace_all;
          [intros ms _; cbn [forallb]; rewrite ?M1, ?M2, ?M3, ?M4; reflexivity|]).
  exact H.
Qed.

(** The steps of [cleanMessageText] after the two removals. *)
Lemma forallb_clean_steps (s : jsstring) :
  forallb P s = true ->
  forallb P
    (trim (fixPunctuation (fixBulletListSpacing (cleanLines
       (stripParens (replaceAsterisksWithQuotes s)))))) = true.
Proof.
  intros H. apply forallb_trim, forallb_fixPunctuation_any,
    forallb_fixBulletListSpacing, forallb_cleanLines, forallb_stripParens,
    forallb_replaceAsterisksWithQuotes, H.
Qed.

End AlphabetFacts.

Lemma includes_unit (c : Js.char16) (s : Js.jsstring) :
  Js.includes s [c] = negb (forallb (Js.except c) s).
Proof.
  induction s as [|d s IH]; [reflexivity|].
  cbn [Js.includes forallb]. rewrite IH, startsWith_unit.
  unfold Js.except. destruct (d =? c)%N; reflexivity.
Qed.

(** X23. [cleanMessageText] never shows a cross mark: whatever the text,
    the cleaned text holds no cross mark (U+274C), in chat.js and in the
    chat-messages script; so a validation line that leaked into a reply
    never reaches the page. *)
Theorem cleanMessageText_removes_cross_marks :
  forall text : Js.jsstring,
    Js.includes (Clean.cleanMessageText text) [Js.c_cross] = false
    /\ Js.includes (CleanMessages.cleanMessageText text) [Js.c_cross] = false.
Proof.
  intros text. rewrite !includes_unit.
  assert (T : forall s,
            forallb (Js.except Js.c_cross)
              (Js.trim (Js.replace_all Clean.cross_line (fun _ => []) s)) = true)
    by (intros s; apply forallb_trim, cross_line_clears).
  split; apply negb_false_iff.
  - unfold Clean.cleanMessageText. destruct text as [|c s]; [reflexivity|].
    apply (forallb_clean_steps (Js.except Js.c_cross)); try reflexivity;
      [repeat split|].
    apply T.
  - unfold CleanMessages.cleanMessageText. destruct text as [|c s]; [reflexivity|].
    apply (forallb_clean_steps (Js.except Js.c_cross)); try reflexivity;
      [repeat split|].
    unfold CleanMessages.removeMarkup.
    repeat first
      [ apply forallb_replace_all; [intros ms _; reflexivity|]
      | apply forallb_replace_all_alt; [intros ms _; reflexivity|] ].
    apply T.
Qed.

(* --------------------------------------------------------------------- *)
(** ** The punctuation step on any text                                    *)
(* --------------------------------------------------------------------- *)

Section StarRun.
Import Js.

Variable p : char16 -> bool.
Variable k : jsstring -> option (list jsstring * jsstring).

(** A greedy class that can only take [run] fails when the rest of the
    pattern rejects what follows each part of the run it may give
    back. *)
Lemma star_run_none (run rest : jsstring) :
  forallb p run = true ->
  match rest with [] => True | c :: _ => p c = false end ->
  (forall pre x, run = pre ++ x -> k (x ++ rest) = None) ->
  star p k (run ++ rest) = None.
Proof.
  intros Hrun Hrest. induction run as [|a run IH]; intros H.
  - cbn [app]. pose proof (H [] [] eq_refl) as K. cbn [app] in K.
    destruct rest as [|c rest]; cbn [star]; [rewrite K; reflexivity|].
    rewrite Hrest, K. reflexivity.
  - cbn [forallb] in Hrun. apply andb_true_iff in Hrun as [Ha Hrun].
    pose proof (H [] (a :: run) eq_refl) as K. cbn [app] in K.
    cbn [app star]. rewrite Ha, (IH Hrun).
    + rewrite K. reflexivity.
    + intros pre x E. apply (H (a :: pre) x). cbn [app]. rewrite E. reflexivity.
Qed.

End StarRun.

Section UnspaceAny.
Import Js Clean CleanNormal.

Variable p : char16.
Hypothesis p_not_space : (p =? c_space)%N = false.

(** Where a match of the pattern can start: at a run of spaces that is
    followed by [p]. *)
Lemma space_before_run (c : char16) (run rest : jsstring) :
  forallb (only c_space) (c :: run) = true ->
  match rest with [] => True | d :: _ => (d =? c_space)%N = false end ->
  match_atoms (space_before p) false (c :: run ++ rest)
  = match rest with
    | d :: rest' =>
        if (d =? p)%N then Some ([c :: run; [d]], rest') else None
    | [] => None
    end.
Proof.
  intros Hrun Hrest. cbn [forallb] in Hrun.
  apply andb_true_iff in Hrun as [Hc Hrun].
  unfold space_before. cbn [match_atoms qnt cls]. rewrite Hc.
  destruct rest as [|d rest'].
  - rewrite star_run_none; [reflexivity | exact Hrun | exact I |].
    intros pre x E. rewrite app_nil_r.
    destruct x as [|y x]; [reflexivity|].
    rewrite E, forallb_app in Hrun. apply andb_true_iff in Hrun as [_ Hx].
    cbn [forallb] in Hx. apply andb_true_iff in Hx as [Hy _].
    unfold only in *. apply N.eqb_eq in Hy. subst y.
    rewrite N.eqb_sym, p_not_space. reflexivity.
  - destruct (N.eqb_spec d p) as [->|N].
    + rewrite (star_takes_run (only c_space) _ run (p :: rest') [[p]] rest' Hrun).
      * reflexivity.
      * unfold only. rewrite N.eqb_refl. reflexivity.
      * exact Hrest.
    + rewrite star_run_none; [reflexivity | exact Hrun | exact Hrest |].
      intros pre x E. destruct x as [|y x]; cbn [app].
      * unfold only. apply N.eqb_neq in N. rewrite N. reflexivity.
      * rewrite E, forallb_app in Hrun. apply andb_true_iff in Hrun as [_ Hx].
        cbn [forallb] in Hx. apply andb_true_iff in Hx as [Hy _].
        unfold only in *. apply N.eqb_eq in Hy. subst y.
        rewrite N.eqb_sym, p_not_space. reflexivity.
Qed.

Lemma unspace_run_match (c : char16) (run rest : jsstring) :
  forallb (only c_space) (c :: run) = true ->
  unspace p (c :: run ++ p :: rest) = p :: unspace p rest.
Proof.
  intros Hrun. unfold unspace, replace_all.
  rewrite (replace_go_match _ _ _ _ [c :: run; [p]] rest (length run + 1)).
  - cbn [app]. f_equal. f_equal.
    replace (length run + 1)%nat with (length (run ++ [p]))
      by (rewrite length_app; reflexivity).
    change (run ++ p :: rest) with (run ++ [p] ++ rest).
    rewrite app_assoc, skipn_app, Nat.sub_diag, skipn_all. reflexivity.
  - rewrite (space_before_run c run (p :: rest) Hrun p_not_space).
    rewrite N.eqb_refl. reflexivity.
  - cbn [concat length app]. rewrite length_app. cbn [length]. lia.
  - rewrite length_app. cbn [length]. lia.
Qed.

Lemma unspace_run_other (run rest : jsstring) :
  forallb (only c_space) run = true ->
  match rest with [] => True | d :: _ => (d =? c_space)%N = false end ->
  startsWith rest [p] = false ->
  unspace p (run ++ rest) = run ++ unspace p rest.
Proof.
  intros Hrun Hrest Hp. induction run as [|c run IH]; [reflexivity|].
  pose proof Hrun as Hall. cbn [forallb] in Hrun.
  apply andb_true_iff in Hrun as [_ Hrun]. cbn [app].
  rewrite <- (IH Hrun). unfold unspace, replace_all.
  apply replace_go_nomatch.
  rewrite (space_before_run c run rest Hall Hrest).
  destruct rest as [|d rest']; [reflexivity|].
  rewrite startsWith_unit in Hp. rewrite Hp. reflexivity.
Qed.

(** Every text is a run of spaces followed by a text that does not start
    with a space. *)
Lemma space_run_split (s : jsstring) :
  exists run rest,
    s = run ++ rest /\ forallb (only c_space) run = true
    /\ match rest with [] => True | d :: _ => (d =? c_space)%N = false end.
Proof.
  induction s as [|c s IH].
  - exists [], []. repeat split.
  - destruct (c =? c_space)%N eqn:E.
    + destruct IH as (run & rest & -> & Hr & Hd).
      exists (c :: run), rest. cbn [forallb]. unfold only at 1. rewrite E, Hr.
      repeat split. exact Hd.
    + exists [], (c :: s). repeat split. exact E.
Qed.

Lemma startsWith_unspace (q : char16) (rest : jsstring) :
  match rest with [] => True | d :: _ => (d =? c_space)%N = false end ->
  startsWith (unspace p rest) [q] = startsWith rest [q].
Proof.
  destruct rest as [|d rest]; [reflexivity|]. intros Hd.
  rewrite (unspace_other p d rest Hd), !startsWith_unit. reflexivity.
Qed.

Lemma no_space_before_run (q : char16) (run y : jsstring) :
  (q =? c_space)%N = false ->
  forallb (only c_space) run = true ->
  no_space_before q (run ++ y)
  = match run with [] => true | _ => negb (startsWith y [q]) end
    && no_space_before q y.
Proof.
  intros Hq Hrun. induction run as [|c run IH]; [reflexivity|].
  cbn [forallb] in Hrun. apply andb_true_iff in Hrun as [Hc Hrun].
  unfold only in Hc. cbn [app no_space_before]. rewrite Hc, (IH Hrun).
  cbn [andb]. destruct run as [|d run]; [reflexivity|].
  cbn [app]. rewrite startsWith_unit.
  cbn [forallb] in Hrun. apply andb_true_iff in Hrun as [Hd _].
  unfold only in Hd. apply N.eqb_eq in Hd. subst d.
  rewrite N.eqb_sym, Hq. cbn [negb andb].
  destruct (startsWith y [q]); cbn [negb andb]; [|reflexivity].
  reflexivity.
Qed.

(** After the replacement no space stands before [p], whatever the
    text. *)
Lemma unspace_clears_any_bounded (n : nat) :
  forall s, (length s <= n)%nat -> no_space_before p (unspace p s) = true.
Proof.
  induction n as [|n IH]; intros s Hn.
  - destruct s; [reflexivity | simpl in Hn; lia].
  - destruct (space_run_split s) as (run & rest & -> & Hrun & Hrest).
    rewrite length_app in Hn.
    destruct run as [|c run].
    + cbn [app] in *. destruct rest as [|d rest]; [reflexivity|].
      rewrite (unspace_other p d rest Hrest). cbn [no_space_before].
      rewrite Hrest. cbn [andb negb]. apply IH. cbn [length] in Hn. lia.
    + cbn [length] in Hn. destruct (startsWith rest [p]) eqn:Sp.
      * destruct rest as [|d rest]; [discriminate Sp|].
        rewrite startsWith_unit in Sp. apply N.eqb_eq in Sp. subst d.
        cbn [app]. rewrite (unspace_run_match c run rest Hrun).
        cbn [no_space_before]. rewrite p_not_space. cbn [andb negb].
        apply IH. cbn [length] in Hn. lia.
      * rewrite (unspace_run_other (c :: run) rest Hrun Hrest Sp).
        rewrite (no_space_before_run p (c :: run) _ p_not_space Hrun).
        rewrite (startsWith_unspace p rest Hrest), Sp. cbn [negb andb].
        apply IH. lia.
Qed.

Lemma unspace_clears_any (s : jsstring) :
  no_space_before p (unspace p s) = true.
Proof. apply (unspace_clears_any_bounded (length s)). lia. Qed.

(** And what was clear before another code unit stays clear. *)
Lemma unspace_keeps_any_bounded (q : char16) (n : nat) :
  (q =? c_space)%N = false ->
  forall s, (length s <= n)%nat ->
    no_space_before q s = true -> no_space_before q (unspace p s) = true.
Proof.
  intros Hq. induction n as [|n IH]; intros s Hn H.
  - destruct s; [reflexivity | simpl in Hn; lia].
  - destruct (space_run_split s) as (run & rest & -> & Hrun & Hrest).
    rewrite length_app in Hn.
    destruct run as [|c run].
    + cbn [app] in *. destruct rest as [|d rest]; [reflexivity|].
      rewrite (unspace_other p d rest Hrest). cbn [no_space_before] in *.
      rewrite Hrest in *. cbn [andb negb] in *. apply IH; [|exact H].
      cbn [length] in Hn. lia.
    + cbn [length] in Hn.
      rewrite (no_space_before_run q (c :: run) _ Hq Hrun) in H.
      apply andb_true_iff in H as [Hs H]. apply negb_true_iff in Hs.
      destruct (startsWith rest [p]) eqn:Sp.
      * destruct rest as [|d rest]; [discriminate Sp|].
        rewrite startsWith_unit in Sp. apply N.eqb_eq in Sp. subst d.
        cbn [app]. rewrite (unspace_run_match c run rest Hrun).
        cbn [no_space_before] in *. rewrite p_not_space in *.
        cbn [andb negb] in *. apply IH; [|exact H]. cbn [length] in Hn. lia.
      * rewrite (unspace_run_other (c :: run) rest Hrun Hrest Sp).
        rewrite (no_space_before_run q (c :: run) _ Hq Hrun).
        rewrite (startsWith_unspace q rest Hrest), Hs. cbn [negb andb].
        apply IH; [lia | exact H].
Qed.

Lemma unspace_keeps_any (q : char16) (s : jsstring) :
  (q =? c_space)%N = false ->
  no_space_before q s = true -> no_space_before q (unspace p s) = true.
Proof. intros Hq. apply (unspace_keeps_any_bounded q (length s) Hq). lia. Qed.

End UnspaceAny.

Lemma includes_space_before (q : Js.char16) (s : Js.jsstring) :
  Js.includes s [Clean.c_space; q] = negb (CleanNormal.no_space_before q s).
Proof.
  induction s as [|c s IH]; [reflexivity|].
  cbn [Js.includes CleanNormal.no_space_before Js.startsWith].
  rewrite IH, (N.eqb_sym Clean.c_space c).
  destruct ((c =? Clean.c_space)%N && Js.startsWith s [q]); reflexivity.
Qed.

(** After the punctuation step no space stands before a full stop, a
    question mark, an exclamation mark or a comma, whatever the text. *)
Lemma fixPunctuation_clears_any (s : Js.jsstring) :
  CleanNormal.no_space_before 46%N (Clean.fixPunctuation s) = true
  /\ CleanNormal.no_space_before 63%N (Clean.fixPunctuation s) = true
  /\ CleanNormal.no_space_before 33%N (Clean.fixPunctuation s) = true
  /\ CleanNormal.no_space_before 44%N (Clean.fixPunctuation s) = true.
Proof.
  rewrite fixPunctuation_unspace. repeat split.
  - apply (unspace_keeps_any 44%N eq_refl 46%N _ eq_refl).
    apply (unspace_keeps_any 33%N eq_refl 46%N _ eq_refl).
    apply (unspace_keeps_any 63%N eq_refl 46%N _ eq_refl).
    apply (unspace_clears_any 46%N eq_refl).
  - apply (unspace_keeps_any 44%N eq_refl 63%N _ eq_refl).
    apply (unspace_keeps_any 33%N eq_refl 63%N _ eq_refl).
    apply (unspace_clears_any 63%N eq_refl).
  - apply (unspace_keeps_any 44%N eq_refl 33%N _ eq_refl).
    apply (unspace_clears_any 33%N eq_refl).
  - apply (unspace_clears_any 44%N eq_refl).
Qed.

(** X24. The cleaned text is trimmed and has no space before punctuation: whatever
    the text, [cleanMessageText] returns a text that neither starts nor
    ends with white space (trimming it again changes nothing) and in
    which no space stands right before a full stop, a question mark, an
    exclamation mark or a comma; in chat.js and in the chat-messages
    script. *)
Theorem cleanMessageText_is_trimmed_and_punctuated :
  forall text : Js.jsstring,
    let neat (r : Js.jsstring) :=
      Js.trim r = r
      /\ Js.includes r (Js.lit " .") = false
      /\ Js.includes r (Js.lit " ?") = false
      /\ Js.includes r (Js.lit " !") = false
      /\ Js.includes r (Js.lit " ,") = false in
    neat (Clean.cleanMessageText text)
    /\ neat (CleanMessages.cleanMessageText text).
Proof.
  intros text neat.
  assert (T : forall s, neat (Js.trim (Clean.fixPunctuation s))).
  { intros s. unfold neat.
    destruct (fixPunctuation_clears_any s) as (H1 & H2 & H3 & H4).
    split; [apply trim_idem|].
    change (Js.lit " .") with [Clean.c_space; 46%N].
    change (Js.lit " ?") with [Clean.c_space; 63%N].
    change (Js.lit " !") with [Clean.c_space; 33%N].
    change (Js.lit " ,") with [Clean.c_space; 44%N].
    rewrite !includes_space_before.
    rewrite (no_space_before_trim 46%N _ H1), (no_space_before_trim 63%N _ H2),
      (no_space_before_trim 33%N _ H3), (no_space_before_trim 44%N _ H4).
    repeat split. }
  split.
  - unfold Clean.cleanMessageText. destruct text; [|apply T].
    unfold neat. repeat split.
  - unfold CleanMessages.cleanMessageText. destruct text; [|apply T].
    unfold neat. repeat split.
Qed.

(* --------------------------------------------------------------------- *)
(** ** replaceAsterisksInText changes asterisks only                       *)
(* --------------------------------------------------------------------- *)

Section StarGroups.
Import Js.

Variable p : char16 -> bool.
Variable k : jsstring -> option (list jsstring * jsstring).

(** What a greedy class returns: the run it kept, then what the rest of
    the pattern returned on the text after the run. *)
Lemma star_groups (s : jsstring) :
  forall ms rest,
    star p k s = Some (ms, rest) ->
    exists run x ms', s = run ++ x /\ ms = run :: ms' /\ k x = Some (ms', rest).
Proof.
  induction s as [|c s IH]; intros ms rest; cbn [star].
  - destruct (k []) as [[ms' rest']|] eqn:E; [|discriminate].
    intros [= <- <-]. exists [], [], ms'. repeat split. exact E.
  - assert (B : push [] (k (c :: s)) = Some (ms, rest) ->
                exists run x ms',
                  c :: s = run ++ x /\ ms = run :: ms' /\ k x = Some (ms', rest)).
    { destruct (k (c :: s)) as [[ms' rest']|] eqn:E; [|discriminate].
      intros [= <- <-]. exists [], (c :: s), ms'. repeat split. exact E. }
    destruct (p c); [|exact B].
    destruct (star p k s) as [[ms0 rest0]|] eqn:E; [|exact B].
    destruct (IH _ _ eq_refl) as (run & x & ms' & -> & -> & K).
    cbn [grow]. intros [= <- <-].
    exists (c :: run), x, ms'. repeat split. exact K.
Qed.

End StarGroups.

Section RequoteFacts.
Import Js Clean QuoteReference.

Lemma requoted_refl (s : jsstring) : requoted s s = true.
Proof.
  induction s as [|c s IH]; [reflexivity|]. cbn [requoted].
  rewrite N.eqb_refl, IH. reflexivity.
Qed.

Lemma requoted_app (a1 b1 a2 b2 : jsstring) :
  requoted a1 b1 = true -> requoted a2 b2 = true ->
  requoted (a1 ++ a2) (b1 ++ b2) = true.
Proof.
  revert b1. induction a1 as [|x a1 IH]; intros [|y b1] H1 H2;
    try discriminate H1; [exact H2|].
  cbn [requoted] in H1. apply andb_true_iff in H1 as [Hx H1].
  cbn [app requoted]. rewrite Hx, (IH b1 H1 H2). reflexivity.
Qed.

Lemma requoted_length (a b : jsstring) :
  requoted a b = true -> length b = length a.
Proof.
  revert b. induction a as [|x a IH]; intros [|y b] H; try discriminate H;
    [reflexivity|].
  cbn [requoted] in H. apply andb_true_iff in H as [_ H].
  cbn [length]. rewrite (IH b H). reflexivity.
Qed.

(** A match of the pattern is an asterisk, a content, an asterisk. *)
Lemma asterisk_groups (s : jsstring) ms rest :
  match_atoms asterisk_pattern false s = Some (ms, rest) ->
  exists content,
    ms = [[c_star]; content; [c_star]]
    /\ s = c_star :: content ++ c_star :: rest.
Proof.
  rewrite asterisk_unfold. destruct s as [|c [|d s']]; try discriminate.
  destruct (N.eqb_spec c c_star) as [->|]; [|discriminate].
  cbn [andb]. destruct (except c_star d); [|discriminate].
  destruct (star (except c_star) (match_atoms [Atom (only c_star) One] false) s')
    as [[ms0 rest0]|] eqn:E; [|discriminate].
  destruct (star_groups _ _ _ _ _ E) as (run & x & ms' & -> & -> & K).
  rewrite closing_asterisk in K. destruct x as [|e x]; [discriminate|].
  destruct (N.eqb_spec e c_star) as [->|]; [|discriminate].
  injection K as <- <-. cbn [grow push].
  intros [= <- <-]. exists (d :: run). split; reflexivity.
Qed.

Lemma requoted_bounded (n : nat) :
  forall s, (length s <= n)%nat -> requoted s (replaceAsterisksInText s) = true.
Proof.
  unfold replaceAsterisksInText, replace_all.
  induction n as [|n IH]; intros s Hn.
  - destruct s; [reflexivity | simpl in Hn; lia].
  - destruct s as [|c s]; [reflexivity|]. cbn [length] in Hn.
    destruct (match_atoms asterisk_pattern false (c :: s)) as [[ms rest]|] eqn:E.
    + destruct (asterisk_groups _ _ _ E) as (content & -> & S).
      injection S as -> ->.
      rewrite (replace_go_match _ _ _ _ _ _ (length content + 1) E).
      * replace (length content + 1)%nat with (length (content ++ [c_star]))
          by (rewrite length_app; reflexivity).
        change (content ++ c_star :: rest) with (content ++ [c_star] ++ rest).
        rewrite (app_assoc content [c_star] rest), skipn_app, Nat.sub_diag,
          skipn_all. cbn [app skipn].
        change (c_star :: (content ++ [c_star]) ++ rest)
          with ([c_star] ++ (content ++ [c_star]) ++ rest).
        rewrite <- !app_assoc.
        assert (Q : exists q, quote_span [[c_star]; content; [c_star]]
                              = [q] ++ content ++ [q]
                              /\ ((q =? c_squote)%N || (q =? c_dquote)%N) = true).
        { unfold quote_span. destruct (wordCount content <=? 2)%nat;
            eexists; split; reflexivity. }
        destruct Q as (q & -> & Hq). rewrite <- !app_assoc.
        apply requoted_app; [cbn [requoted]; rewrite Hq, orb_true_r; reflexivity|].
        apply requoted_app; [apply requoted_refl|].
        apply requoted_app; [cbn [requoted]; rewrite Hq, orb_true_r; reflexivity|].
        apply IH. rewrite length_app in Hn. cbn [length] in Hn. lia.
      * cbn [concat app length]. rewrite length_app. cbn [length]. lia.
      * rewrite length_app. cbn [length]. lia.
    + rewrite (replace_go_nomatch _ _ _ _ E). cbn [requoted].
      rewrite N.eqb_refl. apply IH. lia.
Qed.

End RequoteFacts.

(** X25. [replaceAsterisksInText] changes asterisks only, and each into a
    quotation mark: the result has the length of the text, and at every
    position it holds the code unit of the text, unless that is an
    asterisk, which may have become a single or a double quote. *)
Theorem replaceAsterisksInText_changes_asterisks_only :
  forall text : Js.jsstring,
    QuoteReference.requoted text (Clean.replaceAsterisksInText text) = true
    /\ length (Clean.replaceAsterisksInText text) = length text.
Proof.
  intros text.
  assert (R : QuoteReference.requoted text (Clean.replaceAsterisksInText text) = true)
    by (apply (requoted_bounded (length text)); lia).
  split; [exact R | apply requoted_length, R].
Qed.

(* --------------------------------------------------------------------- *)
(** ** getResetTimeString                                                  *)
(* --------------------------------------------------------------------- *)

Section ClockFacts.
Import Js ClockReference.

Lemma clock_times_all (h m : Z) :
  (0 <= h < 24)%Z -> (0 <= m < 60)%Z -> In (h, m) clock_times.
Proof.
  intros Hh Hm. unfold clock_times. apply in_flat_map.
  exists (Z.to_nat h). split; [apply in_seq; lia|].
  apply in_map_iff. exists (Z.to_nat m). split; [|apply in_seq; lia].
  f_equal; lia.
Qed.

Lemma clock_labels_read_back :
  forallb (fun t =>
             match read_clock (Limit.getResetTimeString (fun _ => t) 1) with
             | Some (h, m) => (h =? fst t)%Z && (m =? snd t)%Z
             | None => false
             end) clock_times = true.
Proof. vm_compute. reflexivity. Qed.

End ClockFacts.

(** X26. The label of [getResetTimeString] can be read back.  When no time
    remains (zero or less) the label is 'now'.  Otherwise, for the local
    hour h (0 to 23) and minute m of the reset time, the label is of the
    form H:MM AM or H:MM PM with H between 1 and 12, and reading it back
    gives h and m again: midnight is 12 AM, noon is 12 PM, and no two
    clock times share a label. *)
Theorem getResetTimeString_reads_back :
  forall (localTime : Z -> Z * Z) (secondsRemaining h m : Z),
    localTime secondsRemaining = (h, m) ->
    (0 <= h < 24)%Z ->
    (0 <= m < 60)%Z ->
    ((secondsRemaining <= 0)%Z ->
     Limit.getResetTimeString localTime secondsRemaining = Js.lit "now")
    /\ ((0 < secondsRemaining)%Z ->
        ClockReference.read_clock
          (Limit.getResetTimeString localTime secondsRemaining)
        = Some (h, m)).
Proof.
  intros localTime s h m E Hh Hm. split.
  - intros Hs. unfold Limit.getResetTimeString.
    destruct (Z.leb_spec s 0); [reflexivity | lia].
  - intros Hs.
    pose proof clock_labels_read_back as A. rewrite forallb_forall in A.
    specialize (A (h, m) (clock_times_all h m Hh Hm)).
    assert (G : Limit.getResetTimeString localTime s
                = Limit.getResetTimeString (fun _ => (h, m)) 1).
    { unfold Limit.getResetTimeString. rewrite E.
      destruct (Z.leb_spec s 0); [lia | reflexivity]. }
    rewrite G.
    destruct (ClockReference.read_clock
                (Limit.getResetTimeString (fun _ => (h, m)) 1))
      as [[h' m']|]; [|discriminate A].
    cbn [fst snd] in A. apply andb_true_iff in A as [A1 A2].
    apply Z.eqb_eq in A1. apply Z.eqb_eq in A2. subst. reflexivity.
Qed.

Lemma getResetTimeString_reads_back_witness :
  ClockReference.read_clock
    (Limit.getResetTimeString (fun _ => (0, 5)%Z) 3600)
  = Some (0, 5)%Z.
Proof.
  apply (getResetTimeString_reads_back (fun _ => (0, 5)%Z) 3600 0 5 eq_refl).
  - lia.
  - lia.
  - lia.
Defined.

(* --------------------------------------------------------------------- *)
(** ** Blank lines of the cleaned text                                     *)
(* --------------------------------------------------------------------- *)

Section ShortRunFacts.
Import Js Clean CleanNormal BulletReference GapReference.

Lemma short_runs_includes (s : jsstring) :
  forall k, short_runs k s = true ->
    includes s [c_newline; c_newline; c_newline] = false.
Proof.
  induction s as [|c s IH]; intros k H; [reflexivity|].
  cbn [includes]. cbn [short_runs] in H.
  assert (T : includes s [c_newline; c_newline; c_newline] = false).
  { destruct (c =? c_newline)%N; [|exact (IH _ H)].
    apply andb_true_iff in H as [_ H]. exact (IH _ H). }
  rewrite T, orb_false_r.
  destruct s as [|d [|e s]]; cbn [startsWith];
    rewrite ?andb_false_r; try reflexivity.
  rewrite (N.eqb_sym c_newline c), (N.eqb_sym c_newline d),
    (N.eqb_sym c_newline e).
  cbn [short_runs] in H.
  destruct (c =? c_newline)%N; [|reflexivity].
  destruct (d =? c_newline)%N; [|reflexivity].
  destruct (e =? c_newline)%N; [|reflexivity].
  apply andb_true_iff in H as [Hk H].
  apply andb_true_iff in H as [Hk1 H].
  apply andb_true_iff in H as [Hk2 _].
  apply Nat.ltb_lt in Hk, Hk1, Hk2. lia.
Qed.

Lemma short_runs_mono (s : jsstring) :
  forall k k', (k' <= k)%nat -> short_runs k s = true -> short_runs k' s = true.
Proof.
  induction s as [|c s IH]; intros k k' L H; [reflexivity|].
  cbn [short_runs] in *. destruct (c =? c_newline)%N; [|exact H].
  apply andb_true_iff in H as [Hk H]. apply Nat.ltb_lt in Hk.
  apply andb_true_iff. split; [apply Nat.ltb_lt; lia|].
  apply (IH (S k)); [lia | exact H].
Qed.

Lemma short_runs_tail (k : nat) (c : char16) (s : jsstring) :
  short_runs k (c :: s) = true -> short_runs 0 s = true.
Proof.
  cbn [short_runs]. destruct (c =? c_newline)%N; [|exact (fun H => H)].
  intros H. apply andb_true_iff in H as [_ H].
  apply (short_runs_mono s (S k)); [lia | exact H].
Qed.

(** A text without a line feed has no run, and ends the run before
    it. *)
Lemma short_runs_free (l : jsstring) :
  forallb (except c_newline) l = true ->
  forall k, short_runs k l = true.
Proof.
  induction l as [|c l IH]; intros H k; [reflexivity|].
  cbn [forallb] in H. apply andb_true_iff in H as [Hc H].
  unfold except in Hc. apply negb_true_iff in Hc.
  cbn [short_runs]. rewrite Hc. apply IH, H.
Qed.

Lemma short_runs_after (l x : jsstring) :
  forallb (except c_newline) l = true -> l <> [] ->
  forall k, short_runs k (l ++ x) = short_runs 0 x.
Proof.
  induction l as [|c l IH]; intros H Hn k; [contradiction|].
  cbn [forallb] in H. apply andb_true_iff in H as [Hc H].
  unfold except in Hc. apply negb_true_iff in Hc.
  cbn [app short_runs]. rewrite Hc.
  destruct l as [|d l]; [reflexivity|]. apply IH; [exact H | discriminate].
Qed.

Lemma short_runs_trimStart (s : jsstring) :
  short_runs 0 s = true -> short_runs 0 (trimStart s) = true.
Proof.
  induction s as [|c s IH]; intros H; [reflexivity|]. cbn [trimStart].
  destruct (isWhiteSpace c); [|exact H]. apply IH, (short_runs_tail 0 c s H).
Qed.

Lemma short_runs_trimEnd (s : jsstring) :
  forall k, short_runs k s = true -> short_runs k (trimEnd s) = true.
Proof.
  induction s as [|c s IH]; intros k H; [reflexivity|].
  cbn [trimEnd]. cbn [short_runs] in H.
  destruct (trimEnd s) as [|d r] eqn:E.
  - destruct (isWhiteSpace c); [reflexivity|]. cbn [short_runs].
    destruct (c =? c_newline)%N; [|reflexivity].
    apply andb_true_iff in H as [Hk _]. rewrite Hk. reflexivity.
  - cbn [short_runs]. destruct (c =? c_newline)%N.
    + apply andb_true_iff in H as [Hk H]. rewrite Hk. cbn [andb].
      exact (IH _ H).
    + exact (IH _ H).
Qed.

Lemma short_runs_trim (s : jsstring) :
  short_runs 0 s = true -> short_runs 0 (trim s) = true.
Proof. intros H. apply short_runs_trimEnd, short_runs_trimStart, H. Qed.

End ShortRunFacts.

Section ShortRunUnspace.
Import Js Clean CleanNormal GapReference.

Variable p : char16.
Hypothesis p_not_space : (p =? c_space)%N = false.
Hypothesis p_not_newline : (p =? c_newline)%N = false.

Lemma spaces_free (run : jsstring) :
  forallb (only c_space) run = true -> forallb (except c_newline) run = true.
Proof.
  induction run as [|c run IH]; [reflexivity|]. cbn [forallb]. intros H.
  apply andb_true_iff in H as [Hc H]. rewrite (IH H), andb_true_r.
  unfold only in Hc. apply N.eqb_eq in Hc. subst c. reflexivity.
Qed.

(** The replacement joins no two runs of line feeds. *)
Lemma short_runs_unspace_bounded (n : nat) :
  forall s k, (length s <= n)%nat ->
    short_runs k s = true -> short_runs k (unspace p s) = true.
Proof.
  induction n as [|n IH]; intros s k Hn H.
  - destruct s; [reflexivity | simpl in Hn; lia].
  - destruct (space_run_split s) as (run & rest & -> & Hrun & Hrest).
    rewrite length_app in Hn.
    destruct run as [|c run].
    + cbn [app] in *. destruct rest as [|d rest]; [reflexivity|].
      rewrite (unspace_other p d rest Hrest). cbn [length] in Hn.
      cbn [short_runs] in *. destruct (d =? c_newline)%N.
      * apply andb_true_iff in H as [Hk H]. rewrite Hk. cbn [andb].
        apply IH; [lia | exact H].
      * apply IH; [lia | exact H].
    + cbn [length] in Hn.
      rewrite (short_runs_after (c :: run) rest (spaces_free _ Hrun)
                 ltac:(discriminate)) in H.
      destruct (startsWith rest [p]) eqn:Sp.
      * destruct rest as [|d rest]; [discriminate Sp|].
        rewrite startsWith_unit in Sp. apply N.eqb_eq in Sp. subst d.
        cbn [app]. rewrite (unspace_run_match p p_not_space c run rest Hrun).
        cbn [short_runs] in *. rewrite p_not_newline in *.
        apply IH; [cbn [length] in Hn; lia | exact H].
      * rewrite (unspace_run_other p p_not_space (c :: run) rest Hrun Hrest Sp).
        rewrite (short_runs_after (c :: run) _ (spaces_free _ Hrun)
                   ltac:(discriminate)).
        apply IH; [lia | exact H].
Qed.

Lemma short_runs_unspace (s : jsstring) (k : nat) :
  short_runs k s = true -> short_runs k (unspace p s) = true.
Proof. apply (short_runs_unspace_bounded (length s)). lia. Qed.

End ShortRunUnspace.

Section GapFacts.
Import Js Clean CleanNormal BulletReference GapReference.

Lemma short_runs_fixPunctuation (s : jsstring) (k : nat) :
  short_runs k s = true -> short_runs k (fixPunctuation s) = true.
Proof.
  intros H. rewrite fixPunctuation_unspace.
  apply (short_runs_unspace 44%N eq_refl eq_refl).
  apply (short_runs_unspace 33%N eq_refl eq_refl).
  apply (short_runs_unspace 63%N eq_refl eq_refl).
  apply (short_runs_unspace 46%N eq_refl eq_refl), H.
Qed.

Lemma last_empty_cons (l y : jsstring) (r : list jsstring) :
  last_empty (l :: y :: r) = last_empty (y :: r).
Proof. reflexivity. Qed.

Lemma no_gap_snoc (ls : list jsstring) (x : jsstring) :
  no_gap (ls ++ [x]) = no_gap ls && negb (last_empty ls && negb (nonempty x)).
Proof.
  induction ls as [|l ls IH]; [reflexivity|].
  destruct ls as [|y r].
  - cbn. destruct (nonempty l), (nonempty x); reflexivity.
  - rewrite last_empty_cons.
    change (no_gap ((l :: y :: r) ++ [x]))
      with ((nonempty l || nonempty y) && no_gap ((y :: r) ++ [x])).
    rewrite IH.
    change (no_gap (l :: y :: r))
      with ((nonempty l || nonempty y) && no_gap (y :: r)).
    rewrite andb_assoc. reflexivity.
Qed.

Lemma last_empty_snoc (ls : list jsstring) (x : jsstring) :
  last_empty (ls ++ [x]) = negb (nonempty x).
Proof.
  unfold last_empty. rewrite last_last.
  destruct ls; reflexivity.
Qed.

(** The line loop of [cleanMessageText] never appends a second empty
    line. *)
Lemma line_step_gap (st : list jsstring * nat) (line : jsstring) :
  no_gap (fst st) = true ->
  (last_empty (fst st) = true -> (1 <= snd st)%nat) ->
  no_gap (fst (line_step st line)) = true
  /\ (last_empty (fst (line_step st line)) = true ->
      (1 <= snd (line_step st line))%nat).
Proof.
  destruct st as [cleaned k]. cbn [fst snd]. intros G L.
  unfold line_step. destruct (trim line) as [|c x] eqn:E.
  - destruct (S k <=? 1)%nat eqn:Ek; cbn [fst snd].
    + apply Nat.leb_le in Ek. rewrite no_gap_snoc, G.
      destruct (last_empty cleaned); [specialize (L eq_refl); lia|].
      split; [reflexivity | intros _; lia].
    + split; [exact G | intros _; lia].
  - cbn [fst snd]. fold (collapse (c :: x)).
    rewrite (collapse_head c x (trim_head _ _ _ E)).
    rewrite no_gap_snoc, last_empty_snoc, G. cbn [nonempty negb].
    rewrite andb_false_r. split; [reflexivity | discriminate].
Qed.

Lemma line_steps_gap (lines : list jsstring) :
  forall st,
    no_gap (fst st) = true ->
    (last_empty (fst st) = true -> (1 <= snd st)%nat) ->
    no_gap (fst (fold_left line_step lines st)) = true.
Proof.
  induction lines as [|line rest IH]; intros st G L; [exact G|].
  cbn [fold_left]. destruct (line_step_gap st line G L) as [G' L'].
  apply IH; [exact G' | exact L'].
Qed.

Lemma nonblank_nonempty (l : jsstring) : nonblank l = true -> nonempty l = true.
Proof. destruct l; [discriminate | reflexivity]. Qed.

(** The empty line that [fixBulletListSpacing] adds stands between two
    lines that are not blank. *)
Lemma emit_gap (lines : list jsstring) :
  forall prev b,
    no_gap (prev :: lines) = true ->
    no_gap (prev :: emit (nonblank prev) b lines) = true.
Proof.
  induction lines as [|line rest IH]; intros prev b H; [reflexivity|].
  rewrite emit_cons.
  change (no_gap (prev :: line :: rest))
    with ((nonempty prev || nonempty line) && no_gap (line :: rest)) in H.
  apply andb_true_iff in H as [H1 H2].
  pose proof (IH line (item line || b && negb (nonblank line)) H2) as K.
  destruct ((item line && negb b || negb (item line) && b && nonblank line)
            && nonblank prev) eqn:C.
  - apply andb_true_iff in C as [C Hp].
    assert (Hl : nonblank line = true).
    { destruct (nonblank line) eqn:Nl; [reflexivity|].
      rewrite (item_blank line Nl) in C. cbn in C.
      rewrite andb_false_r in C. discriminate. }
    cbn [app].
    change (no_gap (prev :: [] :: line :: ?e))
      with ((nonempty prev || nonempty []) && ((nonempty [] || nonempty line)
            && no_gap (line :: e))).
    rewrite (nonblank_nonempty _ Hp), (nonblank_nonempty _ Hl), K. reflexivity.
  - cbn [app].
    change (no_gap (prev :: line :: ?e))
      with ((nonempty prev || nonempty line) && no_gap (line :: e)).
    rewrite H1, K. reflexivity.
Qed.

Lemma emit_gap_start (lines : list jsstring) (b : bool) :
  no_gap lines = true -> no_gap (emit false b lines) = true.
Proof.
  intros H. pose proof (emit_gap lines [c_space] b) as K.
  change (nonblank [c_space]) with false in K.
  assert (G : forall ls, no_gap ([c_space] :: ls) = no_gap ls).
  { intros ls. destruct ls; reflexivity. }
  rewrite !G in K. exact (K H).
Qed.

(** Joined lines without adjacent empty lines have no run of three line
    feeds. *)
Lemma short_runs_join (ls : list jsstring) :
  forall k,
    Forall (fun l => forallb (except c_newline) l = true) ls ->
    no_gap ls = true ->
    (k <= 2)%nat ->
    (k = 2%nat -> match ls with l :: _ => nonempty l = true | [] => True end) ->
    short_runs k (join [c_newline] ls) = true.
Proof.
  induction ls as [|l ls IH]; intros k Hf G Hk H2; [reflexivity|].
  inversion Hf as [|? ? Hl Hls]; subst.
  destruct ls as [|l' r]; [apply short_runs_free, Hl|].
  change (join [c_newline] (l :: l' :: r))
    with (l ++ c_newline :: join [c_newline] (l' :: r)).
  change (no_gap (l :: l' :: r))
    with ((nonempty l || nonempty l') && no_gap (l' :: r)) in G.
  apply andb_true_iff in G as [G1 G2].
  destruct l as [|c l].
  - cbn [app short_runs]. rewrite N.eqb_refl.
    assert (K1 : (k < 2)%nat).
    { destruct (Nat.eq_dec k 2) as [->|]; [|lia].
      specialize (H2 eq_refl). discriminate. }
    apply Nat.ltb_lt in K1 as K1'. rewrite K1'. cbn [andb].
    apply IH; [exact Hls | exact G2 | lia |]. intros _. exact G1.
  - rewrite (short_runs_after (c :: l) _ Hl ltac:(discriminate)).
    cbn [short_runs]. rewrite N.eqb_refl. cbn [Nat.ltb Nat.leb andb].
    apply IH; [exact Hls | exact G2 | lia | discriminate].
Qed.


(** The last four steps of [cleanMessageText], on any text. *)
Lemma short_runs_clean_steps (x : jsstring) :
  short_runs 0 (trim (fixPunctuation (fixBulletListSpacing (cleanLines x))))
  = true.
Proof.
  apply short_runs_trim, short_runs_fixPunctuation.
  unfold cleanLines.
  set (cleaned := fst (fold_left line_step (split c_newline x) ([], 0%nat))).
  assert (Hf : Forall (fun l => forallb (except c_newline) l = true) cleaned).
  { apply (forallb_line_steps (except c_newline) eq_refl);
      [apply split_pieces | constructor]. }
  assert (G : no_gap cleaned = true).
  { apply line_steps_gap; [reflexivity | discriminate]. }
  destruct (join [c_newline] cleaned) as [|c s] eqn:J; [reflexivity|].
  rewrite fixBullet_emit, <- J.
  assert (Hn : cleaned <> []).
  { intros E. rewrite E in J. discriminate. }
  rewrite (split_join c_newline cleaned Hn Hf).
  apply short_runs_join;
    [apply forallb_emit, Hf | apply emit_gap_start, G | lia | intros; lia].
Qed.

End GapFacts.

(** X27. The cleaned text never has more than one blank line in a row:
    whatever the text, the result of [cleanMessageText] does not contain
    three line feeds in a row; in chat.js and in the chat-messages
    script. *)
Theorem cleanMessageText_has_no_double_blank_line :
  forall text : Js.jsstring,
    Js.includes (Clean.cleanMessageText text)
      [Js.c_newline; Js.c_newline; Js.c_newline] = false
    /\ Js.includes (CleanMessages.cleanMessageText text)
         [Js.c_newline; Js.c_newline; Js.c_newline] = false.
Proof.
  intros text. split.
  - unfold Clean.cleanMessageText. destruct text; [reflexivity|].
    apply (short_runs_includes _ 0), short_runs_clean_steps.
  - unfold CleanMessages.cleanMessageText. destruct text; [reflexivity|].
    apply (short_runs_includes _ 0), short_runs_clean_steps.
Qed.

(* --------------------------------------------------------------------- *)
(** ** Cleaning a cleaned text again                                       *)
(* --------------------------------------------------------------------- *)

Section OccursFacts.
Import Js RepeatReference.








End OccursFacts.

Section MatchTakes.
Import Js MatchReference.

Variable q : char16 -> bool.






End MatchTakes.

Section SettledFacts.
Import Js Clean CleanReference RepeatReference.







End SettledFacts.

Section NeatFacts.
Import Js Clean CleanNormal BulletReference GapReference RepeatReference.











End NeatFacts.

Section TrimEndUnspace.
Import Js Clean CleanNormal.

Variable p : char16.
Hypothesis p_not_white : isWhiteSpace p = false.



End TrimEndUnspace.

Section UnspaceLines.
Import Js Clean CleanNormal.

Variable p : char16.
Hypothesis p_not_space : (p =? c_space)%N = false.
Hypothesis p_not_newline : (p =? c_newline)%N = false.






End UnspaceLines.

Section LineFacts.
Import Js Clean CleanNormal BulletReference GapReference RepeatReference.
























End LineFacts.

Section RepeatFacts.
Import Js Clean CleanNormal RepeatReference.







End RepeatFacts.

(** A second pass can also act where the first left an asterisk pair or
    made a list item: '**a**' is cleaned to an 'a' in asterisks and
    quotes and then to an 'a' in doubled quotes; in 'a / 1 . x' (two
    lines) the first pass makes the second line the list item '1. x',
    and the second pass puts an empty line before it. *)
Lemma second_pass_quotes_and_spaces_lists :
  Clean.cleanMessageText CleanScenario.doubled_asterisks = Js.lit "*'a'*"
  /\ Clean.cleanMessageText
       (Clean.cleanMessageText CleanScenario.doubled_asterisks)
     = Js.lit "''a''"
  /\ RepeatReference.occurs Clean.asterisk_pattern
       (Clean.cleanMessageText CleanScenario.doubled_asterisks) = true
  /\ Clean.cleanMessageText CleanScenario.spaced_number
     = Js.lit "a" ++ [Js.c_newline] ++ Js.lit "1. x"
  /\ Clean.cleanMessageText
       (Clean.cleanMessageText CleanScenario.spaced_number)
     = Js.lit "a" ++ [Js.c_newline; Js.c_newline] ++ Js.lit "1. x"
  /\ BulletReference.separated
       (Js.split Js.c_newline
          (Clean.cleanMessageText CleanScenario.spaced_number)) = false.
Proof. vm_compute. repeat split. Qed.


